(** * Investment_App / DataModule: orchestration core

    A shallow embedding of the data-orchestration core of the DataModule
    package and the verification of its specification:

    - [Models]              : [models/financial_data.py]
    - [DataQualityService]  : [services/data_quality_service.py]
    - [CacheService]        : [services/cache_service.py]
    - [DataService]         : [services/data_service.py]

    Modelling conventions.
    - [Decimal] and Python [float] scores are exact rationals ([Q]); every
      comparison the code makes against a threshold is a comparison of
      rationals. Pydantic rejects non-finite decimals, so [Q] covers every
      [Decimal] a record can hold.
    - A [date] is its proleptic ordinal (a day number in [Z]); subtracting two
      dates and reading [.days] is subtraction in [Z].
    - A [datetime] is a number of microseconds together with the flag that
      says whether it carries a time zone: Python refuses ([TypeError]) to
      compare or subtract a naive and an aware datetime.
    - [try]/[except] is an explicit [result]; the [issues] list that the
      assessment passes append to is the output of a writer monad, which keeps
      what was appended before an exception.
    - Issue messages (f-strings in the source) are constructors of [Issue]
      that carry the interpolated values. *)

From Stdlib Require Import ZArith QArith Qround Qabs Lqa Lia List String Ascii Bool.
From Stdlib.Strings Require Import Byte.
From stdpp Require Import gmap strings list fin_maps sorting.

(** ** Python primitives *)

Module Py.

Inductive Exception : Type :=
| TypeError
| ValueError
| ZeroDivisionError
| ConnectionError
| JSONDecodeError
| UnicodeDecodeError
| ZlibError
| UnpicklingError
| RuntimeError.

Inductive result (A : Type) : Type :=
| Ok (a : A)
| Raise (e : Exception).
Arguments Ok {A} a.
Arguments Raise {A} e.

Definition is_Ok {A} (r : result A) : bool :=
  match r with Ok _ => true | Raise _ => false end.

#[export] Instance result_ret : MRet result := λ A a, Ok a.

#[export] Instance result_bind : MBind result := λ A B f r,
  match r with Ok a => f a | Raise e => Raise e end.

(** Truthiness ([bool(x)]) of the values the code tests with [if x:]. *)
Definition truthy_Q (x : Q) : bool := negb (Qeq_bool x 0).
Definition truthy_Z (x : Z) : bool := negb (x =? 0)%Z.
Definition truthy_opt_Q (x : option Q) : bool :=
  match x with Some v => truthy_Q v | None => false end.
Definition truthy_str (s : string) : bool :=
  match s with EmptyString => false | _ => true end.
Definition truthy_list {A} (l : list A) : bool :=
  match l with [] => false | _ => true end.
Definition is_not_None {A} (x : option A) : bool :=
  match x with Some _ => true | None => false end.

(** Comparison operators on rationals, as booleans. *)
Definition Qleb (x y : Q) : bool := Qle_bool x y.
Definition Qltb (x y : Q) : bool := negb (Qle_bool y x).
Definition Qgeb (x y : Q) : bool := Qle_bool y x.
Definition Qgtb (x y : Q) : bool := negb (Qle_bool x y).

(** [len(l)] as an integer. *)
Definition len {A} (l : list A) : Z := Z.of_nat (length l).

(** [sum(l)] and [statistics.mean(l)] in exact arithmetic. *)
Definition Qsum (l : list Q) : Q := fold_right Qplus 0%Q l.
Definition mean (l : list Q) : Q := (Qsum l / inject_Z (len l))%Q.

(** [round(x)] is round-half-to-even; [round(x, 2)] rounds at the second
    decimal. *)
Definition round_half_even (q : Q) : Z :=
  let f := Qfloor q in
  let r := (q - inject_Z f)%Q in
  if Qltb r (1 # 2) then f
  else if Qgtb r (1 # 2) then (f + 1)%Z
  else if Z.even f then f else (f + 1)%Z.

Definition round2 (q : Q) : Q := (inject_Z (round_half_even (q * 100)) / 100)%Q.

(** [str.upper()] on the ASCII range. *)
Definition upper_ascii (c : ascii) : ascii :=
  let n := nat_of_ascii c in
  if (97 <=? n)%nat && (n <=? 122)%nat then ascii_of_nat (n - 32) else c.

Fixpoint upper (s : string) : string :=
  match s with
  | EmptyString => EmptyString
  | String c r => String (upper_ascii c) (upper r)
  end.

(** [datetime]: microseconds since the epoch and the tz-awareness flag. *)
Record datetime : Type := mk_datetime { micros : Z; aware : bool }.

Definition date : Type := Z.

Definition timedelta_hours (h : Z) : Z := (h * 3600000000)%Z.
Definition timedelta_days (d : Z) : Z := (d * 86400000000)%Z.

(** [a > b] on datetimes. *)
Definition datetime_gt (a b : datetime) : result bool :=
  if Bool.eqb (aware a) (aware b) then Ok (micros b <? micros a)%Z
  else Raise TypeError.

(** [(a - b)] on datetimes, as a timedelta in microseconds. *)
Definition datetime_sub (a b : datetime) : result Z :=
  if Bool.eqb (aware a) (aware b) then Ok (micros a - micros b)%Z
  else Raise TypeError.

(** [dt + timedelta] keeps the time zone of [dt]. *)
Definition datetime_add (a : datetime) (delta : Z) : datetime :=
  {| micros := (micros a + delta)%Z; aware := aware a |}.

(** [timedelta.total_seconds()]. *)
Definition total_seconds (delta : Z) : Q := (inject_Z delta / 1000000)%Q.

(** What one reading of the wall clock gives: [datetime.now()] (always
    naive) and [date.today()]. *)
Record Clock : Type := mk_clock { now_micros : Z; today : date }.

Definition now (clk : Clock) : datetime :=
  {| micros := now_micros clk; aware := false |}.

End Py.
Export Py.

(** ** models/financial_data.py *)

Module Models.

Inductive DataSource : Type := YAHOO_FINANCE | ALPHA_VANTAGE | MANUAL.

#[export] Instance DataSource_eq_dec : EqDecision DataSource.
Proof. solve_decision. Defined.

Definition DataSource_to_nat (s : DataSource) : nat :=
  match s with YAHOO_FINANCE => 0 | ALPHA_VANTAGE => 1 | MANUAL => 2 end.

Definition DataSource_of_nat (n : nat) : option DataSource :=
  match n with
  | 0%nat => Some YAHOO_FINANCE
  | 1%nat => Some ALPHA_VANTAGE
  | 2%nat => Some MANUAL
  | _ => None
  end.

#[export] Instance DataSource_countable : Countable DataSource.
Proof.
  refine (inj_countable DataSource_to_nat DataSource_of_nat _).
  intros []; reflexivity.
Defined.

Inductive DataType : Type :=
| STOCK_PRICE | FINANCIAL_STATEMENT | MARKET_DATA | COMPANY_INFO.

Definition Decimal : Type := Q.

Record StockPrice : Type := {
  sp_symbol : string;
  sp_date : date;
  open_price : option Decimal;
  high_price : option Decimal;
  low_price : option Decimal;
  close_price : Decimal;
  adjusted_close : option Decimal;
  volume : option Z
}.

Record CompanyInfo : Type := {
  ci_symbol : string;
  company_name : string;
  sector : option string;
  industry : option string;
  market_cap : option Decimal;
  enterprise_value : option Decimal;
  trailing_pe : option Decimal;
  forward_pe : option Decimal;
  peg_ratio : option Decimal;
  price_to_book : option Decimal;
  price_to_sales : option Decimal;
  beta : option Decimal;
  dividend_yield : option Decimal;
  description : option string;
  website : option string;
  employees : option Z
}.

Record IncomeStatement : Type := {
  is_symbol : string;
  is_period_ending : date;
  is_period_type : string;
  revenue : option Decimal;
  cost_of_revenue : option Decimal;
  gross_profit : option Decimal;
  operating_expenses : option Decimal;
  operating_income : option Decimal;
  interest_expense : option Decimal;
  pretax_income : option Decimal;
  income_tax : option Decimal;
  net_income : option Decimal;
  eps_basic : option Decimal;
  eps_diluted : option Decimal;
  shares_outstanding : option Decimal
}.

Record BalanceSheet : Type := {
  bs_symbol : string;
  bs_period_ending : date;
  bs_period_type : string;
  total_assets : option Decimal;
  current_assets : option Decimal;
  cash_and_equivalents : option Decimal;
  inventory : option Decimal;
  total_liabilities : option Decimal;
  current_liabilities : option Decimal;
  long_term_debt : option Decimal;
  total_equity : option Decimal;
  retained_earnings : option Decimal
}.

Record CashFlowStatement : Type := {
  cf_symbol : string;
  cf_period_ending : date;
  cf_period_type : string;
  operating_cash_flow : option Decimal;
  investing_cash_flow : option Decimal;
  financing_cash_flow : option Decimal;
  net_cash_flow : option Decimal;
  free_cash_flow : option Decimal;
  capital_expenditures : option Decimal;
  depreciation : option Decimal
}.

Record FinancialStatement : Type := {
  fs_symbol : string;
  period_ending : date;
  period_type : string;
  income_statement : option IncomeStatement;
  balance_sheet : option BalanceSheet;
  cash_flow_statement : option CashFlowStatement;
  fs_data_source : DataSource;
  fs_last_updated : datetime
}.

(** The messages appended to [issues], one constructor per f-string. *)
Inductive Issue : Type :=
| Missing_company_info (field : string)
| Company_information_completely_missing
| Missing_current_price (field : string)
| Current_price_data_missing
| Limited_historical_price_data
| Insufficient_historical_price_data
| No_historical_price_data
| Limited_financial_statements
| No_recent_financial_statements
| Missing_income_statement_for (d : date)
| Missing_balance_sheet_for (d : date)
| Missing_cash_flow_statement_for (d : date)
| No_financial_statements_available
| Completeness_assessment_failed (e : Exception)
| Current_price_data_is_days_old (days : Z)
| No_current_price_data_available
| Historical_price_data_is_days_old (days : Z)
| Latest_financial_statement_is_days_old (days : Z)
| Data_was_last_updated_hours_ago (hours : Q)
| Freshness_assessment_failed (e : Exception)
| Historical_price_validation_issues (valid total : Z)
| Financial_statement_validation_issues (valid total : Z)
| Accuracy_assessment_failed (e : Exception)
| Symbol_inconsistency (symbols : gset string)
| Date_gaps_in_historical_prices (gaps : Z)
| Irregular_financial_statement_intervals (avg : Q)
| Price_outliers_detected (outliers total : Z)
| Consistency_assessment_failed (e : Exception)
| Missing_close_price_for (d : date)
| Invalid_price_relationship_open (d : date)
| Invalid_price_relationship_close (d : date)
| Unreasonable_close_price (d : date) (p : Decimal)
| Negative_volume_on (d : date)
| Price_validation_error (d : date) (e : Exception)
| Empty_financial_statement_for (d : date)
| Negative_revenue_in (d : date)
| Balance_sheet_does_not_balance_for (d : date)
| Financial_statement_validation_error (d : date) (e : Exception)
| Missing_company_name
| Invalid_market_cap
| Unreasonable_PE_ratio (pe : Decimal)
| Extreme_beta_value (b : Decimal)
| Company_info_validation_error (e : Exception)
| Assessment_failed (e : Exception).

Record DataQualityMetrics : Type := {
  dq_symbol : string;
  dq_data_source : DataSource;
  dq_data_type : DataType;
  quality_score : Decimal;
  completeness_score : Decimal;
  freshness_score : Decimal;
  accuracy_score : Decimal;
  last_assessed : datetime;
  issues : list Issue
}.

(** [validate_score_range]: the pydantic validator of the four score
    fields. *)
Definition validate_score_range (v : Decimal) : result Decimal :=
  if Qleb 0 v && Qleb v 100 then Ok v else Raise ValueError.

(** The constructor [DataQualityMetrics(...)] with its validators;
    [last_assessed] defaults to [datetime.now()]. *)
Definition DataQualityMetrics_new (clk : Clock) (symbol : string)
    (data_source : DataSource) (data_type : DataType)
    (quality completeness freshness accuracy : Decimal)
    (iss : list Issue) : result DataQualityMetrics :=
  match validate_score_range quality, validate_score_range completeness,
        validate_score_range freshness, validate_score_range accuracy with
  | Ok q, Ok c, Ok f, Ok a =>
      Ok {| dq_symbol := symbol; dq_data_source := data_source;
            dq_data_type := data_type; quality_score := q;
            completeness_score := c; freshness_score := f;
            accuracy_score := a; last_assessed := now clk; issues := iss |}
  | _, _, _, _ => Raise ValueError
  end.

Record StockData : Type := {
  symbol : string;
  company_info : option CompanyInfo;
  current_price : option StockPrice;
  historical_prices : list StockPrice;
  financial_statements : list FinancialStatement;
  data_quality : option DataQualityMetrics;
  last_updated : datetime
}.

(** [stock_data.data_quality = q] *)
Definition set_data_quality (sd : StockData) (q : DataQualityMetrics) : StockData :=
  {| symbol := symbol sd; company_info := company_info sd;
     current_price := current_price sd;
     historical_prices := historical_prices sd;
     financial_statements := financial_statements sd;
     data_quality := Some q; last_updated := last_updated sd |}.

Record APIRateLimit : Type := {
  api_name : string;
  endpoint : string;
  requests_made : Z;
  requests_limit : Z;
  reset_time : datetime
}.

Definition requests_remaining (rl : APIRateLimit) : Z :=
  Z.max 0 (requests_limit rl - requests_made rl).

Definition is_limit_exceeded (rl : APIRateLimit) : bool :=
  (requests_limit rl <=? requests_made rl)%Z.

End Models.
Export Models.

(** ** The writer of issues

    A pass over a record appends to the caller's [issues] list and either
    returns a value or raises; what was appended before the exception stays
    in the list. *)

Module Writer.

Record W (A : Type) : Type := mkW { res : result A; out : list Issue }.
Arguments mkW {A} res out.
Arguments res {A} w.
Arguments out {A} w.

#[export] Instance W_ret : MRet W := λ A a, mkW (Ok a) [].

#[export] Instance W_bind : MBind W := λ A B f m,
  match res m with
  | Ok a => let r := f a in mkW (res r) (out m ++ out r)
  | Raise e => mkW (Raise e) (out m)
  end.

(** [issues.append(i)] *)
Definition append (i : Issue) : W unit := mkW (Ok tt) [i].

(** [if not silent: issues.append(i)] *)
Definition note (silent : bool) (i : Issue) : W unit :=
  if silent then mret tt else append i.

(** A computation that cannot append. *)
Definition lift {A} (r : result A) : W A := mkW r [].

(** [try: m  except Exception as e: h e] *)
Definition try_except {A} (m : W A) (h : Exception → W A) : W A :=
  match res m with
  | Ok _ => m
  | Raise e => let r := h e in mkW (res r) (out m ++ out r)
  end.

End Writer.
Export Writer.

(** ** services/data_quality_service.py *)

Module DataQualityService.

Local Open Scope Z_scope.

(** [self.quality_thresholds] *)
Definition threshold_excellent : Q := 90.
Definition threshold_good : Q := 75.
Definition threshold_fair : Q := 60.
Definition threshold_poor : Q := 40.

(** [self.quality_weights] *)
Definition weight_completeness : Q := 4 # 10.
Definition weight_freshness : Q := 3 # 10.
Definition weight_accuracy : Q := 2 # 10.
Definition weight_consistency : Q := 1 # 10.

(** *** _assess_completeness *)

(** [for field in fields: total_fields += 1; if getattr(obj, field) is not
    None: completed_fields += 1 else: issues.append(...)]; a field is given
    by its name and by whether the attribute is not [None]. *)
Fixpoint for_fields (mk : string → Issue) (fields : list (string * bool))
    (acc : Z * Z) : W (Z * Z) :=
  match fields with
  | [] => mret acc
  | (name, present) :: rest =>
      let '(total_fields, completed_fields) := acc in
      let total_fields := total_fields + 1 in
      completed_fields ←
        (if present then mret (completed_fields + 1)
         else append (mk name);; mret completed_fields);
      for_fields mk rest (total_fields, completed_fields)
  end.

Definition company_fields (ci : CompanyInfo) : list (string * bool) :=
  [ ("company_name"%string, true);
    ("sector"%string, is_not_None (sector ci));
    ("industry"%string, is_not_None (industry ci));
    ("market_cap"%string, is_not_None (market_cap ci));
    ("trailing_pe"%string, is_not_None (trailing_pe ci));
    ("beta"%string, is_not_None (beta ci));
    ("description"%string, is_not_None (description ci)) ].

Definition price_fields (p : StockPrice) : list (string * bool) :=
  [ ("open_price"%string, is_not_None (open_price p));
    ("high_price"%string, is_not_None (high_price p));
    ("low_price"%string, is_not_None (low_price p));
    ("close_price"%string, true);
    ("volume"%string, is_not_None (volume p)) ].

(** [for stmt in recent_statements[:2]: ...; total_fields += 3] *)
Fixpoint for_statements (stmts : list FinancialStatement) (acc : Z * Z)
    : W (Z * Z) :=
  match stmts with
  | [] => mret acc
  | stmt :: rest =>
      let '(total_fields, completed_fields) := acc in
      completed_fields ←
        (if is_not_None (income_statement stmt) then mret (completed_fields + 1)
         else append (Missing_income_statement_for (period_ending stmt));;
              mret completed_fields);
      completed_fields ←
        (if is_not_None (balance_sheet stmt) then mret (completed_fields + 1)
         else append (Missing_balance_sheet_for (period_ending stmt));;
              mret completed_fields);
      completed_fields ←
        (if is_not_None (cash_flow_statement stmt) then mret (completed_fields + 1)
         else append (Missing_cash_flow_statement_for (period_ending stmt));;
              mret completed_fields);
      let total_fields := total_fields + 3 in
      for_statements rest (total_fields, completed_fields)
  end.

Definition completeness_company (sd : StockData) (acc : Z * Z) : W (Z * Z) :=
  match company_info sd with
  | Some ci => for_fields Missing_company_info (company_fields ci) acc
  | None =>
      append Company_information_completely_missing;;
      mret (fst acc + 7, snd acc)
  end.

Definition completeness_current_price (sd : StockData) (acc : Z * Z)
    : W (Z * Z) :=
  match current_price sd with
  | Some p => for_fields Missing_current_price (price_fields p) acc
  | None =>
      append Current_price_data_missing;;
      mret (fst acc + 5, snd acc)
  end.

Definition completeness_historical (sd : StockData) (acc : Z * Z)
    : W (Z * Z) :=
  let '(total_fields, completed_fields) := acc in
  if truthy_list (historical_prices sd) then
    completed_fields ←
      (if 30 <=? len (historical_prices sd) then mret (completed_fields + 2)
       else if 7 <=? len (historical_prices sd) then
         append Limited_historical_price_data;; mret (completed_fields + 1)
       else
         append Insufficient_historical_price_data;; mret completed_fields);
    mret (total_fields + 2, completed_fields)
  else
    append No_historical_price_data;;
    mret (total_fields + 2, completed_fields).

Definition recent_statements (clk : Clock) (sd : StockData)
    : list FinancialStatement :=
  List.filter (λ stmt, today clk - 730 <=? period_ending stmt)
    (financial_statements sd).

Definition completeness_statements (clk : Clock) (sd : StockData)
    (acc : Z * Z) : W (Z * Z) :=
  let '(total_fields, completed_fields) := acc in
  if truthy_list (financial_statements sd) then
    let recent := recent_statements clk sd in
    completed_fields ←
      (if 2 <=? len recent then mret (completed_fields + 2)
       else if 1 <=? len recent then
         append Limited_financial_statements;; mret (completed_fields + 1)
       else
         append No_recent_financial_statements;; mret completed_fields);
    let total_fields := total_fields + 2 in
    for_statements (firstn 2 recent) (total_fields, completed_fields)
  else
    append No_financial_statements_available;;
    mret (total_fields + 8, completed_fields).

Definition _assess_completeness (clk : Clock) (sd : StockData) : W Q :=
  try_except
    (acc ← completeness_company sd (0, 0);
     acc ← completeness_current_price sd acc;
     acc ← completeness_historical sd acc;
     acc ← completeness_statements clk sd acc;
     let '(total_fields, completed_fields) := acc in
     mret (if 0 <? total_fields
           then (inject_Z completed_fields / inject_Z total_fields * 100)%Q
           else 0%Q))
    (λ e, append (Completeness_assessment_failed e);; mret 0%Q).

(** *** _assess_freshness *)

(** [max(l, key=...)]: the first element with the largest key. *)
Fixpoint max_by {A} (key : A → Z) (best : A) (l : list A) : A :=
  match l with
  | [] => best
  | y :: rest => max_by key (if key best <? key y then y else best) rest
  end.

Definition freshness_current_price (clk : Clock) (sd : StockData) : W Q :=
  match current_price sd with
  | Some p =>
      let price_age_days := today clk - sp_date p in
      if price_age_days =? 0 then mret 100%Q
      else if price_age_days <=? 1 then mret 90%Q
      else if price_age_days <=? 3 then mret 70%Q
      else if price_age_days <=? 7 then mret 50%Q
      else append (Current_price_data_is_days_old price_age_days);; mret 20%Q
  | None => append No_current_price_data_available;; mret 0%Q
  end.

Definition freshness_historical (clk : Clock) (sd : StockData) : W Q :=
  match historical_prices sd with
  | p :: rest =>
      let latest_price := max_by sp_date p rest in
      let hist_age_days := today clk - sp_date latest_price in
      if hist_age_days <=? 1 then mret 100%Q
      else if hist_age_days <=? 3 then mret 80%Q
      else if hist_age_days <=? 7 then mret 60%Q
      else append (Historical_price_data_is_days_old hist_age_days);; mret 30%Q
  | [] => mret 0%Q
  end.

Definition freshness_statements (clk : Clock) (sd : StockData) : W Q :=
  match financial_statements sd with
  | s :: rest =>
      let latest_statement := max_by period_ending s rest in
      let stmt_age_days := today clk - period_ending latest_statement in
      if stmt_age_days <=? 90 then mret 100%Q
      else if stmt_age_days <=? 180 then mret 80%Q
      else if stmt_age_days <=? 365 then mret 60%Q
      else if stmt_age_days <=? 730 then mret 40%Q
      else append (Latest_financial_statement_is_days_old stmt_age_days);;
           mret 20%Q
  | [] => mret 0%Q
  end.

Definition freshness_overall (clk : Clock) (sd : StockData) : W Q :=
  delta ← lift (datetime_sub (now clk) (last_updated sd));
  let data_age_hours := (total_seconds delta / 3600)%Q in
  if Qleb data_age_hours 1 then mret 100%Q
  else if Qleb data_age_hours 6 then mret 90%Q
  else if Qleb data_age_hours 24 then mret 70%Q
  else if Qleb data_age_hours 72 then mret 50%Q
  else append (Data_was_last_updated_hours_ago data_age_hours);; mret 30%Q.

Definition _assess_freshness (clk : Clock) (sd : StockData) : W Q :=
  try_except
    (s1 ← freshness_current_price clk sd;
     s2 ← freshness_historical clk sd;
     s3 ← freshness_statements clk sd;
     s4 ← freshness_overall clk sd;
     let freshness_scores := [s1; s2; s3; s4] in
     mret (if truthy_list freshness_scores then mean freshness_scores else 0%Q))
    (λ e, append (Freshness_assessment_failed e);; mret 0%Q).

(** *** _validate_price_data, _validate_financial_statement,
    _validate_company_info *)

Definition _validate_price_data (price : StockPrice) (silent : bool) : W Z :=
  try_except
    (let score := 100 in
     score ←
       (if negb (truthy_Q (close_price price)) then
          note silent (Missing_close_price_for (sp_date price));;
          mret (score - 30)
        else mret score);
     score ←
       match open_price price, high_price price, low_price price with
       | Some o, Some h, Some l =>
           if truthy_Q o && truthy_Q h && truthy_Q l
              && truthy_Q (close_price price) then
             score ←
               (if negb (Qleb l o && Qleb o h) then
                  note silent (Invalid_price_relationship_open (sp_date price));;
                  mret (score - 20)
                else mret score);
             (if negb (Qleb l (close_price price) && Qleb (close_price price) h)
              then
                note silent (Invalid_price_relationship_close (sp_date price));;
                mret (score - 20)
              else mret score)
           else mret score
       | _, _, _ => mret score
       end;
     score ←
       (if truthy_Q (close_price price)
           && (Qleb (close_price price) 0 || Qgtb (close_price price) 100000)
        then
          note silent
            (Unreasonable_close_price (sp_date price) (close_price price));;
          mret (score - 25)
        else mret score);
     score ←
       match volume price with
       | Some v =>
           if v <? 0 then
             note silent (Negative_volume_on (sp_date price));;
             mret (score - 15)
           else mret score
       | None => mret score
       end;
     mret (Z.max 0 score))
    (λ e, note silent (Price_validation_error (sp_date price) e);; mret 0).

(** [a / b] on floats raises on a zero divisor. *)
Definition Qdiv_py (a b : Q) : result Q :=
  if Qeq_bool b 0 then Raise ZeroDivisionError else Ok (a / b)%Q.

Definition validate_income (stmt : FinancialStatement) (silent : bool)
    (score : Z) : W Z :=
  match income_statement stmt with
  | Some inc =>
      match revenue inc with
      | Some r =>
          if truthy_Q r && Qltb r 0 then
            note silent (Negative_revenue_in (period_ending stmt));;
            mret (score - 20)
          else mret score
      | None => mret score
      end
  | None => mret score
  end.

Definition validate_balance (stmt : FinancialStatement) (silent : bool)
    (score : Z) : W Z :=
  match balance_sheet stmt with
  | Some bs =>
      match total_assets bs, total_liabilities bs, total_equity bs with
      | Some ta, Some tl, Some te =>
          if truthy_Q ta && truthy_Q tl && truthy_Q te then
            let assets := ta in
            let liab_equity := (tl + te)%Q in
            ratio ← lift (Qdiv_py (Qabs (assets - liab_equity)) assets);
            if Qgtb ratio (5 # 100) then
              note silent (Balance_sheet_does_not_balance_for (period_ending stmt));;
              mret (score - 30)
            else mret score
          else mret score
      | _, _, _ => mret score
      end
  | None => mret score
  end.

Definition _validate_financial_statement (stmt : FinancialStatement)
    (silent : bool) : W Z :=
  try_except
    (let score := 100 in
     if negb (is_not_None (income_statement stmt)
              || is_not_None (balance_sheet stmt)
              || is_not_None (cash_flow_statement stmt)) then
       note silent (Empty_financial_statement_for (period_ending stmt));;
       mret 0
     else
       score ← validate_income stmt silent score;
       score ← validate_balance stmt silent score;
       mret (Z.max 0 score))
    (λ e, note silent
            (Financial_statement_validation_error (period_ending stmt) e);;
          mret 0).

Definition _validate_company_info (ci : CompanyInfo) : W Z :=
  try_except
    (let score := 100 in
     score ←
       (if negb (truthy_str (company_name ci)) then
          append Missing_company_name;; mret (score - 30)
        else mret score);
     score ←
       match market_cap ci with
       | Some mc =>
           if truthy_Q mc && Qleb mc 0 then
             append Invalid_market_cap;; mret (score - 20)
           else mret score
       | None => mret score
       end;
     score ←
       match trailing_pe ci with
       | Some pe =>
           if truthy_Q pe && (Qleb pe 0 || Qgtb pe 1000) then
             append (Unreasonable_PE_ratio pe);; mret (score - 15)
           else mret score
       | None => mret score
       end;
     score ←
       match beta ci with
       | Some b =>
           if truthy_Q b && Qgtb (Qabs b) 5 then
             append (Extreme_beta_value b);; mret (score - 10)
           else mret score
       | None => mret score
       end;
     mret (Z.max 0 score))
    (λ e, append (Company_info_validation_error e);; mret 0).

(** *** _assess_accuracy *)

(** [for x in l: if await validate(x, issues, silent=True): valid += 1] *)
Fixpoint count_valid {A} (validate : A → W Z) (l : list A) (valid : Z) : W Z :=
  match l with
  | [] => mret valid
  | x :: rest =>
      v ← validate x;
      count_valid validate rest (if truthy_Z v then valid + 1 else valid)
  end.

(** The historical-price block: what it appends to [accuracy_checks]. *)
Definition accuracy_historical (sd : StockData) : W (list Q) :=
  if truthy_list (historical_prices sd) then
    let total_prices := len (historical_prices sd) in
    valid_prices ←
      count_valid (λ price, _validate_price_data price true)
        (firstn 30 (historical_prices sd)) 0;
    let price_accuracy :=
      if 0 <? total_prices
      then (inject_Z valid_prices / inject_Z total_prices * 100)%Q else 0%Q in
    (if Qltb price_accuracy 90 then
       append (Historical_price_validation_issues valid_prices total_prices)
     else mret tt);;
    mret [price_accuracy]
  else mret [].

(** The financial-statement block. *)
Definition accuracy_statements (sd : StockData) : W (list Q) :=
  if truthy_list (financial_statements sd) then
    let total_statements := len (financial_statements sd) in
    valid_statements ←
      count_valid (λ stmt, _validate_financial_statement stmt true)
        (financial_statements sd) 0;
    let stmt_accuracy :=
      if 0 <? total_statements
      then (inject_Z valid_statements / inject_Z total_statements * 100)%Q
      else 0%Q in
    (if Qltb stmt_accuracy 90 then
       append (Financial_statement_validation_issues valid_statements
                 total_statements)
     else mret tt);;
    mret [stmt_accuracy]
  else mret [].

Definition accuracy_current_price (sd : StockData) : W (list Q) :=
  match current_price sd with
  | Some p => price_valid ← _validate_price_data p false;
              mret [inject_Z price_valid]
  | None => mret []
  end.

Definition accuracy_company (sd : StockData) : W (list Q) :=
  match company_info sd with
  | Some ci => company_valid ← _validate_company_info ci;
               mret [inject_Z company_valid]
  | None => mret []
  end.

Definition _assess_accuracy (sd : StockData) : W Q :=
  try_except
    (c1 ← accuracy_current_price sd;
     c2 ← accuracy_historical sd;
     c3 ← accuracy_statements sd;
     c4 ← accuracy_company sd;
     let accuracy_checks := c1 ++ c2 ++ c3 ++ c4 in
     mret (if truthy_list accuracy_checks then mean accuracy_checks else 0%Q))
    (λ e, append (Accuracy_assessment_failed e);; mret 0%Q).

(** *** _assess_consistency *)

(** [l.sort()] on dates. *)
Definition sort_dates (l : list date) : list date := merge_sort Z.le l.

(** [[l[i] - l[i-1] for i in range(1, len(l))]] *)
Fixpoint consecutive_diffs (l : list Z) : list Z :=
  match l with
  | a :: (b :: _) as rest => (b - a) :: consecutive_diffs rest
  | _ => []
  end.

Definition symbols_of (sd : StockData) : gset string :=
  let symbols : gset string := ∅ in
  let symbols :=
    match company_info sd with
    | Some ci => symbols ∪ {[ ci_symbol ci ]}
    | None => symbols
    end in
  let symbols :=
    match current_price sd with
    | Some p => symbols ∪ {[ sp_symbol p ]}
    | None => symbols
    end in
  let symbols :=
    if truthy_list (historical_prices sd)
    then symbols ∪ list_to_set (map sp_symbol (firstn 5 (historical_prices sd)))
    else symbols in
  if truthy_list (financial_statements sd)
  then symbols ∪ list_to_set (map fs_symbol (firstn 3 (financial_statements sd)))
  else symbols.

Definition consistency_symbols (sd : StockData) : W (list Q) :=
  let symbols := symbols_of sd in
  if (size symbols =? 1)%nat then mret [100%Q]
  else append (Symbol_inconsistency symbols);; mret [50%Q].

Definition consistency_dates (sd : StockData) : W (list Q) :=
  if 1 <? len (historical_prices sd) then
    let dates := sort_dates (map sp_date (historical_prices sd)) in
    let gaps :=
      len (List.filter (λ days_diff, 3 <? days_diff)
             (consecutive_diffs (firstn 30 dates))) in
    if gaps =? 0 then mret [100%Q]
    else if gaps <=? 2 then mret [80%Q]
    else append (Date_gaps_in_historical_prices gaps);; mret [60%Q]
  else mret [].

(** The statement-interval block. *)
Definition consistency_statement_intervals (sd : StockData) : W (list Q) :=
  if 1 <? len (financial_statements sd) then
    let stmt_dates := sort_dates (map period_ending (financial_statements sd)) in
    let intervals := map inject_Z (consecutive_diffs stmt_dates) in
    if truthy_list intervals then
      let avg_interval := mean intervals in
      if Qleb 80 avg_interval && Qleb avg_interval 100 then mret [100%Q]
      else if Qleb 350 avg_interval && Qleb avg_interval 380 then mret [100%Q]
      else if Qleb 160 avg_interval && Qleb avg_interval 200 then mret [90%Q]
      else append (Irregular_financial_statement_intervals avg_interval);;
           mret [70%Q]
    else mret []
  else mret [].

(** [statistics.variance]: the square of [statistics.stdev]. *)
Definition variance (l : list Q) : Q :=
  let m := mean l in
  (Qsum (map (λ x, (x - m) * (x - m)) l) / inject_Z (len l - 1))%Q.

(** [abs(price - price_mean) > 3 * price_std], compared on the squares
    (both sides are non-negative). *)
Definition beyond_3_sigma (price price_mean price_var : Q) : bool :=
  Qgtb ((price - price_mean) * (price - price_mean)) (9 * price_var).

Definition consistency_outliers (sd : StockData) : W (list Q) :=
  if 10 <? len (historical_prices sd) then
    let prices :=
      map close_price
        (List.filter (λ p, truthy_Q (close_price p))
           (firstn 30 (historical_prices sd))) in
    if 5 <? len prices then
      let price_mean := mean prices in
      let price_var := if 1 <? len prices then variance prices else 0%Q in
      let outliers :=
        len (List.filter (λ price, beyond_3_sigma price price_mean price_var)
               prices) in
      let outlier_ratio := (inject_Z outliers / inject_Z (len prices))%Q in
      if Qleb outlier_ratio (5 # 100) then mret [100%Q]
      else if Qleb outlier_ratio (10 # 100) then mret [80%Q]
      else append (Price_outliers_detected outliers (len prices));;
           mret [60%Q]
    else mret []
  else mret [].

Definition _assess_consistency (sd : StockData) : W Q :=
  try_except
    (c1 ← consistency_symbols sd;
     c2 ← consistency_dates sd;
     c3 ← consistency_statement_intervals sd;
     c4 ← consistency_outliers sd;
     let consistency_checks := c1 ++ c2 ++ c3 ++ c4 in
     mret (if truthy_list consistency_checks
           then mean consistency_checks else 0%Q))
    (λ e, append (Consistency_assessment_failed e);; mret 0%Q).

(** *** assess_stock_data_quality *)

Definition overall_quality (completeness_score freshness_score accuracy_score
    consistency_score : Q) : Q :=
  (completeness_score * weight_completeness
   + freshness_score * weight_freshness
   + accuracy_score * weight_accuracy
   + consistency_score * weight_consistency)%Q.

(** The four passes, in the order the method runs them on one [issues]
    list. *)
Definition assess_passes (clk : Clock) (sd : StockData) : W (Q * Q * Q * Q) :=
  completeness_score ← _assess_completeness clk sd;
  freshness_score ← _assess_freshness clk sd;
  accuracy_score ← _assess_accuracy sd;
  consistency_score ← _assess_consistency sd;
  mret (completeness_score, freshness_score, accuracy_score, consistency_score).

Definition assess_stock_data_quality (clk : Clock) (sd : StockData)
    (data_source : DataSource) : result DataQualityMetrics :=
  let body :=
    let passes := assess_passes clk sd in
    match res passes with
    | Ok (completeness_score, freshness_score, accuracy_score,
          consistency_score) =>
        let quality_score :=
          overall_quality completeness_score freshness_score accuracy_score
            consistency_score in
        DataQualityMetrics_new clk (symbol sd) data_source STOCK_PRICE
          (round2 quality_score) (round2 completeness_score)
          (round2 freshness_score) (round2 accuracy_score) (out passes)
    | Raise e => Raise e
    end in
  match body with
  | Ok quality_metrics => Ok quality_metrics
  | Raise e =>
      DataQualityMetrics_new clk (symbol sd) data_source STOCK_PRICE
        0%Q 0%Q 0%Q 0%Q [Assessment_failed e]
  end.

(** *** get_quality_grade *)

Definition get_quality_grade (quality_score : Q) : string :=
  if Qgeb quality_score threshold_excellent then "A"
  else if Qgeb quality_score threshold_good then "B"
  else if Qgeb quality_score threshold_fair then "C"
  else if Qgeb quality_score threshold_poor then "D"
  else "F".

(** The rank of a letter grade: [A] is the highest. *)
Definition grade_rank (g : string) : Z :=
  if String.eqb g "A" then 4
  else if String.eqb g "B" then 3
  else if String.eqb g "C" then 2
  else if String.eqb g "D" then 1
  else 0.

End DataQualityService.

(** ** services/data_service.py *)

Module DataService.

Local Open Scope Z_scope.

(** [self.metrics] *)
Record Metrics : Type := {
  m_requests_made : Z;
  m_cache_hits : Z;
  m_cache_misses : Z;
  m_api_errors : Z;
  m_quality_assessments : Z
}.

(** The cache collaborator as the orchestrator sees it: [get] gives the
    stored record unless the store has expired it or cannot be reached,
    [set] stores a record for [ttl] seconds. Both swallow every exception
    ([get] gives [None], [set] gives [False]). *)
Record Cache : Type := {
  entries : gmap string (StockData * Z);
  reachable : bool
}.

Definition cache_get (clk : Clock) (key : string) (c : Cache)
    : option StockData :=
  if reachable c then
    match entries c !! key with
    | Some (d, expires) => if now_micros clk <? expires then Some d else None
    | None => None
    end
  else None.

Definition cache_set (clk : Clock) (key : string) (d : StockData) (ttl : Z)
    (c : Cache) : Cache :=
  if reachable c then
    {| entries := <[ key := (d, now_micros clk + ttl * 1000000) ]> (entries c);
       reachable := reachable c |}
  else c.

(** The provider clients: [yahoo_client.get_stock_data] and
    [alpha_vantage_client.get_comprehensive_data]. *)
Record Providers : Type := {
  yahoo_get_stock_data : string → result (option StockData);
  alpha_get_comprehensive_data : string → result (option StockData)
}.

Record DataService : Type := {
  enable_caching : bool;
  enable_quality_assessment : bool;
  cache_service : option Cache;
  quality_service : bool;
  rate_limits : gmap DataSource APIRateLimit;
  data_source_priority : list DataSource;
  metrics : Metrics
}.

Definition set_rate_limits (svc : DataService)
    (rl : gmap DataSource APIRateLimit) : DataService :=
  {| enable_caching := enable_caching svc;
     enable_quality_assessment := enable_quality_assessment svc;
     cache_service := cache_service svc;
     quality_service := quality_service svc;
     rate_limits := rl;
     data_source_priority := data_source_priority svc;
     metrics := metrics svc |}.

Definition set_metrics (svc : DataService) (m : Metrics) : DataService :=
  {| enable_caching := enable_caching svc;
     enable_quality_assessment := enable_quality_assessment svc;
     cache_service := cache_service svc;
     quality_service := quality_service svc;
     rate_limits := rate_limits svc;
     data_source_priority := data_source_priority svc;
     metrics := m |}.

Definition set_cache_service (svc : DataService) (c : option Cache)
    : DataService :=
  {| enable_caching := enable_caching svc;
     enable_quality_assessment := enable_quality_assessment svc;
     cache_service := c;
     quality_service := quality_service svc;
     rate_limits := rate_limits svc;
     data_source_priority := data_source_priority svc;
     metrics := metrics svc |}.

Definition incr_requests_made (m : Metrics) : Metrics :=
  {| m_requests_made := m_requests_made m + 1; m_cache_hits := m_cache_hits m;
     m_cache_misses := m_cache_misses m; m_api_errors := m_api_errors m;
     m_quality_assessments := m_quality_assessments m |}.

Definition incr_cache_hits (m : Metrics) : Metrics :=
  {| m_requests_made := m_requests_made m; m_cache_hits := m_cache_hits m + 1;
     m_cache_misses := m_cache_misses m; m_api_errors := m_api_errors m;
     m_quality_assessments := m_quality_assessments m |}.

Definition incr_cache_misses (m : Metrics) : Metrics :=
  {| m_requests_made := m_requests_made m; m_cache_hits := m_cache_hits m;
     m_cache_misses := m_cache_misses m + 1; m_api_errors := m_api_errors m;
     m_quality_assessments := m_quality_assessments m |}.

Definition incr_api_errors (m : Metrics) : Metrics :=
  {| m_requests_made := m_requests_made m; m_cache_hits := m_cache_hits m;
     m_cache_misses := m_cache_misses m; m_api_errors := m_api_errors m + 1;
     m_quality_assessments := m_quality_assessments m |}.

Definition incr_quality_assessments (m : Metrics) : Metrics :=
  {| m_requests_made := m_requests_made m; m_cache_hits := m_cache_hits m;
     m_cache_misses := m_cache_misses m; m_api_errors := m_api_errors m;
     m_quality_assessments := m_quality_assessments m + 1 |}.

(** [__init__] *)
Definition DataService_init (clk : Clock) (enable_caching
    enable_quality_assessment : bool) : DataService :=
  {| enable_caching := enable_caching;
     enable_quality_assessment := enable_quality_assessment;
     cache_service :=
       if enable_caching then Some {| entries := ∅; reachable := true |}
       else None;
     quality_service := enable_quality_assessment;
     rate_limits :=
       <[ YAHOO_FINANCE :=
            {| api_name := "yahoo_finance"; endpoint := "general";
               requests_made := 0; requests_limit := 2000;
               reset_time := datetime_add (now clk) (timedelta_hours 1) |} ]>
       (<[ ALPHA_VANTAGE :=
            {| api_name := "alpha_vantage"; endpoint := "general";
               requests_made := 0; requests_limit := 500;
               reset_time := datetime_add (now clk) (timedelta_days 1) |} ]> ∅);
     data_source_priority := [YAHOO_FINANCE; ALPHA_VANTAGE];
     metrics := {| m_requests_made := 0; m_cache_hits := 0; m_cache_misses := 0;
                   m_api_errors := 0; m_quality_assessments := 0 |} |}.

(** *** _check_rate_limit *)

(** The period by which a window is re-opened. *)
Definition reset_period (source : DataSource) : Z :=
  match source with
  | ALPHA_VANTAGE => timedelta_days 1
  | _ => timedelta_hours 1
  end.

(** The body of the [try]; its only raising step is the comparison of
    [datetime.now()] with [reset_time], which comes before any update. *)
Definition _check_rate_limit_body (clk : Clock) (source : DataSource)
    (svc : DataService) : result (bool * DataService) :=
  match rate_limits svc !! source with
  | None => Ok (true, svc)
  | Some rate_limit =>
      match datetime_gt (now clk) (reset_time rate_limit) with
      | Raise e => Raise e
      | Ok expired =>
          let rate_limit :=
            if expired then
              {| api_name := api_name rate_limit;
                 endpoint := endpoint rate_limit;
                 requests_made := 0;
                 requests_limit := requests_limit rate_limit;
                 reset_time := datetime_add (now clk) (reset_period source) |}
            else rate_limit in
          Ok (negb (is_limit_exceeded rate_limit),
              set_rate_limits svc (<[ source := rate_limit ]> (rate_limits svc)))
      end
  end.

Definition _check_rate_limit (clk : Clock) (source : DataSource)
    (svc : DataService) : bool * DataService :=
  match _check_rate_limit_body clk source svc with
  | Ok r => r
  | Raise _ => (true, svc)
  end.

(** *** _update_rate_limit *)

Definition _update_rate_limit (source : DataSource) (svc : DataService)
    : DataService :=
  match rate_limits svc !! source with
  | Some rate_limit =>
      set_rate_limits svc
        (<[ source :=
              {| api_name := api_name rate_limit;
                 endpoint := endpoint rate_limit;
                 requests_made := requests_made rate_limit + 1;
                 requests_limit := requests_limit rate_limit;
                 reset_time := reset_time rate_limit |} ]> (rate_limits svc))
  | None => svc
  end.

(** *** _determine_cache_ttl *)

Definition _determine_cache_ttl (stock_data : StockData) : Z :=
  let base_ttl := 900 in
  match data_quality stock_data with
  | Some dq =>
      let quality_score := quality_score dq in
      if Qgeb quality_score 90 then base_ttl * 2
      else if Qgeb quality_score 75 then base_ttl
      else if Qgeb quality_score 60 then base_ttl / 2
      else base_ttl / 4
  | None => base_ttl
  end.

(** *** _get_data_from_yahoo, _get_data_from_alpha_vantage *)

Definition _get_data_from_yahoo (prov : Providers) (symbol : string)
    (svc : DataService) : option StockData * DataService :=
  let svc := _update_rate_limit YAHOO_FINANCE svc in
  match yahoo_get_stock_data prov symbol with
  | Ok r => (r, svc)
  | Raise _ => (None, svc)
  end.

Definition _get_data_from_alpha_vantage (prov : Providers) (symbol : string)
    (svc : DataService) : option StockData * DataService :=
  let svc := _update_rate_limit ALPHA_VANTAGE svc in
  match alpha_get_comprehensive_data prov symbol with
  | Ok r => (r, svc)
  | Raise _ => (None, svc)
  end.

(** *** get_stock_data *)

(** The body of the loop's inner [try]: the fetch for one source. A source
    that is neither of the two providers leaves [stock_data] as it was
    ([None], since the loop leaves at the first record). *)
Definition fetch_from (prov : Providers) (symbol : string)
    (source : DataSource) (svc : DataService)
    : result (option StockData) * DataService :=
  match source with
  | YAHOO_FINANCE =>
      let '(r, svc) := _get_data_from_yahoo prov symbol svc in (Ok r, svc)
  | ALPHA_VANTAGE =>
      let '(r, svc) := _get_data_from_alpha_vantage prov symbol svc in (Ok r, svc)
  | MANUAL => (Ok None, svc)
  end.

(** [for source in sources_to_try: ...]; gives the record and the value of
    [source] at the [break]. *)
Fixpoint try_sources (prov : Providers) (clk : Clock) (symbol : string)
    (sources_to_try : list DataSource) (svc : DataService)
    : option (StockData * DataSource) * DataService :=
  match sources_to_try with
  | [] => (None, svc)
  | source :: rest =>
      let '(allowed, svc) := _check_rate_limit clk source svc in
      if negb allowed then try_sources prov clk symbol rest svc
      else
        let '(r, svc) := fetch_from prov symbol source svc in
        match r with
        | Ok (Some stock_data) => (Some (stock_data, source), svc)
        | Ok None => try_sources prov clk symbol rest svc
        | Raise _ =>
            try_sources prov clk symbol rest
              (set_metrics svc (incr_api_errors (metrics svc)))
        end
  end.

(** The quality step of [get_stock_data]. *)
Definition attach_quality (clk : Clock) (stock_data : StockData)
    (source : DataSource) (svc : DataService) : StockData * DataService :=
  if enable_quality_assessment svc && quality_service svc then
    match DataQualityService.assess_stock_data_quality clk stock_data source with
    | Ok quality_metrics =>
        (set_data_quality stock_data quality_metrics,
         set_metrics svc (incr_quality_assessments (metrics svc)))
    | Raise _ => (stock_data, svc)
    end
  else (stock_data, svc).

(** The cache-write step of [get_stock_data]. *)
Definition cache_result (clk : Clock) (symbol : string)
    (stock_data : StockData) (svc : DataService) : DataService :=
  match cache_service svc with
  | Some c =>
      let cache_ttl := _determine_cache_ttl stock_data in
      set_cache_service svc (Some (cache_set clk symbol stock_data cache_ttl c))
  | None => svc
  end.

(** The cache lookup that opens [get_stock_data]: the hit, if any, and the
    service with its counters updated. *)
Definition cache_lookup (clk : Clock) (symbol : string) (force_refresh : bool)
    (svc : DataService) : option StockData * DataService :=
  match cache_service svc with
  | Some c =>
      if negb force_refresh then
        match cache_get clk symbol c with
        | Some cached_data =>
            (Some cached_data, set_metrics svc (incr_cache_hits (metrics svc)))
        | None => (None, set_metrics svc (incr_cache_misses (metrics svc)))
        end
      else (None, svc)
  | None => (None, svc)
  end.

Definition get_stock_data (prov : Providers) (clk : Clock) (symbol : string)
    (force_refresh : bool) (preferred_source : option DataSource)
    (svc : DataService) : option StockData * DataService :=
  let symbol := upper symbol in
  let '(hit, svc) := cache_lookup clk symbol force_refresh svc in
  match hit with
  | Some cached_data => (Some cached_data, svc)
  | None =>
      let sources_to_try :=
        match preferred_source with
        | Some s => [s]
        | None => data_source_priority svc
        end in
      let '(found, svc) := try_sources prov clk symbol sources_to_try svc in
      match found with
      | None => (None, svc)
      | Some (stock_data, source) =>
          let '(stock_data, svc) := attach_quality clk stock_data source svc in
          let svc := cache_result clk symbol stock_data svc in
          (Some stock_data,
           set_metrics svc (incr_requests_made (metrics svc)))
      end
  end.

(** *** batch_get_stock_data *)

(** [asyncio.Semaphore(value)] refuses a negative value. *)
Definition Semaphore (value : Z) : result Z :=
  if value <? 0 then Raise ValueError else Ok value.

(** [asyncio.gather] with [return_exceptions=True], under the schedule in
    which the lookups run one after the other in the order of the list: each
    task takes a slot of the semaphore, runs [get_stock_data], gives the slot
    back and returns [(symbol, data)]. With no free slot and nobody to give
    one back the task, and with it the gather, never completes ([None]). *)
Fixpoint gather (prov : Providers) (clk : Clock) (semaphore : Z)
    (symbols : list string) (svc : DataService)
    : option (list (result (string * option StockData)) * DataService) :=
  match symbols with
  | [] => Some ([], svc)
  | symbol :: rest =>
      if 0 <? semaphore then
        let '(data, svc) := get_stock_data prov clk symbol false None svc in
        match gather prov clk semaphore rest svc with
        | Some (results, svc) => Some (Ok (symbol, data) :: results, svc)
        | None => None
        end
      else None
  end.

(** [for result in results: if isinstance(result, Exception): continue;
    symbol, data = result; stock_data_map[symbol] = data] *)
Definition process_results
    (results : list (result (string * option StockData)))
    : gmap string (option StockData) :=
  fold_left
    (λ stock_data_map r,
       match r with
       | Raise _ => stock_data_map
       | Ok (symbol, data) => <[ symbol := data ]> stock_data_map
       end)
    results ∅.

(** What a call to [batch_get_stock_data] comes to. *)
Inductive batch_outcome : Type :=
| Returns (stock_data_map : gmap string (option StockData))
| Never_returns.

Definition batch_get_stock_data (prov : Providers) (clk : Clock)
    (symbols : list string) (max_concurrent : Z) (svc : DataService)
    : batch_outcome * DataService :=
  match Semaphore max_concurrent with
  | Raise _ => (Returns ∅, svc)
  | Ok semaphore =>
      match gather prov clk semaphore symbols svc with
      | Some (results, svc) => (Returns (process_results results), svc)
      | None => (Never_returns, svc)
      end
  end.

End DataService.

(** ** services/cache_service.py *)

Module CacheService.

Local Open Scope Z_scope.

Definition bytes : Type := list byte.

(** The values the cache is given: what [json] can represent. A dict keeps
    its keys in insertion order; [JFloat m e] is the finite float
    [m * 2^e]. *)
#[warnings="-register-all"]
Inductive json : Type :=
| JNull
| JBool (b : bool)
| JInt (n : Z)
| JFloat (m e : Z)
| JStr (s : string)
| JList (l : list json)
| JDict (d : list (string * json)).

(** The keys of a dict are pairwise distinct. *)
Fixpoint distinct (keys : list string) : bool :=
  match keys with
  | [] => true
  | k :: rest => negb (existsb (String.eqb k) rest) && distinct rest
  end.

Fixpoint wf_json (v : json) : bool :=
  match v with
  | JList l => forallb wf_json l
  | JDict d => distinct (map fst d) && forallb (λ kv, wf_json (snd kv)) d
  | _ => true
  end.

(** The library functions [_serialize] and [_deserialize] call, with the
    part of their contracts the cache relies on: [json.dumps]/[json.loads],
    [str.encode]/[bytes.decode] (UTF-8), [zlib.compress]/[zlib.decompress]
    and [pickle.dumps]/[pickle.loads]. A JSON text starts with a brace, a
    bracket, a quote, a digit, a sign or a letter of [true], [false], [null],
    [NaN] or [Infinity], never with a capital C. *)
Class Libraries : Type := {
  json_dumps : json → result string;
  json_loads : string → result json;
  str_encode : string → bytes;
  bytes_decode : bytes → result string;
  zlib_compress : bytes → bytes;
  zlib_decompress : bytes → result bytes;
  pickle_dumps : json → bytes;
  pickle_loads : bytes → result json;
  json_dumps_total :
    ∀ v, wf_json v = true → ∃ s, json_dumps v = Ok s;
  json_loads_dumps :
    ∀ v s, wf_json v = true → json_dumps v = Ok s → json_loads s = Ok v;
  json_first_byte :
    ∀ v s, json_dumps v = Ok s → head (str_encode s) ≠ Some "C"%byte;
  decode_encode : ∀ s, bytes_decode (str_encode s) = Ok s;
  decompress_compress : ∀ b, zlib_decompress (zlib_compress b) = Ok b
}.

(** The configuration set by [__init__]. *)
Record Config : Type := {
  default_ttl : Z;
  compression_threshold : Z;
  max_retries : Z;
  key_prefixes : gmap string string
}.

Definition default_key_prefixes : gmap string string :=
  <[ "stock_data"%string := "stock:"%string ]>
  (<[ "company_info"%string := "company:"%string ]>
  (<[ "financial_statements"%string := "financials:"%string ]>
  (<[ "market_data"%string := "market:"%string ]>
  (<[ "search_results"%string := "search:"%string ]>
  (<[ "api_rate_limits"%string := "rate_limit:"%string ]>
  (<[ "data_quality"%string := "quality:"%string ]> ∅)))))).

Definition Config_init (default_ttl compression_threshold max_retries : Z)
    : Config :=
  {| default_ttl := default_ttl;
     compression_threshold := compression_threshold;
     max_retries := max_retries;
     key_prefixes := default_key_prefixes |}.

Definition default_config : Config := Config_init 900 1024 3.

(** *** _build_key *)

Definition _build_key (cfg : Config) (key data_type : string) : string :=
  let prefix := default "misc:"%string (key_prefixes cfg !! data_type) in
  (prefix ++ key)%string.

(** *** _serialize, _deserialize *)

(** [b'COMPRESSED:'] *)
Definition COMPRESSED : bytes := list_byte_of_string "COMPRESSED:".

(** [data.startswith(prefix)] *)
Fixpoint startswith (prefix data : bytes) : bool :=
  match prefix, data with
  | [], _ => true
  | p :: prefix, d :: data => Byte.eqb p d && startswith prefix data
  | _ :: _, [] => false
  end.

Section serialization.
Context `{L : Libraries}.

Definition _serialize (cfg : Config) (data : json) : bytes :=
  match s ← json_dumps data; mret (str_encode s) with
  | Ok json_data =>
      if compression_threshold cfg <? len json_data then
        let compressed_data := zlib_compress json_data in
        COMPRESSED ++ compressed_data
      else json_data
  | Raise _ => pickle_dumps data
  end.

Definition _deserialize (data : bytes) : result json :=
  if startswith COMPRESSED data then
    let compressed_data := skipn 11 data in
    json_data ← zlib_decompress compressed_data;
    s ← bytes_decode json_data;
    json_loads s
  else
    match s ← bytes_decode data; json_loads s with
    | Ok v => Ok v
    | Raise JSONDecodeError | Raise UnicodeDecodeError => pickle_loads data
    | Raise e => Raise e
    end.

End serialization.

End CacheService.

(** ** A small implementation of the library contracts

    A self-delimiting binary coding of [json] stands in for the JSON text,
    and a one-byte header for the zlib stream: enough to run [_serialize]
    and [_deserialize] on concrete values and to show that the contracts of
    [Libraries] can be met. *)

Module PlainLibraries.

Import CacheService.

(** A natural number in unary, closed by a dot. *)
Fixpoint enc_nat (n : nat) : bytes :=
  match n with
  | O => ["."%byte]
  | S n => "x"%byte :: enc_nat n
  end.

Fixpoint dec_nat (b : bytes) : option (nat * bytes) :=
  match b with
  | [] => None
  | c :: r =>
      if Byte.eqb c "."%byte then Some (O, r)
      else if Byte.eqb c "x"%byte then
        '(n, r') ← dec_nat r; Some (S n, r')
      else None
  end.

Definition enc_Z (z : Z) : bytes :=
  (if (z <? 0)%Z then "-"%byte else "+"%byte) :: enc_nat (Z.abs_nat z).

Definition dec_Z (b : bytes) : option (Z * bytes) :=
  match b with
  | [] => None
  | c :: r =>
      if Byte.eqb c "-"%byte then
        '(n, r') ← dec_nat r; Some ((- Z.of_nat n)%Z, r')
      else if Byte.eqb c "+"%byte then
        '(n, r') ← dec_nat r; Some (Z.of_nat n, r')
      else None
  end.

(** A string: its length, then its bytes. *)
Definition enc_str (s : string) : bytes :=
  enc_nat (length (list_byte_of_string s)) ++ list_byte_of_string s.

Definition dec_str (b : bytes) : option (string * bytes) :=
  '(n, r) ← dec_nat b;
  if (n <=? length r)%nat
  then Some (string_of_list_byte (firstn n r), skipn n r)
  else None.

Fixpoint enc (v : json) : bytes :=
  match v with
  | JNull => ["n"%byte]
  | JBool true => ["t"%byte]
  | JBool false => ["f"%byte]
  | JInt n => "i"%byte :: enc_Z n
  | JFloat m e => "d"%byte :: enc_Z m ++ enc_Z e
  | JStr s => "s"%byte :: enc_str s
  | JList l => "["%byte :: enc_nat (length l) ++ flat_map enc l
  | JDict d =>
      "{"%byte :: enc_nat (length d)
      ++ flat_map (λ kv, enc_str (fst kv) ++ enc (snd kv)) d
  end.

(** [n] items in a row. *)
Fixpoint dec_many {A} (p : bytes → option (A * bytes)) (n : nat) (b : bytes)
    : option (list A * bytes) :=
  match n with
  | O => Some ([], b)
  | S n =>
      '(x, r) ← p b;
      '(xs, r') ← dec_many p n r;
      Some (x :: xs, r')
  end.

Fixpoint dec (fuel : nat) (b : bytes) : option (json * bytes) :=
  match fuel with
  | O => None
  | S fuel =>
      match b with
      | [] => None
      | c :: r =>
          if Byte.eqb c "n"%byte then Some (JNull, r)
          else if Byte.eqb c "t"%byte then Some (JBool true, r)
          else if Byte.eqb c "f"%byte then Some (JBool false, r)
          else if Byte.eqb c "i"%byte then
            '(n, r') ← dec_Z r; Some (JInt n, r')
          else if Byte.eqb c "d"%byte then
            '(m, r') ← dec_Z r; '(e, r'') ← dec_Z r'; Some (JFloat m e, r'')
          else if Byte.eqb c "s"%byte then
            '(s, r') ← dec_str r; Some (JStr s, r')
          else if Byte.eqb c "["%byte then
            '(n, r') ← dec_nat r;
            '(l, r'') ← dec_many (dec fuel) n r';
            Some (JList l, r'')
          else if Byte.eqb c "{"%byte then
            '(n, r') ← dec_nat r;
            '(d, r'') ←
              dec_many
                (λ b, '(k, b') ← dec_str b;
                      '(v, b'') ← dec fuel b';
                      Some ((k, v), b''))
                n r';
            Some (JDict d, r'')
          else None
      end
  end.

Definition plain_dumps (v : json) : result string :=
  Ok (string_of_list_byte (enc v)).

Definition plain_loads (s : string) : result json :=
  match dec (S (length (list_byte_of_string s))) (list_byte_of_string s) with
  | Some (v, []) => Ok v
  | _ => Raise JSONDecodeError
  end.

Definition plain_decode (b : bytes) : result string :=
  Ok (string_of_list_byte b).

Definition plain_compress (b : bytes) : bytes := "Z"%byte :: b.

Definition plain_decompress (b : bytes) : result bytes :=
  match b with
  | c :: r => if Byte.eqb c "Z"%byte then Ok r else Raise ZlibError
  | [] => Raise ZlibError
  end.

Definition plain_pickle_dumps (v : json) : bytes := "P"%byte :: enc v.

Definition plain_pickle_loads (b : bytes) : result json :=
  match b with
  | c :: r =>
      if Byte.eqb c "P"%byte then
        match dec (S (length r)) r with
        | Some (v, []) => Ok v
        | _ => Raise UnpicklingError
        end
      else Raise UnpicklingError
  | [] => Raise UnpicklingError
  end.

(** A small payload and one of more than 1024 bytes. *)
Definition small_payload : json :=
  JDict [("test"%string, JStr "data"); ("n"%string, JInt 7)].

Definition large_payload : json :=
  JDict [("data"%string,
          JStr (string_of_list_byte (repeat "x"%byte 2000)))].

End PlainLibraries.

(** ** Records used as concrete inputs *)

Module Fixtures.

Local Open Scope Z_scope.

(** A price point with a close and a volume only. *)
Definition price_on (sym : string) (d : date) (close : Decimal) : StockPrice :=
  {| sp_symbol := sym; sp_date := d; open_price := None; high_price := None;
     low_price := None; close_price := close; adjusted_close := None;
     volume := Some 50000000 |}.

(** A statement with an empty income statement, ending on [d]. *)
Definition statement_on (sym : string) (d : date) : FinancialStatement :=
  {| fs_symbol := sym; period_ending := d; period_type := "Quarterly";
     income_statement :=
       Some {| is_symbol := sym; is_period_ending := d;
               is_period_type := "Quarterly"; revenue := None;
               cost_of_revenue := None; gross_profit := None;
               operating_expenses := None; operating_income := None;
               interest_expense := None; pretax_income := None;
               income_tax := None; net_income := None; eps_basic := None;
               eps_diluted := None; shares_outstanding := None |};
     balance_sheet := None; cash_flow_statement := None;
     fs_data_source := YAHOO_FINANCE;
     fs_last_updated := {| micros := 0; aware := false |} |}.

(** The record a provider returns when it knows nothing but the symbol. *)
Definition empty_record (sym : string) : StockData :=
  {| symbol := sym; company_info := None; current_price := None;
     historical_prices := []; financial_statements := [];
     data_quality := None;
     last_updated := {| micros := 0; aware := false |} |}.

Definition with_history (sd : StockData) (hp : list StockPrice) : StockData :=
  {| symbol := symbol sd; company_info := company_info sd;
     current_price := current_price sd; historical_prices := hp;
     financial_statements := financial_statements sd;
     data_quality := data_quality sd; last_updated := last_updated sd |}.

Definition with_statements (sd : StockData) (fs : list FinancialStatement)
    : StockData :=
  {| symbol := symbol sd; company_info := company_info sd;
     current_price := current_price sd;
     historical_prices := historical_prices sd;
     financial_statements := fs;
     data_quality := data_quality sd; last_updated := last_updated sd |}.

(** Sixty consecutive days of valid prices, the most recent first. *)
Definition sixty_days : StockData :=
  with_history (empty_record "AAPL")
    (map (λ i, price_on "AAPL" (739000 - Z.of_nat i) 150%Q) (seq 0 60)).

(** Two statements half a year apart. *)
Definition two_half_years : StockData :=
  with_statements (empty_record "AAPL")
    [statement_on "AAPL" 739000; statement_on "AAPL" 739180].

Definition noon : Clock := {| now_micros := 63849600000000000; today := 739000 |}.

End Fixtures.


(** ** Services used as concrete inputs *)

Module ServiceFixtures.

Import DataService Fixtures.
Local Open Scope Z_scope.

(** A report with the given overall score. *)
Definition report_scoring (q : Decimal) : DataQualityMetrics :=
  {| dq_symbol := "AAPL"; dq_data_source := YAHOO_FINANCE;
     dq_data_type := STOCK_PRICE; quality_score := q;
     completeness_score := q; freshness_score := q; accuracy_score := q;
     last_assessed := now noon; issues := [] |}.

(** The service as [__init__] leaves it at [noon], without a cache. *)
Definition fresh_service : DataService := DataService_init noon false true.

(** The same service with its cache. *)
Definition caching_service : DataService := DataService_init noon true true.

(** Two hours later. *)
Definition two_hours_later : Clock :=
  {| now_micros := now_micros noon + timedelta_hours 2; today := today noon |}.

(** The budget of a source replaced by one that has [made] requests. *)
Definition with_requests_made (source : DataSource) (made : Z)
    (svc : DataService) : DataService :=
  match rate_limits svc !! source with
  | Some rl =>
      set_rate_limits svc
        (<[ source := {| api_name := api_name rl; endpoint := endpoint rl;
                         requests_made := made;
                         requests_limit := requests_limit rl;
                         reset_time := reset_time rl |} ]> (rate_limits svc))
  | None => svc
  end.

(** The budget of a source given a reset time that carries a time zone. *)
Definition with_aware_reset_time (source : DataSource) (svc : DataService)
    : DataService :=
  match rate_limits svc !! source with
  | Some rl =>
      set_rate_limits svc
        (<[ source := {| api_name := api_name rl; endpoint := endpoint rl;
                         requests_made := requests_made rl;
                         requests_limit := requests_limit rl;
                         reset_time := {| micros := micros (reset_time rl);
                                          aware := true |} |} ]>
           (rate_limits svc))
  | None => svc
  end.

(** Providers: Yahoo knows no symbol, Alpha Vantage answers with the empty
    record of the symbol. *)
Definition alpha_only : Providers :=
  {| yahoo_get_stock_data := λ _, Ok None;
     alpha_get_comprehensive_data := λ sym, Ok (Some (empty_record sym)) |}.

(** Providers that know only AAPL and MSFT (Yahoo), and nothing (Alpha
    Vantage, which raises). *)
Definition yahoo_two_symbols : Providers :=
  {| yahoo_get_stock_data := λ sym,
       if String.eqb sym "AAPL" || String.eqb sym "MSFT"
       then Ok (Some (empty_record sym)) else Ok None;
     alpha_get_comprehensive_data := λ _, Raise ConnectionError |}.

End ServiceFixtures.

(** ** The orchestrator's rules in the words of the specification *)

Module OrchestratorSpec.

Import DataService.

(** What the provider behind a source answers for a symbol: a record,
    nothing, or an exception. A source that is neither provider has nobody
    to ask and yields nothing. *)
Definition adapter (prov : Providers) (source : DataSource) (symbol : string)
    : result (option StockData) :=
  match source with
  | YAHOO_FINANCE => yahoo_get_stock_data prov symbol
  | ALPHA_VANTAGE => alpha_get_comprehensive_data prov symbol
  | MANUAL => Ok None
  end.

(** The service after a source was asked: its budget has one request
    more. *)
Definition asked (source : DataSource) (svc : DataService) : DataService :=
  match source with
  | MANUAL => svc
  | _ => _update_rate_limit source svc
  end.

(** The fallback rule: the candidates are consulted in order; a candidate
    whose rate-limit check denies is skipped without being asked, one whose
    provider gives no data or raises is passed over, and the first one whose
    provider gives a record ends the search with that record and its
    source. *)
Inductive consults (prov : Providers) (clk : Clock) (symbol : string)
    : list DataSource → DataService → option (StockData * DataSource)
      → DataService → Prop :=
| consults_exhausted svc :
    consults prov clk symbol [] svc None svc
| consults_denied source rest svc svc1 found svc' :
    _check_rate_limit clk source svc = (false, svc1) →
    consults prov clk symbol rest svc1 found svc' →
    consults prov clk symbol (source :: rest) svc found svc'
| consults_no_data source rest svc svc1 found svc' :
    _check_rate_limit clk source svc = (true, svc1) →
    adapter prov source symbol = Ok None →
    consults prov clk symbol rest (asked source svc1) found svc' →
    consults prov clk symbol (source :: rest) svc found svc'
| consults_raised source rest svc svc1 e found svc' :
    _check_rate_limit clk source svc = (true, svc1) →
    adapter prov source symbol = Raise e →
    consults prov clk symbol rest (asked source svc1) found svc' →
    consults prov clk symbol (source :: rest) svc found svc'
| consults_data source rest svc svc1 stock_data :
    _check_rate_limit clk source svc = (true, svc1) →
    adapter prov source symbol = Ok (Some stock_data) →
    consults prov clk symbol (source :: rest) svc
      (Some (stock_data, source)) (asked source svc1).

(** The record a lookup returns for a fetched record: the record itself, or
    the record with the report of its assessment attached. *)
Definition record_of (clk : Clock) (stock_data : StockData)
    (source : DataSource) (returned : StockData) : Prop :=
  returned = stock_data ∨
  ∃ q, DataQualityService.assess_stock_data_quality clk stock_data source
       = Ok q
       ∧ returned = set_data_quality stock_data q.

(** The results of a batch that come from the tasks of one symbol. *)
Definition tasks_for (s : string)
    (results : list (result (string * option StockData)))
    : list (result (string * option StockData)) :=
  List.filter
    (λ r, match r with Ok (s', _) => String.eqb s' s | Raise _ => false end)
    results.

(** The entry a list of results gives a symbol: the data of the last task
    of that symbol that returned. *)
Definition entry_of (s : string)
    (results : list (result (string * option StockData)))
    : option (option StockData) :=
  match last (tasks_for s results) with
  | Some (Ok (_, data)) => Some data
  | _ => None
  end.

(** The results of tasks that all returned. *)
Definition returned (symbols : list string) (datas : list (option StockData))
    : list (result (string * option StockData)) :=
  zip_with (λ s d, Ok (s, d)) symbols datas.



End OrchestratorSpec.

(** ** services/data_quality_service.py: reporting *)

Module DataQualityReporting.

Import DataQualityService.
Local Open Scope Z_scope.

(** *** _generate_recommendations *)

Definition _generate_recommendations (quality_metrics : DataQualityMetrics)
    : list string :=
  let recommendations := [] in
  let recommendations :=
    if Qltb (completeness_score quality_metrics) 80
    then recommendations
         ++ ["Improve data completeness by fetching missing fields"%string]
    else recommendations in
  let recommendations :=
    if Qltb (freshness_score quality_metrics) 70
    then recommendations
         ++ ["Update data more frequently to improve freshness"%string]
    else recommendations in
  let recommendations :=
    if Qltb (accuracy_score quality_metrics) 80
    then recommendations
         ++ ["Implement additional data validation checks"%string]
    else recommendations in
  let recommendations :=
    if 5 <? len (issues quality_metrics)
    then recommendations
         ++ ["Address data quality issues systematically"%string]
    else recommendations in
  if Qltb (quality_score quality_metrics) 60
  then recommendations ++ ["Consider using alternative data sources"%string]
  else recommendations.

(** *** _get_quality_level *)

Definition _get_quality_level (score : Q) : string :=
  if Qgeb score 90 then "Excellent - Data is highly reliable and complete"
  else if Qgeb score 75 then "Good - Data is reliable with minor issues"
  else if Qgeb score 60 then
    "Fair - Data is usable but has some quality concerns"
  else if Qgeb score 40 then "Poor - Data has significant quality issues"
  else "Very Poor - Data quality is unacceptable for analysis".

(** *** generate_quality_report *)

(** The dictionary the method returns, one field per key; the error
    dictionary of the [except] branch has no counterpart, since nothing in
    the body raises on a [DataQualityMetrics]. *)
Record QualityReport : Type := {
  qr_symbol : string;
  qr_data_source : DataSource;
  overall_score : Q;
  overall_grade : string;
  scores_completeness : Q;
  scores_freshness : Q;
  scores_accuracy : Q;
  assessment_date : datetime;
  issues_count : Z;
  qr_issues : list Issue;
  recommendations : list string;
  quality_level : string
}.

Definition generate_quality_report (quality_metrics : DataQualityMetrics)
    : QualityReport :=
  let grade := get_quality_grade (quality_score quality_metrics) in
  {| qr_symbol := dq_symbol quality_metrics;
     qr_data_source := dq_data_source quality_metrics;
     overall_score := quality_score quality_metrics;
     overall_grade := grade;
     scores_completeness := completeness_score quality_metrics;
     scores_freshness := freshness_score quality_metrics;
     scores_accuracy := accuracy_score quality_metrics;
     assessment_date := last_assessed quality_metrics;
     issues_count := len (issues quality_metrics);
     qr_issues := issues quality_metrics;
     recommendations := _generate_recommendations quality_metrics;
     quality_level := _get_quality_level (quality_score quality_metrics) |}.

End DataQualityReporting.

(** ** services/data_service.py: get_service_health *)

Module ServiceHealth.

Import DataService.
Local Open Scope Z_scope.

(** What the three health checks answer: [True], [False] or an
    exception. *)
Record Probes : Type := {
  yahoo_health_check : result bool;
  alpha_health_check : result bool;
  cache_health_check : result bool
}.

(** One entry of [health_status['services']]: its status, the consumption
    of the budget when it is reported, and whether the entry is the one of
    the [except] branch (with an ['error'] key). *)
Record ServiceEntry : Type := {
  status : string;
  reported_requests_made : option Z;
  reported_requests_remaining : option Z;
  has_error : bool
}.

Definition error_entry : ServiceEntry :=
  {| status := "error"; reported_requests_made := None;
     reported_requests_remaining := None; has_error := true |}.

(** The block of one provider: the health check, then the entry, whose
    construction reads [self.rate_limits[source]] and so raises [KeyError]
    when the source has no budget. *)
Definition provider_entry (probe : result bool)
    (budget : option APIRateLimit) : ServiceEntry :=
  match probe with
  | Ok healthy =>
      match budget with
      | Some rl =>
          {| status := if healthy then "healthy" else "unhealthy";
             reported_requests_made := Some (requests_made rl);
             reported_requests_remaining := Some (requests_remaining rl);
             has_error := false |}
      | None => error_entry
      end
  | Raise _ => error_entry
  end.

Definition cache_entry (probe : result bool) : ServiceEntry :=
  match probe with
  | Ok healthy =>
      {| status := if healthy then "healthy" else "unhealthy";
         reported_requests_made := None;
         reported_requests_remaining := None; has_error := false |}
  | Raise _ => error_entry
  end.

Record HealthStatus : Type := {
  overall_status : string;
  services : list (string * ServiceEntry);
  reported_metrics : Metrics
}.

(** ['x' in service_statuses] *)
Definition status_in (x : string) (statuses : list string) : bool :=
  existsb (String.eqb x) statuses.

Definition get_service_health (probes : Probes) (svc : DataService)
    : HealthStatus :=
  let services :=
    [("yahoo_finance"%string,
      provider_entry (yahoo_health_check probes)
        (rate_limits svc !! YAHOO_FINANCE));
     ("alpha_vantage"%string,
      provider_entry (alpha_health_check probes)
        (rate_limits svc !! ALPHA_VANTAGE))]
    ++ match cache_service svc with
       | Some _ => [("cache"%string, cache_entry (cache_health_check probes))]
       | None => []
       end in
  let service_statuses := map (λ kv, status (snd kv)) services in
  let overall_status :=
    if status_in "error" service_statuses then "degraded"%string
    else if status_in "unhealthy" service_statuses then "degraded"%string
    else "healthy"%string in
  {| overall_status := overall_status; services := services;
     reported_metrics := metrics svc |}.

End ServiceHealth.

(** ** services/cache_service.py: the operations on the store *)

Module CacheOps.

Import CacheService.
Local Open Scope Z_scope.

(** [self.stats] *)
Record Stats : Type := {
  hits : Z;
  misses : Z;
  sets : Z;
  deletes : Z;
  errors : Z
}.

Definition incr_hits (s : Stats) : Stats :=
  {| hits := hits s + 1; misses := misses s; sets := sets s;
     deletes := deletes s; errors := errors s |}.
Definition incr_misses (s : Stats) : Stats :=
  {| hits := hits s; misses := misses s + 1; sets := sets s;
     deletes := deletes s; errors := errors s |}.
Definition incr_sets (s : Stats) : Stats :=
  {| hits := hits s; misses := misses s; sets := sets s + 1;
     deletes := deletes s; errors := errors s |}.
Definition incr_deletes (s : Stats) : Stats :=
  {| hits := hits s; misses := misses s; sets := sets s;
     deletes := deletes s + 1; errors := errors s |}.
Definition incr_errors (s : Stats) : Stats :=
  {| hits := hits s; misses := misses s; sets := sets s;
     deletes := deletes s; errors := errors s + 1 |}.

(** The service: its configuration, whether [self.redis_client] is set,
    and its counters. *)
Record Service : Type := {
  config : Config;
  redis_client : bool;
  stats : Stats
}.

Definition with_stats (svc : Service) (s : Stats) : Service :=
  {| config := config svc; redis_client := redis_client svc; stats := s |}.

Definition with_client (svc : Service) : Service :=
  {| config := config svc; redis_client := true; stats := stats svc |}.

(** [__init__] *)
Definition Service_init (default_ttl compression_threshold max_retries : Z)
    : Service :=
  {| config := Config_init default_ttl compression_threshold max_retries;
     redis_client := false;
     stats := {| hits := 0; misses := 0; sets := 0; deletes := 0;
                 errors := 0 |} |}.

(** The store behind the client: each key holds a value and the second at
    which it expires, and every exchange with the store either goes through
    or ends in [redis.ConnectionError]. [link] lists the fate of the
    exchanges to come ([false] for a connection error); once it is used up
    every exchange goes through. *)
Record Store : Type := {
  db : gmap string (bytes * Z);
  link : list bool
}.

Definition exchange (w : Store) : bool * Store :=
  match link w with
  | [] => (true, w)
  | ok :: rest => (ok, {| db := db w; link := rest |})
  end.

(** [GET key] at second [t]: an expired key is gone. *)
Definition redis_get (t : Z) (key : string) (w : Store) : option bytes :=
  match db w !! key with
  | Some (v, expires) => if t <? expires then Some v else None
  | None => None
  end.

(** [SETEX key ttl value] at second [t]; the store refuses a time to live
    that is not positive ([redis.ResponseError], written [RuntimeError]
    here). *)
Definition redis_setex (t : Z) (key : string) (ttl : Z) (v : bytes)
    (w : Store) : result Store :=
  if ttl <=? 0 then Raise RuntimeError
  else Ok {| db := <[ key := (v, t + ttl) ]> (db w); link := link w |}.

(** [connect]: builds the client and pings the store; a failed ping is
    re-raised. *)
Definition connect (svc : Service) (w : Store)
    : result unit * Service * Store :=
  let svc := with_client svc in
  let '(ok, w) := exchange w in
  if ok then (Ok tt, svc, w) else (Raise ConnectionError, svc, w).

(** [if not self.redis_client: await self.connect()] *)
Definition ensure_connected (svc : Service) (w : Store)
    : result unit * Service * Store :=
  if redis_client svc then (Ok tt, svc, w) else connect svc w.

Section operations.
Context `{L : Libraries}.

(** The retry loop of [get] at second [t], with [remaining] attempts to go,
    the current one being number [attempt]. It ends with the returned value,
    or with the exception that leaves the loop. Time passes only in
    [asyncio.sleep]. *)
Fixpoint get_attempts (remaining attempt : nat) (t : Z) (full_key : string)
    (svc : Service) (w : Store)
    : result (option json) * Service * Store :=
  match remaining with
  | O => (Ok None, svc, w)
  | S later =>
      let '(ok, w) := exchange w in
      if ok then
        match redis_get t full_key w with
        | None => (Ok None, with_stats svc (incr_misses (stats svc)), w)
        | Some cached_data =>
            match _deserialize cached_data with
            | Ok data =>
                (Ok (Some data), with_stats svc (incr_hits (stats svc)), w)
            | Raise e => (Raise e, svc, w)
            end
        end
      else
        match later with
        | O => (Raise ConnectionError, svc, w)
        | S _ =>
            let t := t + 2 ^ Z.of_nat attempt in
            let '(r, svc, w) := connect svc w in
            match r with
            | Ok _ => get_attempts later (S attempt) t full_key svc w
            | Raise e => (Raise e, svc, w)
            end
        end
  end.

(** [get]: the cached value, or [None] when the key is absent or expired
    and when anything went wrong. *)
Definition get (t : Z) (key data_type : string) (svc : Service) (w : Store)
    : option json * Service * Store :=
  let '(r, svc, w) :=
    let '(c, svc, w) := ensure_connected svc w in
    match c with
    | Raise e => (Raise e, svc, w)
    | Ok _ =>
        let full_key := _build_key (config svc) key data_type in
        get_attempts (Z.to_nat (max_retries (config svc))) 0 t full_key svc w
    end in
  match r with
  | Ok data => (data, svc, w)
  | Raise _ => (None, with_stats svc (incr_errors (stats svc)), w)
  end.

(** The retry loop of [set]; [None] is the implicit return of a loop
    that made no attempt. *)
Fixpoint set_attempts (remaining attempt : nat) (t : Z) (full_key : string)
    (ttl : Z) (serialized_data : bytes) (svc : Service) (w : Store)
    : result (option bool) * Service * Store :=
  match remaining with
  | O => (Ok None, svc, w)
  | S later =>
      let '(ok, w) := exchange w in
      if ok then
        match redis_setex t full_key ttl serialized_data w with
        | Ok w => (Ok (Some true), with_stats svc (incr_sets (stats svc)), w)
        | Raise e => (Raise e, svc, w)
        end
      else
        match later with
        | O => (Raise ConnectionError, svc, w)
        | S _ =>
            let t := t + 2 ^ Z.of_nat attempt in
            let '(r, svc, w) := connect svc w in
            match r with
            | Ok _ =>
                set_attempts later (S attempt) t full_key ttl serialized_data
                  svc w
            | Raise e => (Raise e, svc, w)
            end
        end
  end.

(** [set]: [ttl] is the argument of the call, [None] when it is left
    out. *)
Definition set (t : Z) (key : string) (data : json) (ttl : option Z)
    (data_type : string) (svc : Service) (w : Store)
    : option bool * Service * Store :=
  let '(r, svc, w) :=
    let '(c, svc, w) := ensure_connected svc w in
    match c with
    | Raise e => (Raise e, svc, w)
    | Ok _ =>
        let full_key := _build_key (config svc) key data_type in
        let ttl :=
          match ttl with
          | Some n => if n =? 0 then default_ttl (config svc) else n
          | None => default_ttl (config svc)
          end in
        let serialized_data := _serialize (config svc) data in
        set_attempts (Z.to_nat (max_retries (config svc))) 0 t full_key ttl
          serialized_data svc w
    end in
  match r with
  | Ok b => (b, svc, w)
  | Raise _ => (Some false, with_stats svc (incr_errors (stats svc)), w)
  end.

End operations.

(** The hit rate reported by [get_cache_stats]. *)
Definition hit_rate_percent (s : Stats) : Q :=
  let total_requests := hits s + misses s in
  let hit_rate :=
    if 0 <? total_requests
    then (inject_Z (hits s) / inject_Z total_requests * 100)%Q else 0%Q in
  round2 hit_rate.

End CacheOps.

(** ** services/alpha_vantage_client.py: the request loop and its limiter *)

Module AlphaVantageClient.

Import Py.
Local Open Scope Z_scope.

(** The client: [request_timestamps] holds the instants, in microseconds,
    at which a response came back. All of them are readings of
    [datetime.now()] without a time zone. *)
Record Client : Type := {
  max_retries : Z;
  requests_per_minute : Z;
  requests_per_day : Z;
  request_timestamps : list Z
}.

(** [__init__] *)
Definition Client_init (max_retries : Z) : Client :=
  {| max_retries := max_retries;
     requests_per_minute := 5;
     requests_per_day := 500;
     request_timestamps := [] |}.

Definition set_request_timestamps (c : Client) (l : list Z) : Client :=
  {| max_retries := max_retries c;
     requests_per_minute := requests_per_minute c;
     requests_per_day := requests_per_day c;
     request_timestamps := l |}.

Definition seconds (s : Z) : Z := s * 1000000.

(** [_check_rate_limits] at the instant [now]. *)
Definition _check_rate_limits (now : Z) (c : Client) : bool * Client :=
  let c :=
    set_request_timestamps c
      (filter (λ ts, now - ts < seconds 86400) (request_timestamps c)) in
  let daily_requests := len (request_timestamps c) in
  if requests_per_day c <=? daily_requests then (false, c)
  else
    let minute_ago := now - seconds 60 in
    let recent_requests :=
      filter (λ ts, minute_ago < ts) (request_timestamps c) in
    if requests_per_minute c <=? len recent_requests then (false, c)
    else (true, c).

(** What one HTTP exchange comes to: [session.get] raises, or
    [raise_for_status] does, or the body cannot be read as the dictionary
    the client expects, or it can, and then it may hold an error message or
    a note beside the data. *)
Inductive Response : Type :=
  | Transport_error
  | Status_error
  | Unreadable
  | Answer (error_message note : bool) (data : CacheService.json).

(** The outside of the client: the clock and the answers the server will
    give to the requests to come (a transport error once the list is used
    up). Time passes only while the client sleeps. *)
Record World : Type := {
  now : Z;
  http : list Response
}.

Definition sleep (s : Z) (w : World) : World :=
  {| now := now w + seconds s; http := http w |}.

Definition session_get (w : World) : Response * World :=
  match http w with
  | [] => (Transport_error, w)
  | r :: rest => (r, {| now := now w; http := rest |})
  end.

Definition stamp (c : Client) (w : World) : Client :=
  set_request_timestamps c (request_timestamps c ++ [now w]).

(** The sleep of the two [except] branches: [2 ** attempt] seconds unless
    this was the last attempt. *)
Definition back_off (later attempt : nat) (w : World) : World :=
  match later with
  | O => w
  | S _ => sleep (2 ^ Z.of_nat attempt) w
  end.

(** The loop of [_make_request] with [remaining] attempts to go, the
    current one being number [attempt]. *)
Fixpoint request_attempts (remaining attempt : nat) (c : Client) (w : World)
    : option CacheService.json * Client * World :=
  match remaining with
  | O => (None, c, w)
  | S later =>
      let '(r, w) := session_get w in
      match r with
      | Transport_error | Status_error =>
          request_attempts later (S attempt) c (back_off later attempt w)
      | Unreadable =>
          let c := stamp c w in
          request_attempts later (S attempt) c (back_off later attempt w)
      | Answer error_message note data =>
          let c := stamp c w in
          if error_message then (None, c, w)
          else if note then request_attempts later (S attempt) c (sleep 60 w)
          else (Some data, c, w)
      end
  end.

(** [_make_request] *)
Definition _make_request (c : Client) (w : World)
    : option CacheService.json * Client * World :=
  let '(allowed, c) := _check_rate_limits (now w) c in
  let w := if negb allowed then sleep 60 w else w in
  request_attempts (Z.to_nat (max_retries c)) 0 c w.

End AlphaVantageClient.

(** ** The cash flow statements of the two providers *)

Module CashFlow.

Import Py Models.
Local Open Scope Q_scope.

(** The figures of one report after [_safe_decimal]. *)
Record Figures : Type := {
  operating_cf : option Decimal;
  investing_cf : option Decimal;
  financing_cf : option Decimal;
  capex : option Decimal;
  depreciation_and_amortization : option Decimal
}.

Definition net_cf (f : Figures) : option Decimal :=
  match operating_cf f, investing_cf f, financing_cf f with
  | Some o, Some i, Some fi => Some (o + i + fi)
  | _, _, _ => None
  end.

(** alpha_vantage_client.py, [get_cash_flow]: the statement built from one
    annual report. *)
Definition alpha_vantage_statement (symbol : string) (fiscal_date : date)
    (f : Figures) : CashFlowStatement :=
  let free_cf :=
    match operating_cf f, capex f with
    | Some o, Some c => Some (o - Qabs c)
    | _, _ => None
    end in
  {| cf_symbol := upper symbol;
     cf_period_ending := fiscal_date;
     cf_period_type := "Annual";
     operating_cash_flow := operating_cf f;
     investing_cash_flow := investing_cf f;
     financing_cash_flow := financing_cf f;
     net_cash_flow := net_cf f;
     free_cash_flow := free_cf;
     capital_expenditures := capex f;
     depreciation := depreciation_and_amortization f |}.

(** The validator of [period_type]. *)
Definition validate_period_type (v : string) : result string :=
  if bool_decide (v ∈ ["Annual"; "Quarterly"]%string) then Ok v
  else Raise ValueError.

(** yahoo_finance_client.py, [_create_cashflow_statement]. [column] holds
    the figures of the period when the period is a column of the frame. *)
Definition _create_cashflow_statement (column : option Figures)
    (symbol : string) (period_date : date) (period_type : string)
    : option CashFlowStatement :=
  match column with
  | None => None
  | Some f =>
      let free_cf :=
        match operating_cf f, capex f with
        | Some o, Some c => Some (o + c)
        | _, _ => None
        end in
      match validate_period_type period_type with
      | Ok period_type =>
          Some {| cf_symbol := upper symbol;
                  cf_period_ending := period_date;
                  cf_period_type := period_type;
                  operating_cash_flow := operating_cf f;
                  investing_cash_flow := investing_cf f;
                  financing_cash_flow := financing_cf f;
                  net_cash_flow := net_cf f;
                  free_cash_flow := free_cf;
                  capital_expenditures := capex f;
                  depreciation := depreciation_and_amortization f |}
      | Raise _ => None
      end
  end.

End CashFlow.

(** ** services/data_service.py: merging the search results *)

Module SymbolSearch.

(** A result is a dictionary from strings to strings. *)
Definition Result : Type := gmap string string.

(** [d.get(key, '')] *)
Definition get (d : Result) (key : string) : string :=
  default EmptyString (d !! key).

(** yahoo_finance_client.py, [search_symbols]: the one result it builds. *)
Definition yahoo_result (symbol name sector industry : string) : Result :=
  <[ "symbol"%string := symbol ]>
    (<[ "name"%string := name ]>
       (<[ "sector"%string := sector ]>
          (<[ "industry"%string := industry ]> ∅))).

(** alpha_vantage_client.py, [search_symbols]: the result built from one
    match. *)
Definition alpha_vantage_result (m : Result) : Result :=
  <[ "symbol"%string := get m "1. symbol" ]>
    (<[ "name"%string := get m "2. name" ]>
       (<[ "type"%string := get m "3. type" ]>
          (<[ "region"%string := get m "4. region" ]>
             (<[ "market_open"%string := get m "5. marketOpen" ]>
                (<[ "market_close"%string := get m "6. marketClose" ]>
                   (<[ "timezone"%string := get m "7. timezone" ]>
                      (<[ "currency"%string := get m "8. currency" ]>
                         (<[ "match_score"%string := get m "9. matchScore" ]>
                            ∅)))))))).

(** The dictionary [search_symbols] of the service appends for a result of
    Alpha Vantage. *)
Definition standard_format (result : Result) : Result :=
  <[ "symbol"%string := get result "symbol" ]>
    (<[ "name"%string := get result "name" ]>
       (<[ "type"%string := get result "type" ]>
          (<[ "region"%string := get result "region" ]> ∅))).

(** [result not in results] *)
Definition not_in (result : Result) (results : list Result) : bool :=
  bool_decide (result ∉ results).

(** The loop over [av_results]. *)
Fixpoint extend_with (av_results results : list Result) : list Result :=
  match av_results with
  | [] => results
  | result :: rest =>
      if not_in result results
      then extend_with rest (results ++ [standard_format result])
      else extend_with rest results
  end.

End SymbolSearch.

(** * Verification *)

(** ** Arithmetic of scores *)

Module ScoreFacts.

Local Open Scope Q_scope.

Lemma Qleb_le (x y : Q) : Qleb x y = true ↔ x <= y.
Proof. apply Qle_bool_iff. Qed.

Lemma Qleb_gt (x y : Q) : Qleb x y = false ↔ y < x.
Proof.
  unfold Qleb. split; intros H.
  - apply Qnot_le_lt. intros Hle. apply Qle_bool_iff in Hle. congruence.
  - destruct (Qle_bool x y) eqn:E; [|reflexivity].
    apply Qle_bool_iff in E. exfalso. eapply Qlt_not_le; eauto.
Qed.

Lemma Qgeb_ge (x y : Q) : Qgeb x y = true ↔ y <= x.
Proof. apply Qleb_le. Qed.

Lemma Qgeb_lt (x y : Q) : Qgeb x y = false ↔ x < y.
Proof. apply Qleb_gt. Qed.

Lemma Qltb_lt (x y : Q) : Qltb x y = true ↔ x < y.
Proof.
  unfold Qltb. rewrite negb_true_iff. apply Qleb_gt.
Qed.

Lemma Qltb_ge (x y : Q) : Qltb x y = false ↔ y <= x.
Proof.
  unfold Qltb. rewrite negb_false_iff. apply Qleb_le.
Qed.

Lemma Qgtb_gt (x y : Q) : Qgtb x y = true ↔ y < x.
Proof.
  unfold Qgtb. rewrite negb_true_iff. apply Qleb_gt.
Qed.

Lemma Qgtb_le (x y : Q) : Qgtb x y = false ↔ x <= y.
Proof.
  unfold Qgtb. rewrite negb_false_iff. apply Qleb_le.
Qed.

(** A score is a rational between 0 and 100. *)
Definition in_range (q : Q) : Prop := 0 <= q ∧ q <= 100.

Lemma in_range_Z (z : Z) : (0 ≤ z ≤ 100)%Z → in_range (inject_Z z).
Proof.
  intros [H0 H1]. split.
  - change 0 with (inject_Z 0). rewrite <- Zle_Qle. exact H0.
  - change 100 with (inject_Z 100). rewrite <- Zle_Qle. exact H1.
Qed.

Lemma ratio_percent_in_range (c t : Z) :
  (0 ≤ c ≤ t)%Z → (0 < t)%Z → in_range (inject_Z c / inject_Z t * 100).
Proof.
  intros [Hc Hct] Ht.
  assert (Ht' : 0 < inject_Z t).
  { change 0 with (inject_Z 0). rewrite <- Zlt_Qlt. exact Ht. }
  assert (Hc' : 0 <= inject_Z c).
  { change 0 with (inject_Z 0). rewrite <- Zle_Qle. exact Hc. }
  assert (Hct' : inject_Z c <= inject_Z t) by (rewrite <- Zle_Qle; exact Hct).
  assert (H1 : 0 <= inject_Z c / inject_Z t).
  { apply Qle_shift_div_l; [exact Ht'|]. lra. }
  assert (H2 : inject_Z c / inject_Z t <= 1).
  { apply Qle_shift_div_r; [exact Ht'|]. lra. }
  split; lra.
Qed.

Lemma Qsum_bounds (l : list Q) :
  Forall in_range l → 0 <= Qsum l ∧ Qsum l <= 100 * inject_Z (len l).
Proof.
  induction 1 as [|x l [Hx0 Hx1] _ [IH0 IH1]].
  - change (inject_Z (len (@nil Q))) with 0. cbn. lra.
  - unfold len in *. cbn [Qsum fold_right length].
    fold (Qsum l). rewrite Nat2Z.inj_succ, <- Z.add_1_r, inject_Z_plus.
    change (inject_Z 1) with 1. split; lra.
Qed.

Lemma mean_in_range (l : list Q) :
  l ≠ [] → Forall in_range l → in_range (mean l).
Proof.
  intros Hne Hl. destruct (Qsum_bounds l Hl) as [H0 H1].
  assert (Hn : 0 < inject_Z (len l)).
  { change 0 with (inject_Z 0). rewrite <- Zlt_Qlt. unfold len.
    destruct l; [congruence|]. cbn [length]. lia. }
  unfold mean. split.
  - apply Qle_shift_div_l; [exact Hn|]. lra.
  - apply Qle_shift_div_r; [exact Hn|]. lra.
Qed.

Lemma round_half_even_bounds (q : Q) (n : Z) :
  0 <= q → q <= inject_Z n →
  (0 ≤ round_half_even q ≤ n)%Z.
Proof.
  intros H0 Hn.
  assert (Hf0 : (0 ≤ Qfloor q)%Z).
  { change 0%Z with (Qfloor 0). apply Qfloor_resp_le. exact H0. }
  assert (Hfn : (Qfloor q ≤ n)%Z).
  { rewrite <- (Qfloor_Z n). apply Qfloor_resp_le. exact Hn. }
  assert (Hfl : inject_Z (Qfloor q) <= q) by apply Qfloor_le.
  unfold round_half_even.
  destruct (Qltb (q - inject_Z (Qfloor q)) (1 # 2)) eqn:E1; [lia|].
  apply Qltb_ge in E1.
  assert (Hlt : (Qfloor q < n)%Z).
  { destruct (Z.eq_dec (Qfloor q) n) as [E|]; [|lia].
    exfalso. rewrite E in E1. lra. }
  destruct (Qgtb _ _); [lia|]. destruct (Z.even _); lia.
Qed.

Lemma round2_in_range (q : Q) : in_range q → in_range (round2 q).
Proof.
  intros [H0 H1]. unfold round2.
  destruct (round_half_even_bounds (q * 100) 10000) as [Ha Hb].
  - lra.
  - change (inject_Z 10000) with 10000. lra.
  - assert (Ha' : 0 <= inject_Z (round_half_even (q * 100))).
    { change 0 with (inject_Z 0). rewrite <- Zle_Qle. exact Ha. }
    assert (Hb' : inject_Z (round_half_even (q * 100)) <= 10000).
    { change 10000 with (inject_Z 10000). rewrite <- Zle_Qle. exact Hb. }
    split.
    + apply Qle_shift_div_l; lra.
    + apply Qle_shift_div_r; lra.
Qed.

Lemma validate_score_range_ok (v : Decimal) :
  in_range v → validate_score_range v = Ok v.
Proof.
  intros [H0 H1]. unfold validate_score_range.
  apply Qleb_le in H0. apply Qleb_le in H1. rewrite H0, H1. reflexivity.
Qed.

End ScoreFacts.
Import ScoreFacts.

(** ** Reasoning about passes *)

Module WriterFacts.

(** [yields m P]: the pass returns, with a value that satisfies [P]. *)
Definition yields {A} (m : W A) (P : A → Prop) : Prop :=
  ∃ a, res m = Ok a ∧ P a.

(** [guarded m P]: if the pass returns, its value satisfies [P]. Used for
    the body of a [try] whose handler restores [P]. *)
Definition guarded {A} (m : W A) (P : A → Prop) : Prop :=
  match res m with Ok a => P a | Raise _ => True end.

Lemma yields_ret {A} (a : A) (P : A → Prop) : P a → yields (mret a) P.
Proof. intros H. exists a. split; [reflexivity | exact H]. Qed.

Lemma yields_bind {A B} (m : W A) (f : A → W B) (P : A → Prop)
    (Q : B → Prop) :
  yields m P → (∀ a, P a → yields (f a) Q) → yields (m ≫= f) Q.
Proof.
  intros (a & Ha & HP) Hf. destruct (Hf a HP) as (b & Hb & HQ).
  exists b. split; [|exact HQ].
  unfold mbind, W_bind. rewrite Ha. cbn. exact Hb.
Qed.

Lemma yields_append (i : Issue) (P : unit → Prop) :
  P tt → yields (append i) P.
Proof. intros H. exists tt. split; [reflexivity | exact H]. Qed.

Lemma yields_note (silent : bool) (i : Issue) (P : unit → Prop) :
  P tt → yields (note silent i) P.
Proof. intros H. exists tt. split; [destruct silent; reflexivity | exact H]. Qed.

Lemma yields_weaken {A} (m : W A) (P Q : A → Prop) :
  yields m P → (∀ a, P a → Q a) → yields m Q.
Proof. intros (a & Ha & HP) H. exists a. auto. Qed.

Lemma yields_guarded {A} (m : W A) (P : A → Prop) :
  yields m P → guarded m P.
Proof. intros (a & Ha & HP). unfold guarded. rewrite Ha. exact HP. Qed.

Lemma guarded_bind {A B} (m : W A) (f : A → W B) (P : A → Prop)
    (Q : B → Prop) :
  guarded m P → (∀ a, P a → guarded (f a) Q) → guarded (m ≫= f) Q.
Proof.
  unfold guarded, mbind, W_bind. intros Hm Hf.
  destruct (res m) as [a|e]; cbn; [|exact I]. apply Hf, Hm.
Qed.

Lemma guarded_lift {A} (r : result A) (P : A → Prop) :
  (∀ a, r = Ok a → P a) → guarded (lift r) P.
Proof. unfold guarded, lift. cbn. destruct r; auto. Qed.

(** A [try] whose body is [guarded] and whose handler [yields]. *)
Lemma yields_try_except {A} (m : W A) (h : Exception → W A)
    (P : A → Prop) :
  guarded m P → (∀ e, yields (h e) P) → yields (try_except m h) P.
Proof.
  unfold guarded, try_except. intros Hm Hh.
  destruct (res m) as [a|e] eqn:E.
  - exists a. auto.
  - destruct (Hh e) as (a & Ha & HP). exists a. cbn. auto.
Qed.

Lemma yields_try_body {A} (m : W A) (h : Exception → W A) (P : A → Prop) :
  yields m P → yields (try_except m h) P.
Proof.
  intros (a & Ha & HP). exists a. unfold try_except. rewrite Ha. auto.
Qed.

(** A [try] whose body returns: the handler does not run. *)
Lemma try_except_Ok {A} (m : W A) (h : Exception → W A) (a : A) :
  res m = Ok a → try_except m h = m.
Proof. unfold try_except. intros ->. reflexivity. Qed.

Lemma res_bind_Ok {A B} (m : W A) (f : A → W B) (a : A) :
  res m = Ok a → res (m ≫= f) = res (f a).
Proof. unfold mbind, W_bind. intros ->. reflexivity. Qed.

Lemma out_bind_Ok {A B} (m : W A) (f : A → W B) (a : A) :
  res m = Ok a → out (m ≫= f) = out m ++ out (f a).
Proof. unfold mbind, W_bind. intros ->. reflexivity. Qed.

End WriterFacts.
Import WriterFacts.

(** ** The quality assessor *)

Module DataQualityFacts.

Import DataQualityService.
Local Open Scope Z_scope.

Ltac pass_step :=
  first [ apply yields_ret
        | eapply yields_bind with (P := λ _ : unit, True);
          [apply yields_append; exact I | intros [] _]
        | eapply yields_bind with (P := λ _ : unit, True);
          [apply yields_note; exact I | intros [] _] ].

(** *** Completeness *)

(** What a block of the completeness pass does to the two counters: it
    completes at most as many fields as it adds. *)
Definition grows (acc acc' : Z * Z) : Prop :=
  0 ≤ snd acc' - snd acc ≤ fst acc' - fst acc.

Lemma grows_refl acc : grows acc acc.
Proof. unfold grows. lia. Qed.

Lemma grows_trans a b c : grows a b → grows b c → grows a c.
Proof. unfold grows. lia. Qed.

Lemma for_fields_grows mk fields acc :
  yields (for_fields mk fields acc)
    (λ acc', grows acc acc' ∧ fst acc' = fst acc + len fields).
Proof.
  revert acc. induction fields as [|[name present] rest IH]; intros [t c].
  - apply yields_ret. unfold grows, len. cbn. lia.
  - cbn [for_fields].
    eapply yields_bind with (P := λ c', c ≤ c' ≤ c + 1).
    + destruct present; repeat pass_step; lia.
    + intros c' Hc'. eapply yields_weaken; [apply IH|].
      intros [t' c'']. unfold grows, len. cbn [fst snd length].
      rewrite Nat2Z.inj_succ. lia.
Qed.

Lemma for_statements_grows stmts acc :
  yields (for_statements stmts acc) (grows acc).
Proof.
  revert acc. induction stmts as [|stmt rest IH]; intros [t c].
  - apply yields_ret, grows_refl.
  - cbn [for_statements].
    eapply yields_bind with (P := λ c', c ≤ c' ≤ c + 1).
    { destruct (is_not_None (income_statement stmt)); repeat pass_step; lia. }
    intros c1 H1.
    eapply yields_bind with (P := λ c', c ≤ c' ≤ c + 2).
    { destruct (is_not_None (balance_sheet stmt)); repeat pass_step; lia. }
    intros c2 H2.
    eapply yields_bind with (P := λ c', c ≤ c' ≤ c + 3).
    { destruct (is_not_None (cash_flow_statement stmt)); repeat pass_step; lia. }
    intros c3 H3.
    eapply yields_weaken; [apply IH|].
    intros [t' c']. unfold grows. cbn [fst snd]. lia.
Qed.

Lemma completeness_company_grows sd acc :
  yields (completeness_company sd acc)
    (λ acc', grows acc acc' ∧ fst acc' = fst acc + 7).
Proof.
  unfold completeness_company. destruct (company_info sd) as [ci|].
  - apply for_fields_grows.
  - repeat pass_step. unfold grows. cbn. lia.
Qed.

Lemma completeness_current_price_grows sd acc :
  yields (completeness_current_price sd acc) (grows acc).
Proof.
  unfold completeness_current_price. destruct (current_price sd) as [p|].
  - eapply yields_weaken; [apply for_fields_grows|]. intros ? [? _]. assumption.
  - repeat pass_step. unfold grows. cbn. lia.
Qed.

Lemma completeness_historical_grows sd acc :
  yields (completeness_historical sd acc) (grows acc).
Proof.
  unfold completeness_historical. destruct acc as [t c].
  destruct (truthy_list (historical_prices sd)).
  - eapply yields_bind with (P := λ c', c ≤ c' ≤ c + 2).
    + destruct (30 <=? _); [|destruct (7 <=? _)]; repeat pass_step; lia.
    + intros c' Hc'. apply yields_ret. unfold grows. cbn. lia.
  - repeat pass_step. unfold grows. cbn. lia.
Qed.

Lemma completeness_statements_grows clk sd acc :
  yields (completeness_statements clk sd acc) (grows acc).
Proof.
  unfold completeness_statements. destruct acc as [t c].
  destruct (truthy_list (financial_statements sd)).
  - eapply yields_bind with (P := λ c', c ≤ c' ≤ c + 2).
    + destruct (2 <=? _); [|destruct (1 <=? _)]; repeat pass_step; lia.
    + intros c' Hc'. eapply yields_weaken; [apply for_statements_grows|].
      intros [t' c'']. unfold grows. cbn [fst snd]. lia.
  - repeat pass_step. unfold grows. cbn. lia.
Qed.

Lemma _assess_completeness_in_range clk sd :
  yields (_assess_completeness clk sd) in_range.
Proof.
  unfold _assess_completeness.
  apply yields_try_except.
  2:{ intros e. repeat pass_step. split; cbn; lra. }
  apply yields_guarded.
  eapply yields_bind; [apply completeness_company_grows|].
  intros a1 [G1 T1].
  eapply yields_bind; [apply completeness_current_price_grows|].
  intros a2 G2.
  eapply yields_bind; [apply completeness_historical_grows|].
  intros a3 G3.
  eapply yields_bind; [apply completeness_statements_grows|].
  intros [t c] G4.
  apply yields_ret.
  unfold grows in *. cbn [fst snd] in *.
  assert (Ht : 0 < t) by lia.
  apply Z.ltb_lt in Ht as Ht'. rewrite Ht'.
  apply ratio_percent_in_range; lia.
Qed.

(** *** Freshness *)

Ltac score_range := split; cbn; lra.

Lemma freshness_current_price_in_range clk sd :
  yields (freshness_current_price clk sd) in_range.
Proof.
  unfold freshness_current_price. destruct (current_price sd) as [p|].
  - repeat match goal with |- context [if ?b then _ else _] => destruct b end;
      repeat pass_step; score_range.
  - repeat pass_step; score_range.
Qed.

Lemma freshness_historical_in_range clk sd :
  yields (freshness_historical clk sd) in_range.
Proof.
  unfold freshness_historical. destruct (historical_prices sd) as [|p rest].
  - repeat pass_step; score_range.
  - cbv zeta.
    repeat match goal with |- context [if ?b then _ else _] => destruct b end;
      repeat pass_step; score_range.
Qed.

Lemma freshness_statements_in_range clk sd :
  yields (freshness_statements clk sd) in_range.
Proof.
  unfold freshness_statements. destruct (financial_statements sd) as [|s rest].
  - repeat pass_step; score_range.
  - cbv zeta.
    repeat match goal with |- context [if ?b then _ else _] => destruct b end;
      repeat pass_step; score_range.
Qed.

Lemma freshness_overall_guarded clk sd :
  guarded (freshness_overall clk sd) in_range.
Proof.
  unfold freshness_overall.
  eapply guarded_bind with (P := λ _, True).
  { apply guarded_lift. auto. }
  intros delta _. apply yields_guarded. cbv zeta.
  repeat match goal with |- context [if ?b then _ else _] => destruct b end;
    repeat pass_step; score_range.
Qed.

Lemma _assess_freshness_in_range clk sd :
  yields (_assess_freshness clk sd) in_range.
Proof.
  unfold _assess_freshness.
  apply yields_try_except.
  2:{ intros e. repeat pass_step. score_range. }
  eapply guarded_bind;
    [apply yields_guarded, freshness_current_price_in_range|].
  intros s1 H1.
  eapply guarded_bind; [apply yields_guarded, freshness_historical_in_range|].
  intros s2 H2.
  eapply guarded_bind; [apply yields_guarded, freshness_statements_in_range|].
  intros s3 H3.
  eapply guarded_bind; [apply freshness_overall_guarded|].
  intros s4 H4.
  apply yields_guarded, yields_ret. cbn [truthy_list].
  apply mean_in_range; [discriminate|].
  repeat (constructor; [assumption|]). constructor.
Qed.

(** *** Accuracy *)

(** A validator starts from 100 and only deducts. *)
Ltac deduct c :=
  eapply yields_bind with (P := λ s, s ≤ c);
  [ repeat match goal with
           | |- context [match ?x with _ => _ end] => destruct x
           end;
    repeat pass_step; lia
  | intros ? ? ].

Lemma validate_price_step2 price silent (cb : bool) (score : Z) :
  yields
    (match open_price price, high_price price, low_price price with
     | Some o, Some h, Some l =>
         if truthy_Q o && truthy_Q h && truthy_Q l && cb then
           score ←
             (if negb (Qleb l o && Qleb o h) then
                note silent (Invalid_price_relationship_open (sp_date price));;
                mret (score - 20)
              else mret score);
           (if negb (Qleb l (close_price price) && Qleb (close_price price) h)
            then
              note silent (Invalid_price_relationship_close (sp_date price));;
              mret (score - 20)
            else mret score)
         else mret score
     | _, _, _ => mret score
     end) (λ s, score - 40 ≤ s ≤ score ∧ (cb = false → s = score)).
Proof.
  destruct (open_price price) as [o|], (high_price price) as [h|],
    (low_price price) as [l|]; try (apply yields_ret; lia).
  destruct cb; [|rewrite andb_false_r; apply yields_ret; lia].
  destruct (_ && _); [|apply yields_ret; lia].
  eapply yields_bind with (P := λ s, score - 20 ≤ s ≤ score).
  - destruct (negb _); repeat pass_step; lia.
  - intros s Hs. destruct (negb _); repeat pass_step;
      (split; [lia | discriminate]).
Qed.

(** The deductions of [_validate_price_data] never reach 100: a price
    without a close loses at most 30 + 15, one with a close at most
    20 + 20 + 25 + 15. *)
Lemma _validate_price_data_positive price silent :
  yields (_validate_price_data price silent) (λ s, 0 < s ≤ 100).
Proof.
  unfold _validate_price_data.
  apply yields_try_body.
  {   cbv zeta.
      destruct (truthy_Q (close_price price)) eqn:Hc; cbn [negb].
      - eapply yields_bind with (P := λ s, s = 100);
          [apply yields_ret; reflexivity|]. intros s0 ->.
        eapply yields_bind; [apply validate_price_step2|]. intros s1 [H1 _].
        eapply yields_bind with (P := λ s, s1 - 25 ≤ s ≤ s1).
        { destruct (_ || _); repeat pass_step; lia. }
        intros s2 H2.
        eapply yields_bind with (P := λ s, s2 - 15 ≤ s ≤ s2).
        { destruct (volume price) as [v|]; [destruct (v <? 0)|];
            repeat pass_step; lia. }
        intros s3 H3. apply yields_ret. lia.
      - eapply yields_bind with (P := λ s, s = 70).
        { repeat pass_step. reflexivity. }
        intros s0 ->.
        eapply yields_bind; [apply validate_price_step2|].
        intros s1 [_ ->]; [|reflexivity].
        eapply yields_bind with (P := λ s, s = 70);
          [apply yields_ret; reflexivity|]. intros s2 ->.
        eapply yields_bind with (P := λ s, 70 - 15 ≤ s ≤ 70).
        { destruct (volume price) as [v|]; [destruct (v <? 0)|];
            repeat pass_step; lia. }
        intros s3 H3. apply yields_ret. lia. }
Qed.

Lemma _validate_price_data_in_range price silent :
  yields (_validate_price_data price silent) (λ s, 0 ≤ s ≤ 100).
Proof.
  eapply yields_weaken; [apply _validate_price_data_positive|].
  intros s Hs. cbn in Hs. lia.
Qed.

Lemma validate_income_le stmt silent score :
  yields (validate_income stmt silent score) (λ s, s ≤ score).
Proof.
  unfold validate_income.
  destruct (income_statement stmt) as [inc|]; [|apply yields_ret; lia].
  destruct (revenue inc) as [r|]; [|apply yields_ret; lia].
  destruct (_ && _); repeat pass_step; lia.
Qed.

Lemma validate_balance_guarded stmt silent score :
  guarded (validate_balance stmt silent score) (λ s, s ≤ score).
Proof.
  unfold validate_balance.
  destruct (balance_sheet stmt) as [bs|];
    [|apply yields_guarded, yields_ret; lia].
  destruct (total_assets bs) as [ta|], (total_liabilities bs) as [tl|],
    (total_equity bs) as [te|];
    try (apply yields_guarded, yields_ret; lia).
  destruct (_ && _); [|apply yields_guarded, yields_ret; lia].
  cbv zeta. eapply guarded_bind with (P := λ _, True).
  { apply guarded_lift. auto. }
  intros ratio _. apply yields_guarded.
  destruct (Qgtb ratio _); repeat pass_step; lia.
Qed.

Lemma _validate_financial_statement_in_range stmt silent :
  yields (_validate_financial_statement stmt silent) (λ s, 0 ≤ s ≤ 100).
Proof.
  unfold _validate_financial_statement.
  apply yields_try_except.
  2:{ intros e. repeat pass_step. lia. }
  cbv zeta. destruct (negb _).
  { apply yields_guarded. repeat pass_step. lia. }
  eapply guarded_bind; [apply yields_guarded, validate_income_le|].
  intros s1 H1. cbn beta in H1.
  eapply guarded_bind; [apply validate_balance_guarded|].
  intros s2 H2. cbn beta in H2.
  apply yields_guarded, yields_ret. lia.
Qed.

Lemma _validate_company_info_in_range ci :
  yields (_validate_company_info ci) (λ s, 0 ≤ s ≤ 100).
Proof.
  unfold _validate_company_info.
  apply yields_try_body. cbv zeta.
  eapply yields_bind with (P := λ s, s ≤ 100).
  { destruct (negb _); repeat pass_step; lia. }
  intros s1 H1.
  eapply yields_bind with (P := λ s, s ≤ 100).
  { destruct (market_cap ci) as [mc|]; [destruct (_ && _)|];
      repeat pass_step; lia. }
  intros s2 H2.
  eapply yields_bind with (P := λ s, s ≤ 100).
  { destruct (trailing_pe ci) as [pe|]; [destruct (_ && _)|];
      repeat pass_step; lia. }
  intros s3 H3.
  eapply yields_bind with (P := λ s, s ≤ 100).
  { destruct (beta ci) as [b|]; [destruct (_ && _)|];
      repeat pass_step; lia. }
  intros s4 H4. apply yields_ret. lia.
Qed.

Lemma count_valid_bounds {A} (validate : A → W Z) (l : list A) (valid : Z) :
  (∀ x, yields (validate x) (λ _, True)) →
  yields (count_valid validate l valid) (λ v, valid ≤ v ≤ valid + len l).
Proof.
  intros Hv. revert valid. induction l as [|x l IH]; intros valid.
  - apply yields_ret. unfold len. cbn. lia.
  - cbn [count_valid]. eapply yields_bind; [apply Hv|]. intros v _.
    eapply yields_weaken; [apply IH|]. intros v'. unfold len. cbn [length].
    rewrite Nat2Z.inj_succ. destruct (truthy_Z v); lia.
Qed.

(** When every element passes its validator, all of them are counted. *)
Lemma count_valid_all {A} (validate : A → W Z) (l : list A) (valid : Z) :
  (∀ x, yields (validate x) (λ s, 0 < s)) →
  yields (count_valid validate l valid) (λ v, v = valid + len l).
Proof.
  intros Hv. revert valid. induction l as [|x l IH]; intros valid.
  - apply yields_ret. unfold len. cbn. lia.
  - cbn [count_valid]. eapply yields_bind; [apply Hv|]. intros v Hpos.
    cbn beta in Hpos.
    assert (Ht : truthy_Z v = true).
    { unfold truthy_Z. apply negb_true_iff, Z.eqb_neq. lia. }
    rewrite Ht. eapply yields_weaken; [apply IH|]. intros v' ->.
    unfold len. cbn [length]. rewrite Nat2Z.inj_succ. lia.
Qed.

Lemma len_firstn_le {A} (n : nat) (l : list A) : len (firstn n l) ≤ len l.
Proof. unfold len. rewrite length_firstn. lia. Qed.

Lemma len_pos {A} (l : list A) : truthy_list l = true → 0 < len l.
Proof. destruct l; [discriminate|]. unfold len. cbn [length]. lia. Qed.

(** The value of the historical-price block: every examined price counts as
    valid, and the count is divided by the length of the whole list. *)
Lemma accuracy_historical_value sd :
  truthy_list (historical_prices sd) = true →
  res (accuracy_historical sd)
  = Ok [(inject_Z (len (firstn 30 (historical_prices sd)))
         / inject_Z (len (historical_prices sd)) * 100)%Q].
Proof.
  intros Hne. unfold accuracy_historical. rewrite Hne.
  destruct (count_valid_all (λ price, _validate_price_data price true)
              (firstn 30 (historical_prices sd)) 0) as (v & Hv & ->).
  { intros x. eapply yields_weaken; [apply _validate_price_data_positive|].
    cbn. intros; lia. }
  rewrite (res_bind_Ok _ _ _ Hv). cbv zeta.
  apply len_pos in Hne. apply Z.ltb_lt in Hne. rewrite Hne.
  rewrite Z.add_0_l.
  destruct (Qltb _ 90); reflexivity.
Qed.

Lemma accuracy_historical_in_range sd :
  yields (accuracy_historical sd) (Forall in_range).
Proof.
  unfold accuracy_historical.
  destruct (truthy_list (historical_prices sd)) eqn:Hne;
    [|apply yields_ret; constructor].
  cbv zeta. eapply yields_bind.
  { apply count_valid_bounds. intros x.
    eapply yields_weaken; [apply _validate_price_data_in_range|]. auto. }
  intros v Hv. cbn beta in Hv.
  pose proof (len_firstn_le 30 (historical_prices sd)) as Hle.
  apply len_pos in Hne. apply Z.ltb_lt in Hne as Hne'. rewrite Hne'.
  eapply yields_bind with (P := λ _, True).
  { destruct (Qltb _ _); repeat pass_step; exact I. }
  intros _ _. apply yields_ret. constructor; [|constructor].
  apply ratio_percent_in_range; lia.
Qed.

Lemma accuracy_statements_in_range sd :
  yields (accuracy_statements sd) (Forall in_range).
Proof.
  unfold accuracy_statements.
  destruct (truthy_list (financial_statements sd)) eqn:Hne;
    [|apply yields_ret; constructor].
  cbv zeta. eapply yields_bind.
  { apply count_valid_bounds. intros x.
    eapply yields_weaken; [apply _validate_financial_statement_in_range|].
    auto. }
  intros v Hv. cbn beta in Hv.
  apply len_pos in Hne. apply Z.ltb_lt in Hne as Hne'. rewrite Hne'.
  eapply yields_bind with (P := λ _, True).
  { destruct (Qltb _ _); repeat pass_step; exact I. }
  intros _ _. apply yields_ret. constructor; [|constructor].
  apply ratio_percent_in_range; lia.
Qed.

Lemma accuracy_current_price_in_range sd :
  yields (accuracy_current_price sd) (Forall in_range).
Proof.
  unfold accuracy_current_price.
  destruct (current_price sd) as [p|]; [|apply yields_ret; constructor].
  eapply yields_bind; [apply _validate_price_data_in_range|].
  intros s Hs. apply yields_ret. constructor; [|constructor].
  apply in_range_Z, Hs.
Qed.

Lemma accuracy_company_in_range sd :
  yields (accuracy_company sd) (Forall in_range).
Proof.
  unfold accuracy_company.
  destruct (company_info sd) as [ci|]; [|apply yields_ret; constructor].
  eapply yields_bind; [apply _validate_company_info_in_range|].
  intros s Hs. apply yields_ret. constructor; [|constructor].
  apply in_range_Z, Hs.
Qed.

Lemma checks_mean_in_range (checks : list Q) :
  Forall in_range checks →
  in_range (if truthy_list checks then mean checks else 0%Q).
Proof.
  intros H. destruct checks as [|c checks]; cbn [truthy_list].
  - split; cbn; lra.
  - apply mean_in_range; [discriminate | exact H].
Qed.

Lemma _assess_accuracy_in_range sd :
  yields (_assess_accuracy sd) in_range.
Proof.
  unfold _assess_accuracy. apply yields_try_body.
  eapply yields_bind; [apply accuracy_current_price_in_range|]. intros c1 H1.
  eapply yields_bind; [apply accuracy_historical_in_range|]. intros c2 H2.
  eapply yields_bind; [apply accuracy_statements_in_range|]. intros c3 H3.
  eapply yields_bind; [apply accuracy_company_in_range|]. intros c4 H4.
  apply yields_ret. cbv zeta. apply checks_mean_in_range.
  repeat (apply Forall_app; split); assumption.
Qed.

(** *** Consistency *)

Ltac one_check := constructor; [score_range | constructor].

Lemma consistency_symbols_in_range sd :
  yields (consistency_symbols sd) (Forall in_range).
Proof.
  unfold consistency_symbols. cbv zeta.
  destruct (_ =? _)%nat; repeat pass_step; one_check.
Qed.

Lemma consistency_dates_in_range sd :
  yields (consistency_dates sd) (Forall in_range).
Proof.
  unfold consistency_dates. cbv zeta.
  repeat match goal with |- context [if ?b then _ else _] => destruct b end;
    repeat pass_step; try one_check; constructor.
Qed.

Lemma consistency_statement_intervals_in_range sd :
  yields (consistency_statement_intervals sd) (Forall in_range).
Proof.
  unfold consistency_statement_intervals. cbv zeta.
  repeat match goal with |- context [if ?b then _ else _] => destruct b end;
    repeat pass_step; try one_check; constructor.
Qed.

Lemma consistency_outliers_in_range sd :
  yields (consistency_outliers sd) (Forall in_range).
Proof.
  unfold consistency_outliers. cbv zeta.
  repeat match goal with |- context [if ?b then _ else _] => destruct b end;
    repeat pass_step; try one_check; constructor.
Qed.

Lemma _assess_consistency_in_range sd :
  yields (_assess_consistency sd) in_range.
Proof.
  unfold _assess_consistency. apply yields_try_body.
  eapply yields_bind; [apply consistency_symbols_in_range|]. intros c1 H1.
  eapply yields_bind; [apply consistency_dates_in_range|]. intros c2 H2.
  eapply yields_bind; [apply consistency_statement_intervals_in_range|].
  intros c3 H3.
  eapply yields_bind; [apply consistency_outliers_in_range|]. intros c4 H4.
  apply yields_ret. cbv zeta. apply checks_mean_in_range.
  repeat (apply Forall_app; split); assumption.
Qed.

End DataQualityFacts.

(** ** Claims on the quality assessor *)

Module DataQualityClaims.

Import DataQualityService DataQualityFacts Fixtures.
Local Open Scope Z_scope.


(** C7, at a record of sixty valid price points: the pass examines the first
    thirty, finds all of them valid and divides by sixty; the component is 50
    and the list of issues reports 30 valid out of 60. *)
Theorem accuracy_historical_sixty_days :
  ∃ q, accuracy_historical sixty_days
       = {| res := Ok [q];
            out := [Historical_price_validation_issues 30 60] |}
       ∧ (q == 50)%Q.
Proof.
  eexists. split; [vm_compute; reflexivity | reflexivity].
Qed.

(** The mean of the gaps between consecutive period-end dates. *)
Definition average_gap (sd : StockData) : Q :=
  mean (map inject_Z
          (consecutive_diffs
             (sort_dates (map period_ending (financial_statements sd))))).

Definition quarterly (avg : Q) : Prop := (80 <= avg ∧ avg <= 100)%Q.
Definition annual (avg : Q) : Prop := (350 <= avg ∧ avg <= 380)%Q.
Definition semi_annual (avg : Q) : Prop := (160 <= avg ∧ avg <= 200)%Q.

(** C8 as stated fails for two statements 180 days apart: the average gap is
    in the semi-annual range and the block contributes 90, not 100. *)
Lemma semi_annual_contributes_90 :
  1 < len (financial_statements two_half_years) ∧
  semi_annual (average_gap two_half_years) ∧
  res (consistency_statement_intervals two_half_years) = Ok [90%Q] ∧
  res (consistency_statement_intervals two_half_years) ≠ Ok [100%Q].
Proof.
  split; [reflexivity|]. split.
  { split; vm_compute; discriminate. }
  split; [vm_compute; reflexivity|]. vm_compute. discriminate.
Qed.

Lemma length_consecutive_diffs (l : list Z) :
  length (consecutive_diffs l) = (length l - 1)%nat.
Proof.
  induction l as [|a [|b l] IH]; [reflexivity..|].
  change (consecutive_diffs (a :: b :: l))
    with ((b - a) :: consecutive_diffs (b :: l)).
  cbn [length] in *. lia.
Qed.

Lemma length_sort_dates (l : list date) : length (sort_dates l) = length l.
Proof. unfold sort_dates. apply Permutation_length, merge_sort_Permutation. Qed.

(** With more than one statement there is at least one gap. *)
Lemma intervals_nonempty (sd : StockData) :
  1 < len (financial_statements sd) →
  truthy_list
    (map inject_Z
       (consecutive_diffs
          (sort_dates (map period_ending (financial_statements sd)))))
  = true.
Proof.
  unfold len. intros H.
  match goal with |- truthy_list ?l = true =>
    assert (Hl : (0 < length l)%nat) end.
  { rewrite length_map, length_consecutive_diffs, length_sort_dates,
      length_map. lia. }
  match goal with |- truthy_list ?l = true => destruct l end;
    [cbn in Hl; lia | reflexivity].
Qed.

(** C8, amended. With more than one statement, the statement-interval block
    contributes 100 without an issue when the average gap is quarterly
    (80-100 days) or annual (350-380 days), 90 without an issue when it is
    semi-annual (160-200 days), and 70 with an issue that carries the average
    for any other average gap. *)
Theorem statement_interval_contribution (sd : StockData) :
  1 < len (financial_statements sd) →
  let avg := average_gap sd in
  (quarterly avg ∨ annual avg →
     consistency_statement_intervals sd = {| res := Ok [100%Q]; out := [] |}) ∧
  (semi_annual avg →
     consistency_statement_intervals sd = {| res := Ok [90%Q]; out := [] |}) ∧
  (¬ quarterly avg → ¬ annual avg → ¬ semi_annual avg →
     consistency_statement_intervals sd
     = {| res := Ok [70%Q];
          out := [Irregular_financial_statement_intervals avg] |}).
Proof.
  intros Hlen avg.
  pose proof (intervals_nonempty sd Hlen) as Hne.
  apply Z.ltb_lt in Hlen.
  unfold consistency_statement_intervals. rewrite Hlen. cbv zeta.
  rewrite Hne. fold (average_gap sd). fold avg.
  unfold quarterly, annual, semi_annual.
  destruct (Qleb 80 avg) eqn:E1, (Qleb avg 100) eqn:E2,
    (Qleb 350 avg) eqn:E3, (Qleb avg 380) eqn:E4,
    (Qleb 160 avg) eqn:E5, (Qleb avg 200) eqn:E6;
    rewrite ?Qleb_le, ?Qleb_gt in *; cbn [andb];
    (split; [|split]);
    try reflexivity;
    try (intros [[? ?]|[? ?]]; exfalso; lra);
    try (intros [? ?]; exfalso; lra);
    try (intros H1 H2 H3; exfalso;
         first [apply H1; split; lra | apply H2; split; lra
               | apply H3; split; lra]).
Qed.

(** The amended C8 at two statements 180 days apart. *)
Lemma statement_interval_contribution_witness :
  consistency_statement_intervals two_half_years
  = {| res := Ok [90%Q]; out := [] |}.
Proof.
  apply (statement_interval_contribution two_half_years).
  - reflexivity.
  - split; vm_compute; discriminate.
Defined.

(** C9. The grade is A from 90, B from 75, C from 60, D from 40 and F below;
    a score that is at least another score has a grade that ranks at least
    as high. *)
Theorem get_quality_grade_boundaries_monotone :
  (∀ s, (90 <= s)%Q → get_quality_grade s = "A"%string) ∧
  (∀ s, (75 <= s)%Q → (s < 90)%Q → get_quality_grade s = "B"%string) ∧
  (∀ s, (60 <= s)%Q → (s < 75)%Q → get_quality_grade s = "C"%string) ∧
  (∀ s, (40 <= s)%Q → (s < 60)%Q → get_quality_grade s = "D"%string) ∧
  (∀ s, (s < 40)%Q → get_quality_grade s = "F"%string) ∧
  (∀ x y, (y <= x)%Q →
     grade_rank (get_quality_grade y) ≤ grade_rank (get_quality_grade x)).
Proof.
  unfold get_quality_grade, threshold_excellent, threshold_good,
    threshold_fair, threshold_poor.
  repeat split.
  - intros s H. apply Qgeb_ge in H. rewrite H. reflexivity.
  - intros s H1 H2. apply Qgeb_ge in H1. apply Qgeb_lt in H2.
    rewrite H2, H1. reflexivity.
  - intros s H1 H2. apply Qgeb_ge in H1.
    assert (H3 : Qgeb s 90 = false) by (apply Qgeb_lt; lra).
    apply Qgeb_lt in H2. rewrite H3, H2, H1. reflexivity.
  - intros s H1 H2. apply Qgeb_ge in H1.
    assert (H3 : Qgeb s 90 = false) by (apply Qgeb_lt; lra).
    assert (H4 : Qgeb s 75 = false) by (apply Qgeb_lt; lra).
    apply Qgeb_lt in H2. rewrite H3, H4, H2, H1. reflexivity.
  - intros s H.
    assert (H3 : Qgeb s 90 = false) by (apply Qgeb_lt; lra).
    assert (H4 : Qgeb s 75 = false) by (apply Qgeb_lt; lra).
    assert (H5 : Qgeb s 60 = false) by (apply Qgeb_lt; lra).
    apply Qgeb_lt in H. rewrite H3, H4, H5, H. reflexivity.
  - intros x y Hxy.
    destruct (Qgeb x 90) eqn:X1, (Qgeb x 75) eqn:X2, (Qgeb x 60) eqn:X3,
      (Qgeb x 40) eqn:X4, (Qgeb y 90) eqn:Y1, (Qgeb y 75) eqn:Y2,
      (Qgeb y 60) eqn:Y3, (Qgeb y 40) eqn:Y4;
      try (cbn; lia);
      rewrite ?Qgeb_ge, ?Qgeb_lt in *; exfalso; lra.
Qed.

(** C9 at the scores 95 and 80. *)
Lemma get_quality_grade_boundaries_monotone_witness :
  get_quality_grade 95 = "A"%string ∧
  get_quality_grade 80 = "B"%string ∧
  grade_rank (get_quality_grade 80) ≤ grade_rank (get_quality_grade 95).
Proof.
  destruct get_quality_grade_boundaries_monotone
    as (HA & HB & _ & _ & _ & Hmono).
  split; [apply HA; vm_compute; discriminate|].
  split; [apply HB; [vm_compute; discriminate | reflexivity]|].
  apply Hmono. vm_compute; discriminate.
Defined.

End DataQualityClaims.

(** ** The orchestrator *)

Module DataServiceFacts.

Import DataService.
Local Open Scope Z_scope.

Lemma rate_limits_set_rate_limits svc rl :
  rate_limits (set_rate_limits svc rl) = rl.
Proof. reflexivity. Qed.

Lemma set_rate_limits_id svc : set_rate_limits svc (rate_limits svc) = svc.
Proof. destruct svc; reflexivity. Qed.

(** The budget after [n] calls of [_update_rate_limit]. *)
Definition made_more (rl : APIRateLimit) (n : Z) : APIRateLimit :=
  {| api_name := api_name rl; endpoint := endpoint rl;
     requests_made := requests_made rl + n;
     requests_limit := requests_limit rl; reset_time := reset_time rl |}.

(** The budget after a check that found the window closed. *)
Definition reopened (clk : Clock) (source : DataSource) (rl : APIRateLimit)
    : APIRateLimit :=
  {| api_name := api_name rl; endpoint := endpoint rl;
     requests_made := 0;
     requests_limit := requests_limit rl;
     reset_time := datetime_add (now clk) (reset_period source) |}.

Lemma _update_rate_limit_iter (source : DataSource) (svc : DataService)
    (rl : APIRateLimit) (n : nat) :
  rate_limits svc !! source = Some rl →
  rate_limits (Nat.iter n (_update_rate_limit source) svc) !! source
  = Some (made_more rl (Z.of_nat n)).
Proof.
  intros Hrl. induction n as [|n IH].
  - cbn. rewrite Hrl. f_equal. destruct rl. unfold made_more. cbn.
    f_equal. lia.
  - rewrite Nat2Z.inj_succ, Nat.iter_succ. unfold _update_rate_limit at 1.
    rewrite IH. rewrite rate_limits_set_rate_limits, lookup_insert_eq.
    f_equal. unfold made_more. cbn. f_equal. lia.
Qed.

Lemma _check_rate_limit_open (clk : Clock) (source : DataSource)
    (svc : DataService) (rl : APIRateLimit) :
  rate_limits svc !! source = Some rl →
  aware (reset_time rl) = false →
  now_micros clk ≤ micros (reset_time rl) →
  _check_rate_limit clk source svc = (negb (is_limit_exceeded rl), svc).
Proof.
  intros Hrl Haw Hnow. unfold _check_rate_limit, _check_rate_limit_body.
  rewrite Hrl. unfold datetime_gt. cbn [now aware micros]. rewrite Haw.
  cbn [Bool.eqb].
  assert (E : (micros (reset_time rl) <? now_micros clk) = false)
    by (apply Z.ltb_ge; lia).
  rewrite E. f_equal. rewrite insert_id by exact Hrl.
  apply set_rate_limits_id.
Qed.

Lemma _check_rate_limit_reopens (clk : Clock) (source : DataSource)
    (svc : DataService) (rl : APIRateLimit) :
  rate_limits svc !! source = Some rl →
  aware (reset_time rl) = false →
  micros (reset_time rl) < now_micros clk →
  _check_rate_limit clk source svc
  = (negb (requests_limit rl <=? 0),
     set_rate_limits svc
       (<[ source := reopened clk source rl ]> (rate_limits svc))).
Proof.
  intros Hrl Haw Hnow. unfold _check_rate_limit, _check_rate_limit_body.
  rewrite Hrl. unfold datetime_gt. cbn [now aware micros]. rewrite Haw.
  cbn [Bool.eqb].
  assert (E : (micros (reset_time rl) <? now_micros clk) = true)
    by (apply Z.ltb_lt; lia).
  rewrite E. reflexivity.
Qed.

(** *** The fallback loop *)

Import OrchestratorSpec.

(** The fetch for one source asks its provider and charges its budget; an
    exception of the provider is swallowed. *)
Lemma fetch_from_adapter prov symbol source svc :
  fetch_from prov symbol source svc
  = (Ok match adapter prov source symbol with
        | Ok r => r
        | Raise _ => None
        end,
     asked source svc).
Proof.
  destruct source; cbn [fetch_from adapter asked]; [| |reflexivity].
  - unfold _get_data_from_yahoo.
    destruct (yahoo_get_stock_data prov symbol); reflexivity.
  - unfold _get_data_from_alpha_vantage.
    destruct (alpha_get_comprehensive_data prov symbol); reflexivity.
Qed.

Lemma try_sources_consults prov clk symbol sources svc :
  consults prov clk symbol sources svc
    (fst (try_sources prov clk symbol sources svc))
    (snd (try_sources prov clk symbol sources svc)).
Proof.
  revert svc. induction sources as [|source rest IH]; intros svc.
  - constructor.
  - cbn [try_sources].
    destruct (_check_rate_limit clk source svc) as [allowed svc1] eqn:Hc.
    destruct allowed; cbn [negb].
    + rewrite fetch_from_adapter.
      destruct (adapter prov source symbol) as [[d|]|e] eqn:Ha.
      * eapply consults_data; eauto.
      * eapply consults_no_data; eauto.
      * eapply consults_raised; eauto.
    + eapply consults_denied; eauto.
Qed.

Lemma consults_try_sources prov clk symbol sources svc found svc' :
  consults prov clk symbol sources svc found svc' →
  try_sources prov clk symbol sources svc = (found, svc').
Proof.
  induction 1 as [svc | source rest svc svc1 found svc' Hc _ IH
                 | source rest svc svc1 found svc' Hc Ha _ IH
                 | source rest svc svc1 e found svc' Hc Ha _ IH
                 | source rest svc svc1 d Hc Ha];
    cbn [try_sources]; rewrite ?Hc; cbn [negb];
    rewrite ?fetch_from_adapter, ?Ha; auto.
Qed.

Lemma attach_quality_record_of clk d s svc :
  record_of clk d s (fst (attach_quality clk d s svc)).
Proof.
  unfold attach_quality, record_of.
  destruct (_ && _); [|left; reflexivity].
  destruct (DataQualityService.assess_stock_data_quality clk d s) as [q|e];
    [right; exists q; auto | left; reflexivity].
Qed.

(** What [get_stock_data] makes of the outcome of the loop. *)
Lemma get_stock_data_after_miss prov clk symbol force_refresh preferred_source
    svc found svc1 :
  fst (cache_lookup clk (upper symbol) force_refresh svc) = None →
  try_sources prov clk (upper symbol)
    (match preferred_source with
     | Some s => [s]
     | None => data_source_priority svc
     end)
    (snd (cache_lookup clk (upper symbol) force_refresh svc))
  = (found, svc1) →
  match found with
  | None =>
      get_stock_data prov clk symbol force_refresh preferred_source svc
      = (None, svc1)
  | Some (d, s) =>
      fst (get_stock_data prov clk symbol force_refresh preferred_source svc)
      = Some (fst (attach_quality clk d s svc1))
  end.
Proof.
  intros Hmiss Hloop. unfold get_stock_data.
  destruct (cache_lookup clk (upper symbol) force_refresh svc)
    as [hit svc0] eqn:Hl.
  cbn [fst snd] in *. subst hit.
  assert (Hp : data_source_priority svc0 = data_source_priority svc).
  { unfold cache_lookup in Hl. destruct (cache_service svc) as [c|];
      [destruct (negb force_refresh);
       [destruct (cache_get _ _ _)|]|];
      inversion Hl; reflexivity. }
  rewrite Hp, Hloop.
  destruct found as [[d s]|]; [|reflexivity].
  destruct (attach_quality clk d s svc1) as [d' svc2]. reflexivity.
Qed.

(** *** The batch *)

Lemma gather_returns prov clk semaphore symbols svc :
  0 < semaphore →
  ∃ datas svc',
    length datas = length symbols ∧
    gather prov clk semaphore symbols svc = Some (returned symbols datas, svc').
Proof.
  intros Hpos. apply Z.ltb_lt in Hpos.
  revert svc. induction symbols as [|s rest IH]; intros svc.
  - exists [], svc. auto.
  - cbn [gather]. rewrite Hpos.
    destruct (get_stock_data prov clk s false None svc) as [data svc1].
    destruct (IH svc1) as (datas & svc' & Hlen & Hg). rewrite Hg.
    exists (data :: datas), svc'. cbn [length]. auto.
Qed.

Lemma tasks_for_app s rs1 rs2 :
  tasks_for s (rs1 ++ rs2) = tasks_for s rs1 ++ tasks_for s rs2.
Proof. unfold tasks_for. apply List.filter_app. Qed.

Lemma process_results_snoc results r :
  process_results (results ++ [r])
  = match r with
    | Raise _ => process_results results
    | Ok (symbol, data) => <[ symbol := data ]> (process_results results)
    end.
Proof. unfold process_results. rewrite fold_left_app. reflexivity. Qed.

(** The entry of a symbol is the data of its last task that returned. *)
Lemma process_results_entry results s :
  process_results results !! s = entry_of s results.
Proof.
  induction results as [|r results IH] using rev_ind.
  - reflexivity.
  - rewrite process_results_snoc. unfold entry_of in *.
    rewrite tasks_for_app. destruct r as [[s' data]|e].
    + cbn [tasks_for List.filter]. destruct (String.eqb_spec s' s) as [->|Hne].
      * rewrite last_snoc, lookup_insert_eq. reflexivity.
      * rewrite app_nil_r, lookup_insert_ne by exact Hne. exact IH.
    + cbn [tasks_for List.filter]. rewrite app_nil_r. exact IH.
Qed.

Lemma tasks_for_returned_nil s symbols datas :
  length datas = length symbols →
  tasks_for s (returned symbols datas) = [] ↔ s ∉ symbols.
Proof.
  revert datas. induction symbols as [|s' rest IH]; intros [|d datas] Hlen;
    try discriminate.
  - split; [intros _; apply not_elem_of_nil | reflexivity].
  - cbn [returned zip_with tasks_for List.filter].
    fold (returned rest datas). fold (tasks_for s (returned rest datas)).
    rewrite not_elem_of_cons.
    destruct (String.eqb_spec s' s) as [->|Hne].
    + split; [discriminate | intros [H _]; congruence].
    + rewrite IH by (cbn in Hlen; lia). split; [intros; split; congruence|].
      intros [_ H]; exact H.
Qed.

Lemma tasks_for_returned_last s symbols datas :
  length datas = length symbols →
  match last (tasks_for s (returned symbols datas)) with
  | Some (Raise _) => False
  | _ => True
  end.
Proof.
  intros _.
  assert (H : Forall (λ r, is_Ok r = true) (tasks_for s (returned symbols datas))).
  { unfold tasks_for. apply Forall_forall. intros r Hr.
    apply list_elem_of_In, List.filter_In in Hr as [_ Hr].
    destruct r; [reflexivity | discriminate]. }
  destruct (last _) as [[|]|] eqn:Hl; try exact I.
  apply last_Some_elem_of in Hl.
  rewrite Forall_forall in H. apply H in Hl. discriminate.
Qed.






End DataServiceFacts.

Module DataServiceClaims.

Import DataService DataServiceFacts Fixtures ServiceFixtures OrchestratorSpec.
Local Open Scope Z_scope.

(** C3. The TTL depends on the record through its quality score only: 900
    seconds without a report, and with a report 1800 from a score of 90,
    900 from 75, 450 from 60 and 225 below 60. *)
Theorem _determine_cache_ttl_by_score (sd : StockData) :
  (data_quality sd = None → _determine_cache_ttl sd = 900) ∧
  (∀ dq, data_quality sd = Some dq →
     ((90 <= quality_score dq)%Q → _determine_cache_ttl sd = 1800) ∧
     ((75 <= quality_score dq)%Q → (quality_score dq < 90)%Q →
        _determine_cache_ttl sd = 900) ∧
     ((60 <= quality_score dq)%Q → (quality_score dq < 75)%Q →
        _determine_cache_ttl sd = 450) ∧
     ((quality_score dq < 60)%Q → _determine_cache_ttl sd = 225)).
Proof.
  unfold _determine_cache_ttl. split.
  - intros ->. reflexivity.
  - intros dq ->. cbv zeta.
    destruct (Qgeb (quality_score dq) 90) eqn:E1,
      (Qgeb (quality_score dq) 75) eqn:E2,
      (Qgeb (quality_score dq) 60) eqn:E3;
      rewrite ?Qgeb_ge, ?Qgeb_lt in *;
      repeat split; intros; first [reflexivity | exfalso; lra].
Qed.

(** C3 at the scores 95 and 30 and at a record without a report. *)
Lemma _determine_cache_ttl_by_score_witness :
  _determine_cache_ttl (set_data_quality (empty_record "AAPL")
                          (report_scoring 95%Q)) = 1800 ∧
  _determine_cache_ttl (set_data_quality (empty_record "AAPL")
                          (report_scoring 30%Q)) = 225 ∧
  _determine_cache_ttl (empty_record "AAPL") = 900.
Proof.
  split; [|split].
  - apply (_determine_cache_ttl_by_score
             (set_data_quality (empty_record "AAPL") (report_scoring 95%Q)))
      with (dq := report_scoring 95%Q); [reflexivity|].
    vm_compute; discriminate.
  - apply (_determine_cache_ttl_by_score
             (set_data_quality (empty_record "AAPL") (report_scoring 30%Q)))
      with (dq := report_scoring 30%Q); [reflexivity|].
    reflexivity.
  - apply (_determine_cache_ttl_by_score (empty_record "AAPL")). reflexivity.
Defined.

(** C4 as stated fails on the freshly started service checked two hours
    after its start: the Yahoo window had closed one hour before, the check
    re-opens it until one hour after the check, which is two hours, not one,
    after the old reset time. *)
Lemma reset_time_restarts_from_now :
  ∃ rl rl',
    rate_limits fresh_service !! YAHOO_FINANCE = Some rl ∧
    datetime_gt (now two_hours_later) (reset_time rl) = Ok true ∧
    rate_limits (snd (_check_rate_limit two_hours_later YAHOO_FINANCE
                        fresh_service)) !! YAHOO_FINANCE = Some rl' ∧
    reset_time rl' ≠ datetime_add (reset_time rl) (timedelta_hours 1) ∧
    reset_time rl'
    = datetime_add (reset_time rl) (timedelta_hours 2).
Proof.
  eexists _, _. split; [reflexivity|]. split; [reflexivity|].
  split; [vm_compute; reflexivity|]. split; [|reflexivity].
  vm_compute. discriminate.
Qed.

(** C4, amended. For a source with a budget whose reset time is naive:
    after [n] recorded requests the counter has grown by [n], and once it
    has reached the limit a check made no later than the reset time denies
    and changes nothing; a check made after the reset time sets the counter
    to 0 and the reset time to the time of the check plus the period of the
    source (one hour, and one day for Alpha Vantage), and allows when the
    limit is positive, as the limits 2000 and 500 are. *)
Theorem rate_limit_window (clk : Clock) (source : DataSource)
    (svc : DataService) (rl : APIRateLimit) :
  rate_limits svc !! source = Some rl →
  aware (reset_time rl) = false →
  (∀ n : nat,
     let svc_n := Nat.iter n (_update_rate_limit source) svc in
     rate_limits svc_n !! source = Some (made_more rl (Z.of_nat n)) ∧
     (requests_limit rl ≤ requests_made rl + Z.of_nat n →
      now_micros clk ≤ micros (reset_time rl) →
      _check_rate_limit clk source svc_n = (false, svc_n))) ∧
  (micros (reset_time rl) < now_micros clk →
     ∃ svc',
       snd (_check_rate_limit clk source svc) = svc' ∧
       rate_limits svc' !! source = Some (reopened clk source rl) ∧
       requests_made (reopened clk source rl) = 0 ∧
       reset_time (reopened clk source rl)
       = datetime_add (now clk) (reset_period source) ∧
       (0 < requests_limit rl →
        fst (_check_rate_limit clk source svc) = true)) ∧
  reset_period YAHOO_FINANCE = timedelta_hours 1 ∧
  reset_period ALPHA_VANTAGE = timedelta_hours 24.
Proof.
  intros Hrl Haw. split; [|split; [|split; reflexivity]].
  - intros n svc_n.
    pose proof (_update_rate_limit_iter source svc rl n Hrl) as Hn.
    fold svc_n in Hn. split; [exact Hn|].
    intros Hlim Hnow.
    rewrite (_check_rate_limit_open clk source svc_n _ Hn Haw Hnow).
    f_equal. unfold is_limit_exceeded, made_more. cbn.
    apply negb_false_iff, Z.leb_le. exact Hlim.
  - intros Hnow.
    rewrite (_check_rate_limit_reopens clk source svc rl Hrl Haw Hnow).
    eexists. split; [reflexivity|]. cbn [snd fst].
    rewrite rate_limits_set_rate_limits, lookup_insert_eq.
    repeat split.
    intros Hpos. apply negb_true_iff, Z.leb_gt. exact Hpos.
Qed.

(** The amended C4 on the freshly started service: 2000 recorded Yahoo
    requests close the window, and a check two hours later re-opens it. *)
Lemma rate_limit_window_witness :
  fst (_check_rate_limit noon YAHOO_FINANCE
         (Nat.iter 2000 (_update_rate_limit YAHOO_FINANCE) fresh_service))
  = false ∧
  fst (_check_rate_limit two_hours_later YAHOO_FINANCE fresh_service) = true.
Proof.
  destruct (rate_limit_window noon YAHOO_FINANCE fresh_service
              {| api_name := "yahoo_finance"; endpoint := "general";
                 requests_made := 0; requests_limit := 2000;
                 reset_time := datetime_add (now noon) (timedelta_hours 1) |}
              eq_refl eq_refl) as (Hclose & _).
  destruct (rate_limit_window two_hours_later YAHOO_FINANCE fresh_service
              {| api_name := "yahoo_finance"; endpoint := "general";
                 requests_made := 0; requests_limit := 2000;
                 reset_time := datetime_add (now noon) (timedelta_hours 1) |}
              eq_refl eq_refl) as (_ & Hopen & _).
  split.
  - destruct (Hclose 2000%nat) as [_ H]. rewrite H; [reflexivity| |].
    + vm_compute; discriminate.
    + vm_compute; discriminate.
  - destruct Hopen as (svc' & _ & _ & _ & _ & H).
    + reflexivity.
    + apply H. reflexivity.
Defined.

(** C10. The check allows, and leaves the service as it was, for a source
    without a budget and whenever its body raises. *)
Theorem _check_rate_limit_fail_open (clk : Clock) (source : DataSource)
    (svc : DataService) :
  (rate_limits svc !! source = None →
     _check_rate_limit clk source svc = (true, svc)) ∧
  (∀ e, _check_rate_limit_body clk source svc = Raise e →
     _check_rate_limit clk source svc = (true, svc)).
Proof.
  unfold _check_rate_limit. split.
  - intros H. unfold _check_rate_limit_body. rewrite H. reflexivity.
  - intros e ->. reflexivity.
Qed.

(** C10 on the freshly started service: MANUAL has no budget, and a Yahoo
    budget whose reset time carries a time zone makes the comparison with
    [datetime.now()] raise, even with the budget used up. *)
Lemma _check_rate_limit_fail_open_witness :
  _check_rate_limit noon MANUAL fresh_service = (true, fresh_service) ∧
  _check_rate_limit noon YAHOO_FINANCE
    (with_aware_reset_time YAHOO_FINANCE
       (with_requests_made YAHOO_FINANCE 2000 fresh_service))
  = (true, with_aware_reset_time YAHOO_FINANCE
             (with_requests_made YAHOO_FINANCE 2000 fresh_service)).
Proof.
  split.
  - apply (_check_rate_limit_fail_open noon MANUAL fresh_service).
    reflexivity.
  - apply (_check_rate_limit_fail_open noon YAHOO_FINANCE) with (e := TypeError).
    reflexivity.
Defined.

(** C2. When the cache does not answer, [get_stock_data] consults the
    candidates ([preferred_source] alone if given, else the priority list) by
    the fallback rule, stated on the answers of the providers: it returns
    nothing when no candidate gives a record, and otherwise the record of
    the first candidate that gives one (with the quality report attached
    when the assessment is enabled). In particular, with the priority Yahoo
    Finance then Alpha Vantage: a record Yahoo Finance gives when its check
    allows is returned; if the check denies Yahoo Finance, or Yahoo Finance
    gives nothing or raises, and the check allows Alpha Vantage, the record
    Alpha Vantage gives is returned. A preferred source is the only
    candidate: its record is returned when its check allows, and nothing
    when the check denies it or its provider gives nothing or raises,
    whatever the other provider has. *)
Theorem get_stock_data_fallback (prov : Providers) (clk : Clock)
    (symbol : string) (force_refresh : bool)
    (preferred_source : option DataSource) (svc : DataService) :
  let key := upper symbol in
  let candidates :=
    match preferred_source with
    | Some s => [s]
    | None => data_source_priority svc
    end in
  let svc0 := snd (cache_lookup clk key force_refresh svc) in
  let returns d s :=
    ∃ r,
      fst (get_stock_data prov clk symbol force_refresh preferred_source svc)
      = Some r
      ∧ record_of clk d s r in
  fst (cache_lookup clk key force_refresh svc) = None →
  (∃ found svc1, consults prov clk key candidates svc0 found svc1) ∧
  (∀ found svc1,
     consults prov clk key candidates svc0 found svc1 →
     match found with
     | None =>
         get_stock_data prov clk symbol force_refresh preferred_source svc
         = (None, svc1)
     | Some (d, s) => returns d s
     end) ∧
  (preferred_source = None →
   data_source_priority svc = [YAHOO_FINANCE; ALPHA_VANTAGE] →
   (fst (_check_rate_limit clk YAHOO_FINANCE svc0) = true →
    ∀ d, yahoo_get_stock_data prov key = Ok (Some d) →
         returns d YAHOO_FINANCE) ∧
   (fst (_check_rate_limit clk YAHOO_FINANCE svc0) = false →
    fst (_check_rate_limit clk ALPHA_VANTAGE
           (snd (_check_rate_limit clk YAHOO_FINANCE svc0))) = true →
    ∀ d, alpha_get_comprehensive_data prov key = Ok (Some d) →
         returns d ALPHA_VANTAGE) ∧
   (fst (_check_rate_limit clk YAHOO_FINANCE svc0) = true →
    (yahoo_get_stock_data prov key = Ok None
     ∨ ∃ e, yahoo_get_stock_data prov key = Raise e) →
    fst (_check_rate_limit clk ALPHA_VANTAGE
           (_update_rate_limit YAHOO_FINANCE
              (snd (_check_rate_limit clk YAHOO_FINANCE svc0)))) = true →
    ∀ d, alpha_get_comprehensive_data prov key = Ok (Some d) →
         returns d ALPHA_VANTAGE)) ∧
  (∀ s, preferred_source = Some s →
     (fst (_check_rate_limit clk s svc0) = true →
      ∀ d, adapter prov s key = Ok (Some d) → returns d s) ∧
     (fst (_check_rate_limit clk s svc0) = false
      ∨ adapter prov s key = Ok None
      ∨ (∃ e, adapter prov s key = Raise e) →
      fst (get_stock_data prov clk symbol force_refresh preferred_source svc)
      = None)).
Proof.
  intros key candidates svc0 returns Hmiss.
  assert (Hgen : ∀ found svc1,
     consults prov clk key candidates svc0 found svc1 →
     match found with
     | None =>
         get_stock_data prov clk symbol force_refresh preferred_source svc
         = (None, svc1)
     | Some (d, s) => returns d s
     end).
  { intros found svc1 Hc. apply consults_try_sources in Hc.
    pose proof (get_stock_data_after_miss prov clk symbol force_refresh
                  preferred_source svc found svc1 Hmiss Hc) as H.
    destruct found as [[d s]|]; [|exact H].
    eexists. split; [exact H|]. apply attach_quality_record_of. }
  split; [|split; [exact Hgen|split]].
  - eexists _, _. apply try_sources_consults.
  - intros Hpref Hprio. subst candidates returns. subst preferred_source.
    rewrite Hprio in Hgen.
    destruct (_check_rate_limit clk YAHOO_FINANCE svc0) as [ay svc1] eqn:Ey.
    cbn [fst snd]. split; [|split].
    + intros -> d Hd.
      apply (Hgen (Some (d, YAHOO_FINANCE)) (asked YAHOO_FINANCE svc1)).
      eapply consults_data; [exact Ey | exact Hd].
    + intros -> Ha d Hd.
      destruct (_check_rate_limit clk ALPHA_VANTAGE svc1) as [aa svc2] eqn:Ea.
      cbn [fst] in Ha. subst aa.
      apply (Hgen (Some (d, ALPHA_VANTAGE)) (asked ALPHA_VANTAGE svc2)).
      eapply consults_denied; [exact Ey|].
      eapply consults_data; [exact Ea | exact Hd].
    + intros -> Hy Ha d Hd.
      destruct (_check_rate_limit clk ALPHA_VANTAGE
                  (_update_rate_limit YAHOO_FINANCE svc1))
        as [aa svc2] eqn:Ea.
      cbn [fst] in Ha. subst aa.
      apply (Hgen (Some (d, ALPHA_VANTAGE)) (asked ALPHA_VANTAGE svc2)).
      destruct Hy as [Hy|[e Hy]].
      * eapply consults_no_data; [exact Ey | exact Hy|].
        eapply consults_data; [exact Ea | exact Hd].
      * eapply consults_raised; [exact Ey | exact Hy|].
        eapply consults_data; [exact Ea | exact Hd].
  - intros s Hpref. subst candidates returns. subst preferred_source.
    destruct (_check_rate_limit clk s svc0) as [allowed svc1] eqn:Es.
    cbn [fst]. split.
    + intros -> d Hd. apply (Hgen (Some (d, s)) (asked s svc1)).
      eapply consults_data; [exact Es | exact Hd].
    + intros [->|[Hn|[e He]]].
      * rewrite (Hgen None svc1); [reflexivity|].
        eapply consults_denied; [exact Es | constructor].
      * destruct allowed.
        -- rewrite (Hgen None (asked s svc1)); [reflexivity|].
           eapply consults_no_data; [exact Es | exact Hn | constructor].
        -- rewrite (Hgen None svc1); [reflexivity|].
           eapply consults_denied; [exact Es | constructor].
      * destruct allowed.
        -- rewrite (Hgen None (asked s svc1)); [reflexivity|].
           eapply consults_raised; [exact Es | exact He | constructor].
        -- rewrite (Hgen None svc1); [reflexivity|].
           eapply consults_denied; [exact Es | constructor].
Qed.

(** C2 on the freshly started service. Yahoo Finance knows AAPL and its
    check allows: its record is returned. With the Yahoo budget used up, and
    with a Yahoo Finance that has nothing, the record of Alpha Vantage is
    returned. With Alpha Vantage preferred and raising, nothing is returned
    although Yahoo Finance knows the symbol. *)
Lemma get_stock_data_fallback_witness :
  (∃ r,
     fst (get_stock_data yahoo_two_symbols noon "aapl" false None
            fresh_service) = Some r
     ∧ record_of noon (empty_record "AAPL") YAHOO_FINANCE r) ∧
  (∃ r,
     fst (get_stock_data alpha_only noon "aapl" false None
            (with_requests_made YAHOO_FINANCE 2000 fresh_service)) = Some r
     ∧ record_of noon (empty_record "AAPL") ALPHA_VANTAGE r) ∧
  (∃ r,
     fst (get_stock_data alpha_only noon "aapl" false None fresh_service)
     = Some r
     ∧ record_of noon (empty_record "AAPL") ALPHA_VANTAGE r) ∧
  fst (get_stock_data yahoo_two_symbols noon "aapl" false (Some ALPHA_VANTAGE)
         fresh_service) = None.
Proof.
  destruct (get_stock_data_fallback yahoo_two_symbols noon "aapl" false None
              fresh_service eq_refl) as (_ & _ & Hprimary & _).
  destruct (Hprimary eq_refl eq_refl) as (Hyahoo & _ & _).
  destruct (get_stock_data_fallback alpha_only noon "aapl" false None
              (with_requests_made YAHOO_FINANCE 2000 fresh_service) eq_refl)
    as (_ & _ & Hused_up & _).
  destruct (Hused_up eq_refl eq_refl) as (_ & Hdenied & _).
  destruct (get_stock_data_fallback alpha_only noon "aapl" false None
              fresh_service eq_refl) as (_ & _ & Hsecondary & _).
  destruct (Hsecondary eq_refl eq_refl) as (_ & _ & Hnothing).
  destruct (get_stock_data_fallback yahoo_two_symbols noon "aapl" false
              (Some ALPHA_VANTAGE) fresh_service eq_refl)
    as (_ & _ & _ & Hpreferred).
  destruct (Hpreferred ALPHA_VANTAGE eq_refl) as (_ & Hnone).
  split; [|split; [|split]].
  - apply Hyahoo; reflexivity.
  - apply Hdenied; reflexivity.
  - apply Hnothing; [reflexivity | left; reflexivity | reflexivity
                     | reflexivity].
  - apply Hnone. right. right. exists ConnectionError. reflexivity.
Defined.




End DataServiceClaims.

(** ** The cache encoding *)

Module PlainLibrariesFacts.

Import CacheService PlainLibraries.

Lemma byte_eqb_refl (c : byte) : Byte.eqb c c = true.
Proof. apply Byte.byte_dec_lb. reflexivity. Qed.

Lemma dec_nat_enc_nat (n : nat) (rest : bytes) :
  dec_nat (enc_nat n ++ rest) = Some (n, rest).
Proof.
  induction n as [|n IH]; [reflexivity|].
  cbn [enc_nat app dec_nat]. change (Byte.eqb "x" ".") with false.
  change (Byte.eqb "x" "x") with true. cbn match. rewrite IH. reflexivity.
Qed.

Lemma dec_Z_enc_Z (z : Z) (rest : bytes) :
  dec_Z (enc_Z z ++ rest) = Some (z, rest).
Proof.
  unfold enc_Z, dec_Z. destruct (z <? 0)%Z eqn:E; cbn [app].
  - change (Byte.eqb "-" "-") with true. cbn match.
    rewrite dec_nat_enc_nat. cbn. apply Z.ltb_lt in E.
    do 2 f_equal. lia.
  - change (Byte.eqb "+" "-") with false. change (Byte.eqb "+" "+") with true.
    cbn match. rewrite dec_nat_enc_nat. cbn. apply Z.ltb_ge in E.
    do 2 f_equal. lia.
Qed.

Lemma dec_str_enc_str (s : string) (rest : bytes) :
  dec_str (enc_str s ++ rest) = Some (s, rest).
Proof.
  unfold enc_str, dec_str. rewrite <- app_assoc, dec_nat_enc_nat. cbn.
  assert (E : (length (list_byte_of_string s)
               <=? length (list_byte_of_string s ++ rest))%nat = true).
  { apply Nat.leb_le. rewrite length_app. lia. }
  rewrite E.
  rewrite (take_app_length (list_byte_of_string s) rest).
  rewrite (drop_app_length (list_byte_of_string s) rest).
  rewrite string_of_list_byte_of_string. reflexivity.
Qed.

Lemma dec_many_flat_map {A} (p : bytes → option (A * bytes))
    (e : A → bytes) (l : list A) (rest : bytes) :
  Forall (λ x, ∀ rest, p (e x ++ rest) = Some (x, rest)) l →
  dec_many p (length l) (flat_map e l ++ rest) = Some (l, rest).
Proof.
  induction 1 as [|x l Hx _ IH]; [reflexivity|].
  cbn [length flat_map dec_many]. rewrite <- app_assoc, Hx. cbn.
  rewrite IH. reflexivity.
Qed.

Lemma length_flat_map_elem {A} (e : A → bytes) (l : list A) (x : A) :
  x ∈ l → (length (e x) ≤ length (flat_map e l))%nat.
Proof.
  induction 1 as [x l | x y l _ IH]; cbn [flat_map]; rewrite length_app; lia.
Qed.

(** Decoding undoes encoding, given fuel for the length of the code. *)
Lemma dec_enc (fuel : nat) :
  ∀ (v : json) (rest : bytes),
    (length (enc v) ≤ fuel)%nat → dec fuel (enc v ++ rest) = Some (v, rest).
Proof.
  induction fuel as [|fuel IH]; intros v rest Hlen.
  { destruct v as [|[]| | | | |]; cbn in Hlen; lia. }
  destruct v as [|[]|n|m e|s|l|d]; try reflexivity.
  - cbn [enc app dec]. change (Byte.eqb "i" "n") with false.
    change (Byte.eqb "i" "t") with false. change (Byte.eqb "i" "f") with false.
    change (Byte.eqb "i" "i") with true. cbn match.
    rewrite dec_Z_enc_Z. reflexivity.
  - cbn [enc app dec]. change (Byte.eqb "d" "n") with false.
    change (Byte.eqb "d" "t") with false. change (Byte.eqb "d" "f") with false.
    change (Byte.eqb "d" "i") with false. change (Byte.eqb "d" "d") with true.
    cbn match. rewrite <- app_assoc, dec_Z_enc_Z. cbn [mbind option_bind].
    rewrite dec_Z_enc_Z. reflexivity.
  - cbn [enc app dec]. change (Byte.eqb "s" "n") with false.
    change (Byte.eqb "s" "t") with false. change (Byte.eqb "s" "f") with false.
    change (Byte.eqb "s" "i") with false. change (Byte.eqb "s" "d") with false.
    change (Byte.eqb "s" "s") with true. cbn match.
    rewrite dec_str_enc_str. reflexivity.
  - cbn [enc app dec] in *. change (Byte.eqb "[" "n") with false.
    change (Byte.eqb "[" "t") with false. change (Byte.eqb "[" "f") with false.
    change (Byte.eqb "[" "i") with false. change (Byte.eqb "[" "d") with false.
    change (Byte.eqb "[" "s") with false. change (Byte.eqb "[" "[") with true.
    cbn match. rewrite <- app_assoc, dec_nat_enc_nat. cbn [mbind option_bind].
    rewrite dec_many_flat_map; [reflexivity|].
    apply Forall_forall. intros x Hx rest'. apply IH.
    pose proof (length_flat_map_elem enc l x Hx) as Hle.
    cbn [length] in Hlen. rewrite length_app in Hlen. lia.
  - cbn [enc app dec] in *. change (Byte.eqb "{" "n") with false.
    change (Byte.eqb "{" "t") with false. change (Byte.eqb "{" "f") with false.
    change (Byte.eqb "{" "i") with false. change (Byte.eqb "{" "d") with false.
    change (Byte.eqb "{" "s") with false. change (Byte.eqb "{" "[") with false.
    change (Byte.eqb "{" "{") with true.
    cbn match. rewrite <- app_assoc, dec_nat_enc_nat. cbn [mbind option_bind].
    rewrite (dec_many_flat_map _ (λ kv, enc_str (fst kv) ++ enc (snd kv)));
      [reflexivity|].
    apply Forall_forall. intros [k x] Hx rest'. cbn [fst snd].
    rewrite <- app_assoc, dec_str_enc_str. cbn [mbind option_bind]. rewrite IH; [reflexivity|].
    pose proof (length_flat_map_elem
                  (λ kv, enc_str (fst kv) ++ enc (snd kv)) d (k, x) Hx) as Hle.
    cbn [fst snd length] in Hle, Hlen. rewrite !length_app in *. lia.
Qed.

Lemma plain_loads_dumps (v : json) (s : string) :
  plain_dumps v = Ok s → plain_loads s = Ok v.
Proof.
  unfold plain_dumps, plain_loads. intros [= <-].
  rewrite list_byte_of_string_of_list_byte.
  rewrite <- (app_nil_r (enc v)) at 2.
  rewrite dec_enc by lia. reflexivity.
Qed.

Lemma plain_first_byte (v : json) (s : string) :
  plain_dumps v = Ok s → head (list_byte_of_string s) ≠ Some "C"%byte.
Proof.
  unfold plain_dumps. intros [= <-].
  rewrite list_byte_of_string_of_list_byte.
  destruct v as [|[]| | | | |]; cbn; discriminate.
Qed.

(** The implementation meets the contracts. *)
#[export] Instance plain_libraries : Libraries := {|
  json_dumps := plain_dumps;
  json_loads := plain_loads;
  str_encode := list_byte_of_string;
  bytes_decode := plain_decode;
  zlib_compress := plain_compress;
  zlib_decompress := plain_decompress;
  pickle_dumps := plain_pickle_dumps;
  pickle_loads := plain_pickle_loads;
  json_dumps_total := λ v _, ex_intro _ _ eq_refl;
  json_loads_dumps := λ v s _, plain_loads_dumps v s;
  json_first_byte := plain_first_byte;
  decode_encode := λ s, f_equal Ok (string_of_list_byte_of_string s);
  decompress_compress := λ b, eq_refl
|}.

End PlainLibrariesFacts.

Module CacheServiceClaims.

Import CacheService.
Local Open Scope Z_scope.

Lemma startswith_app (prefix rest : bytes) :
  startswith prefix (prefix ++ rest) = true.
Proof.
  induction prefix as [|p prefix IH]; [reflexivity|].
  cbn [app startswith]. rewrite PlainLibrariesFacts.byte_eqb_refl. exact IH.
Qed.

(** Bytes that do not begin with a capital C do not begin with the
    marker. *)
Lemma startswith_COMPRESSED_head (data : bytes) :
  head data ≠ Some "C"%byte → startswith COMPRESSED data = false.
Proof.
  destruct data as [|d data]; [reflexivity|]. cbn [head]. intros Hne.
  change COMPRESSED with ("C"%byte :: list_byte_of_string "OMPRESSED:").
  cbn [startswith].
  destruct (Byte.eqb "C" d) eqn:E; [|reflexivity].
  apply Byte.byte_dec_bl in E. congruence.
Qed.

Section with_libraries.
Context `{L : Libraries}.

(** C5. For every well-formed JSON value and every threshold (1024 in the
    service): the serialized form is the encoded JSON text itself, which
    never begins with the marker, when the text is no longer than the
    threshold, and the marker followed by the compressed text when it is
    longer; in both cases [_deserialize] gives the value back. *)
Theorem serialize_deserialize_roundtrip (cfg : Config) (v : json) :
  wf_json v = true →
  ∃ s,
    json_dumps v = Ok s ∧
    startswith COMPRESSED (str_encode s) = false ∧
    (len (str_encode s) ≤ compression_threshold cfg →
       _serialize cfg v = str_encode s) ∧
    (compression_threshold cfg < len (str_encode s) →
       _serialize cfg v = COMPRESSED ++ zlib_compress (str_encode s) ∧
       startswith COMPRESSED (_serialize cfg v) = true) ∧
    _deserialize (_serialize cfg v) = Ok v.
Proof.
  intros Hwf. destruct (json_dumps_total v Hwf) as [s Hs].
  exists s. split; [exact Hs|].
  assert (Hraw : startswith COMPRESSED (str_encode s) = false).
  { apply startswith_COMPRESSED_head. eapply json_first_byte; eauto. }
  split; [exact Hraw|].
  assert (Hser : _serialize cfg v
                 = if compression_threshold cfg <? len (str_encode s)
                   then COMPRESSED ++ zlib_compress (str_encode s)
                   else str_encode s).
  { unfold _serialize. rewrite Hs. reflexivity. }
  split; [|split].
  - intros Hle. rewrite Hser.
    assert (E : (compression_threshold cfg <? len (str_encode s)) = false)
      by (apply Z.ltb_ge; lia).
    rewrite E. reflexivity.
  - intros Hgt. rewrite Hser. apply Z.ltb_lt in Hgt. rewrite Hgt.
    split; [reflexivity | apply startswith_app].
  - rewrite Hser. unfold _deserialize.
    destruct (compression_threshold cfg <? len (str_encode s)).
    + rewrite startswith_app.
      change 11%nat with (length COMPRESSED). rewrite drop_app_length.
      rewrite decompress_compress. cbn. rewrite decode_encode. cbn.
      apply json_loads_dumps; assumption.
    + rewrite Hraw, decode_encode. cbn.
      rewrite (json_loads_dumps v s Hwf Hs). reflexivity.
Qed.

End with_libraries.

Import PlainLibrariesFacts.

(** C5 on a payload below the threshold and on one above it. *)
Lemma serialize_deserialize_roundtrip_witness :
  _deserialize (_serialize default_config PlainLibraries.small_payload)
  = Ok PlainLibraries.small_payload ∧
  _deserialize (_serialize default_config PlainLibraries.large_payload)
  = Ok PlainLibraries.large_payload.
Proof.
  destruct (serialize_deserialize_roundtrip default_config
              PlainLibraries.small_payload eq_refl)
    as (s1 & _ & _ & _ & _ & H1).
  destruct (serialize_deserialize_roundtrip default_config
              PlainLibraries.large_payload eq_refl)
    as (s2 & _ & _ & _ & _ & H2).
  split; assumption.
Defined.

End CacheServiceClaims.

(** ** Further properties of the quality assessor *)

Module DataQualityMore.

Import DataQualityService DataQualityReporting DataQualityFacts Fixtures.
Local Open Scope Z_scope.

(** [emits m P]: the pass returns a value and leaves an output that
    together satisfy [P]. *)
Definition emits {A} (m : W A) (P : A → list Issue → Prop) : Prop :=
  ∃ a, res m = Ok a ∧ P a (out m).

Lemma emits_ret {A} (a : A) (P : A → list Issue → Prop) :
  P a [] → emits (mret a) P.
Proof. intros H. exists a. split; [reflexivity | exact H]. Qed.

Lemma emits_bind {A B} (m : W A) (f : A → W B)
    (P : A → list Issue → Prop) (Q : B → list Issue → Prop) :
  emits m P →
  (∀ a o, P a o → emits (f a) (λ b o', Q b (o ++ o'))) →
  emits (m ≫= f) Q.
Proof.
  intros (a & Ha & HP) Hf. destruct (Hf a (out m) HP) as (b & Hb & HQ).
  exists b. rewrite (res_bind_Ok _ _ _ Ha), (out_bind_Ok _ _ _ Ha). auto.
Qed.

Lemma emits_append (i : Issue) (P : unit → list Issue → Prop) :
  P tt [i] → emits (append i) P.
Proof. intros H. exists tt. split; [reflexivity | exact H]. Qed.

Lemma emits_weaken {A} (m : W A) (P Q : A → list Issue → Prop) :
  emits m P → (∀ a o, P a o → Q a o) → emits m Q.
Proof. intros (a & Ha & HP) H. exists a. auto. Qed.

Lemma emits_try_body {A} (m : W A) (h : Exception → W A)
    (P : A → list Issue → Prop) :
  emits m P → emits (try_except m h) P.
Proof.
  intros (a & Ha & HP). rewrite (try_except_Ok m h a Ha). exists a. auto.
Qed.

Lemma emits_yields {A} (m : W A) (P : A → list Issue → Prop) :
  emits m P → yields m (λ a, P a (out m)).
Proof. intros (a & Ha & HP). exists a. auto. Qed.

Lemma bind_Ok_eq {A B} (m : W A) (f : A → W B) (a : A) :
  res m = Ok a → m ≫= f = {| res := res (f a); out := out m ++ out (f a) |}.
Proof. unfold mbind, W_bind. intros ->. reflexivity. Qed.

(** *** Completeness and its issues *)

(** A block completes exactly the fields it adds if and only if it appends
    no issue. *)
Definition exact (acc acc' : Z * Z) (o : list Issue) : Prop :=
  grows acc acc' ∧ (o = [] ↔ snd acc' - snd acc = fst acc' - fst acc).

Lemma exact_trans a b c o1 o2 :
  exact a b o1 → exact b c o2 → exact a c (o1 ++ o2).
Proof.
  unfold exact, grows. intros [G1 E1] [G2 E2]. split; [lia|].
  split.
  - intros H. apply app_eq_nil in H as [H1 H2].
    apply E1 in H1. apply E2 in H2. lia.
  - intros H.
    assert (H1 : snd b - snd a = fst b - fst a) by lia.
    assert (H2 : snd c - snd b = fst c - fst b) by lia.
    apply E1 in H1. apply E2 in H2. subst. reflexivity.
Qed.

Lemma for_fields_exact mk fields acc :
  emits (for_fields mk fields acc)
    (λ acc' o, exact acc acc' o ∧ fst acc' = fst acc + len fields).
Proof.
  revert acc. induction fields as [|[name present] rest IH]; intros [t c].
  - apply emits_ret. unfold exact, grows, len. cbn. split; [|lia].
    split; [lia|]. split; [lia | reflexivity].
  - cbn [for_fields].
    eapply emits_bind
      with (P := λ c' o, exact (t, c) (t + 1, c') o).
    + destruct present.
      * apply emits_ret. unfold exact, grows. cbn. split; [lia|].
        split; [lia | reflexivity].
      * eapply emits_bind with (P := λ _ o, o = [mk name]).
        { apply emits_append. reflexivity. }
        intros [] o ->. apply emits_ret. unfold exact, grows. cbn.
        split; [lia|]. split; [discriminate | lia].
    + intros c' o Ho. eapply emits_weaken; [apply IH|].
      intros [t' c''] o' [He Ht]. cbn [fst snd] in *. split.
      * eapply exact_trans; eassumption.
      * unfold len in *. cbn [length]. rewrite Nat2Z.inj_succ. lia.
Qed.

(** One presence test of [for_statements]. *)
Lemma presence_exact (present : bool) (i : Issue) (t c : Z) :
  emits (if present then mret (c + 1) else append i;; mret c)
    (λ c' o, 0 ≤ c' - c ≤ 1 ∧ (o = [] ↔ c' = c + 1)).
Proof.
  destruct present.
  - apply emits_ret. split; [lia|]. split; [lia | reflexivity].
  - eapply emits_bind with (P := λ _ o, o = [i]).
    { apply emits_append. reflexivity. }
    intros [] o ->. apply emits_ret. split; [lia|].
    split; [discriminate | lia].
Qed.

Lemma for_statements_exact stmts acc :
  emits (for_statements stmts acc) (exact acc).
Proof.
  revert acc. induction stmts as [|stmt rest IH]; intros [t c].
  - apply emits_ret. unfold exact, grows. cbn. split; [lia|].
    split; [lia | reflexivity].
  - cbn [for_statements].
    eapply emits_bind; [apply (presence_exact _ _ t c)|].
    intros c1 o1 [B1 E1].
    eapply emits_bind; [apply (presence_exact _ _ t c1)|].
    intros c2 o2 [B2 E2].
    eapply emits_bind; [apply (presence_exact _ _ t c2)|].
    intros c3 o3 [B3 E3].
    eapply emits_weaken; [apply IH|].
    intros acc' o4 H4. rewrite !app_assoc.
    eapply exact_trans; [|exact H4].
    unfold exact, grows. cbn [fst snd]. split; [lia|]. split.
    + intros H. apply app_eq_nil in H as [H H3'].
      apply app_eq_nil in H as [H1' H2'].
      apply E1 in H1'. apply E2 in H2'. apply E3 in H3'. lia.
    + intros H.
      assert (H1 : c1 = c + 1) by lia. assert (H2 : c2 = c1 + 1) by lia.
      assert (H3 : c3 = c2 + 1) by lia.
      apply E1 in H1. apply E2 in H2. apply E3 in H3. subst. reflexivity.
Qed.

Lemma missing_block_exact (i : Issue) (t c n : Z) :
  0 < n →
  emits (append i;; mret (t + n, c))
    (λ acc' o, exact (t, c) acc' o ∧ fst acc' = t + n).
Proof.
  intros Hn. eapply emits_bind with (P := λ _ o, o = [i]).
  { apply emits_append. reflexivity. }
  intros [] o ->. apply emits_ret. unfold exact, grows. cbn.
  split; [|reflexivity]. split; [lia|]. split; [discriminate | lia].
Qed.

Lemma completeness_company_exact sd acc :
  emits (completeness_company sd acc)
    (λ acc' o, exact acc acc' o ∧ fst acc' = fst acc + 7).
Proof.
  unfold completeness_company. destruct (company_info sd) as [ci|].
  - apply for_fields_exact.
  - destruct acc as [t c]. cbn [fst snd].
    apply (missing_block_exact _ t c 7). lia.
Qed.

Lemma completeness_current_price_exact sd acc :
  emits (completeness_current_price sd acc) (exact acc).
Proof.
  unfold completeness_current_price. destruct (current_price sd) as [p|].
  - eapply emits_weaken; [apply for_fields_exact|]. intros ? ? [H _]. exact H.
  - destruct acc as [t c]. cbn [fst snd].
    eapply emits_weaken; [apply (missing_block_exact _ t c 5); lia|].
    intros ? ? [H _]. exact H.
Qed.

(** A graded bonus of two fields: full, partial with an issue, or none with
    an issue. *)
Lemma bonus_exact (full partial : bool) (i1 i2 : Issue) (c : Z) :
  emits (if full then mret (c + 2)
         else if partial then append i1;; mret (c + 1)
         else append i2;; mret c)
    (λ c' o, 0 ≤ c' - c ≤ 2 ∧ (o = [] ↔ c' = c + 2)).
Proof.
  destruct full; [|destruct partial].
  - apply emits_ret. split; [lia|]. split; [lia | reflexivity].
  - eapply emits_bind with (P := λ _ o, o = [i1]).
    { apply emits_append. reflexivity. }
    intros [] o ->. apply emits_ret. split; [lia|].
    split; [discriminate | lia].
  - eapply emits_bind with (P := λ _ o, o = [i2]).
    { apply emits_append. reflexivity. }
    intros [] o ->. apply emits_ret. split; [lia|].
    split; [discriminate | lia].
Qed.

Lemma completeness_historical_exact sd acc :
  emits (completeness_historical sd acc) (exact acc).
Proof.
  unfold completeness_historical. destruct acc as [t c].
  destruct (truthy_list (historical_prices sd)).
  - eapply emits_bind; [apply bonus_exact|].
    intros c' o [B E]. apply emits_ret. rewrite app_nil_r.
    unfold exact, grows. cbn [fst snd]. split; [lia|].
    rewrite E. lia.
  - eapply emits_weaken; [apply (missing_block_exact _ t c 2); lia|].
    intros ? ? [H _]. exact H.
Qed.

Lemma completeness_statements_exact clk sd acc :
  emits (completeness_statements clk sd acc) (exact acc).
Proof.
  unfold completeness_statements. destruct acc as [t c].
  destruct (truthy_list (financial_statements sd)).
  - cbv zeta. eapply emits_bind; [apply bonus_exact|].
    intros c' o [B E].
    eapply emits_weaken; [apply for_statements_exact|].
    intros acc' o' H'. eapply exact_trans; [|exact H'].
    unfold exact, grows. cbn [fst snd]. split; [lia|]. rewrite E. lia.
  - eapply emits_weaken; [apply (missing_block_exact _ t c 8); lia|].
    intros ? ? [H _]. exact H.
Qed.

Lemma ratio_percent_100 (c t : Z) :
  0 < t → (inject_Z c / inject_Z t * 100 == 100)%Q ↔ c = t.
Proof.
  intros Ht.
  assert (Ht' : ¬ (inject_Z t == 0)%Q).
  { intros H. apply (proj1 (inject_Z_injective t 0)) in H. lia. }
  split.
  - intros H.
    assert (H1 : (inject_Z c / inject_Z t == 1)%Q) by lra.
    assert (H2 : (inject_Z c == inject_Z t)%Q).
    { rewrite <- (Qmult_div_r (inject_Z c) (inject_Z t)) by exact Ht'.
      rewrite H1. ring. }
    exact (proj1 (inject_Z_injective c t) H2).
  - intros ->. field. exact Ht'.
Qed.

(** The completeness score is 100 exactly when the completeness pass
    reports no issue. *)
Theorem completeness_perfect_iff_no_issue (clk : Clock) (sd : StockData) :
  ∃ q,
    res (_assess_completeness clk sd) = Ok q ∧
    ((q == 100)%Q ↔ out (_assess_completeness clk sd) = []).
Proof.
  assert (H : emits (_assess_completeness clk sd)
                (λ q o, (q == 100)%Q ↔ o = [])).
  { unfold _assess_completeness. apply emits_try_body.
    eapply emits_bind; [apply completeness_company_exact|].
    intros a1 o1 [E1 T1].
    eapply emits_bind; [apply completeness_current_price_exact|].
    intros a2 o2 E2.
    eapply emits_bind; [apply completeness_historical_exact|].
    intros a3 o3 E3.
    eapply emits_bind; [apply completeness_statements_exact|].
    intros [t c] o4 E4.
    apply emits_ret. rewrite app_nil_r.
    pose proof (exact_trans _ _ _ _ _
                  (exact_trans _ _ _ _ _
                     (exact_trans _ _ _ _ _ E1 E2) E3) E4) as [G E].
    destruct E1 as [G1 _], E2 as [G2 _], E3 as [G3 _], E4 as [G4 _].
    unfold grows in *. cbn [fst snd] in *.
    assert (Ht : 0 < t) by lia.
    apply Z.ltb_lt in Ht as Ht'. rewrite Ht'.
    rewrite ratio_percent_100 by exact Ht.
    rewrite <- !app_assoc in E. rewrite E. lia. }
  destruct H as (q & Hq & HP). exists q. split; [exact Hq | exact HP].
Qed.

(** *** The validators *)

Lemma _validate_price_data_emits (price : StockPrice) (silent : bool) :
  emits (_validate_price_data price silent)
    (λ s o, 20 ≤ s ≤ 100 ∧ (silent = true → o = [])).
Proof.
  { unfold _validate_price_data. apply emits_try_body. cbv zeta.
    assert (Hnote : ∀ (i : Issue) (v : Z),
              emits (note silent i;; mret v)
                (λ s o, s = v ∧ (silent = true → o = []))).
    { intros i v. unfold note. destruct silent.
      - apply emits_ret. auto.
      - eapply emits_bind with (P := λ _ _, True).
        { apply emits_append. exact I. }
        intros [] o _. apply emits_ret. split; [reflexivity | discriminate]. }
    assert (Hstep : ∀ (b : bool) (i : Issue) (v d : Z),
              0 ≤ d →
              emits (if b then note silent i;; mret (v - d) else mret v)
                (λ s o, v - d ≤ s ≤ v ∧ (silent = true → o = []))).
    { intros b i v d Hd. destruct b.
      - eapply emits_weaken; [apply Hnote|]. intros s o [-> Ho].
        split; [lia | exact Ho].
      - apply emits_ret. split; [lia | reflexivity]. }
    assert (Happ : ∀ o1 o2 : list Issue,
              (silent = true → o1 = []) → (silent = true → o2 = []) →
              silent = true → o1 ++ o2 = []).
    { intros o1 o2 H1 H2 Hs. rewrite (H1 Hs), (H2 Hs). reflexivity. }
    set (cb := truthy_Q (close_price price)).
    eapply emits_bind
      with (P := λ s o, (if cb then s = 100 else s = 70)
                        ∧ (silent = true → o = [])).
    { destruct cb; cbn [negb].
      - apply emits_ret. auto.
      - apply Hnote. }
    intros s0 o0 [Hs0 Ho0].
    eapply emits_bind
      with (P := λ s o, (if cb then 60 ≤ s ≤ 100 else s = 70)
                        ∧ (silent = true → o = [])).
    { destruct (open_price price) as [o|], (high_price price) as [h|],
        (low_price price) as [l|];
        try (apply emits_ret; split; [destruct cb; lia | reflexivity]).
      destruct cb.
      2:{ rewrite andb_false_r. apply emits_ret.
          split; [lia | reflexivity]. }
      subst s0. destruct (_ && _);
        [|apply emits_ret; split; [lia | reflexivity]].
      eapply emits_bind; [apply (Hstep _ _ 100 20); lia|].
      intros s1 o1 [B1 Ho1].
      eapply emits_weaken; [apply (Hstep _ _ s1 20); lia|].
      intros s2 o2 [B2 Ho2]. split; [lia | apply Happ; assumption]. }
    intros s1 o1 [Hs1 Ho1].
    eapply emits_bind
      with (P := λ s o, (if cb then 35 ≤ s ≤ 100 else s = 70)
                        ∧ (silent = true → o = [])).
    { destruct cb.
      - cbn [andb]. eapply emits_weaken; [apply (Hstep _ _ s1 25); lia|].
        intros s2 o2 [B2 Ho2]. split; [lia | exact Ho2].
      - cbn [andb]. apply emits_ret. split; [exact Hs1 | reflexivity]. }
    intros s2 o2 [Hs2 Ho2].
    eapply emits_bind
      with (P := λ s o, 20 ≤ s ≤ 100 ∧ (silent = true → o = [])).
    { destruct (volume price) as [v|].
      - eapply emits_weaken; [apply (Hstep _ _ s2 15); lia|].
        intros s3 o3 [B3 Ho3]. split; [destruct cb; lia | exact Ho3].
      - apply emits_ret. split; [destruct cb; lia | reflexivity]. }
    intros s3 o3 [Hs3 Ho3]. apply emits_ret. rewrite app_nil_r.
    split; [lia|]. intros Hs.
    rewrite (Ho0 Hs), (Ho1 Hs), (Ho2 Hs), (Ho3 Hs). reflexivity. }
Qed.

(** [_validate_price_data] never raises and never deducts more than 80;
    called with [silent=True] it appends nothing. *)
Theorem _validate_price_data_range (price : StockPrice) (silent : bool) :
  ∃ s,
    res (_validate_price_data price silent) = Ok s ∧
    20 ≤ s ≤ 100 ∧
    (silent = true → out (_validate_price_data price silent) = []).
Proof.
  destruct (_validate_price_data_emits price silent) as (s & Hs & HP).
  exists s. split; [exact Hs | exact HP].
Qed.

Lemma count_valid_silent (l : list StockPrice) (valid : Z) :
  count_valid (λ price, _validate_price_data price true) l valid
  = {| res := Ok (valid + len l); out := [] |}.
Proof.
  revert valid. induction l as [|p l IH]; intros valid.
  - unfold len. cbn. rewrite Z.add_0_r. reflexivity.
  - cbn [count_valid].
    destruct (_validate_price_data_emits p true) as (s & Hs & Hr & Ho).
    rewrite (bind_Ok_eq _ _ _ Hs), (Ho eq_refl).
    assert (Ht : truthy_Z s = true).
    { unfold truthy_Z. apply negb_true_iff, Z.eqb_neq. lia. }
    rewrite Ht, IH. unfold len. cbn [length res out app].
    rewrite Nat2Z.inj_succ. do 2 f_equal. lia.
Qed.

Lemma len_firstn {A} (n : nat) (l : list A) :
  len (firstn n l) = Z.min (Z.of_nat n) (len l).
Proof. unfold len. rewrite length_firstn. lia. Qed.

Lemma percent_lt_90 (a n : Z) :
  0 < n →
  Qltb (inject_Z a / inject_Z n * 100) 90 = true ↔ 100 * a < 90 * n.
Proof.
  intros Hn. rewrite Qltb_lt.
  assert (Hn' : (0 < inject_Z n)%Q).
  { change 0%Q with (inject_Z 0). rewrite <- Zlt_Qlt. exact Hn. }
  assert (E : (inject_Z a / inject_Z n * 100
               == inject_Z (100 * a) / inject_Z n)%Q).
  { rewrite inject_Z_mult. field. intros H. rewrite H in Hn'.
    revert Hn'. apply Qlt_irrefl. }
  rewrite E. split.
  - intros H. destruct (Z.lt_ge_cases (100 * a) (90 * n)) as [|Hge];
      [assumption|]. exfalso.
    apply (Qlt_not_le _ _ H). apply Qle_shift_div_l; [exact Hn'|].
    change 90%Q with (inject_Z 90). rewrite <- inject_Z_mult.
    rewrite <- Zle_Qle. exact Hge.
  - intros H. apply Qlt_shift_div_r; [exact Hn'|].
    change 90%Q with (inject_Z 90). rewrite <- inject_Z_mult.
    rewrite <- Zlt_Qlt. exact H.
Qed.

(** For a record with [n ≥ 1] historical prices the historical component
    of the accuracy score is [min(n,30) / n * 100], whatever the prices are:
    every examined price counts as valid, and the count is divided by [n]. An
    issue is appended exactly when [n] is 34 or more. *)
Theorem accuracy_historical_formula (sd : StockData) :
  historical_prices sd ≠ [] →
  let n := len (historical_prices sd) in
  let examined := Z.min 30 n in
  accuracy_historical sd
  = {| res := Ok [(inject_Z examined / inject_Z n * 100)%Q];
       out := if 34 <=? n
              then [Historical_price_validation_issues examined n]
              else [] |}.
Proof.
  intros Hne n examined. unfold accuracy_historical.
  assert (Ht : truthy_list (historical_prices sd) = true)
    by (destruct (historical_prices sd); [congruence | reflexivity]).
  rewrite Ht. rewrite count_valid_silent. rewrite Z.add_0_l.
  pose proof (len_pos _ Ht) as Hpos. fold n in Hpos |- *.
  rewrite (len_firstn 30 (historical_prices sd)).
  change (Z.of_nat 30) with 30. fold n. fold examined.
  rewrite bind_Ok_eq with (a := examined) by reflexivity.
  cbn [res out app]. cbv zeta.
  apply Z.ltb_lt in Hpos as Hpos'. rewrite Hpos'.
  destruct (Qltb (inject_Z examined / inject_Z n * 100) 90) eqn:E.
  - apply percent_lt_90 in E; [|exact Hpos].
    assert (H34 : (34 <=? n) = true) by (apply Z.leb_le; lia).
    rewrite H34. reflexivity.
  - assert (H34 : (34 <=? n) = false).
    { apply Z.leb_gt. destruct (Z.lt_ge_cases n 34) as [|Hge]; [assumption|].
      exfalso. assert (Hlt : 100 * examined < 90 * n) by lia.
      apply percent_lt_90 in Hlt; [|exact Hpos]. congruence. }
    rewrite H34. reflexivity.
Qed.

(** The formula on sixty days of prices. *)
Lemma accuracy_historical_formula_witness :
  accuracy_historical sixty_days
  = {| res := Ok [(inject_Z 30 / inject_Z 60 * 100)%Q];
       out := [Historical_price_validation_issues 30 60] |}.
Proof.
  apply (accuracy_historical_formula sixty_days). discriminate.
Defined.

Lemma truthy_Q_nonzero (x : Q) : truthy_Q x = true → Qeq_bool x 0 = false.
Proof. unfold truthy_Q. apply negb_true_iff. Qed.

Lemma validate_balance_le stmt silent score :
  yields (validate_balance stmt silent score)
    (λ s, score - 30 ≤ s ≤ score).
Proof.
  unfold validate_balance.
  destruct (balance_sheet stmt) as [bs|]; [|apply yields_ret; lia].
  destruct (total_assets bs) as [ta|], (total_liabilities bs) as [tl|],
    (total_equity bs) as [te|]; try (apply yields_ret; lia).
  destruct (truthy_Q ta) eqn:Hta; [|apply yields_ret; lia].
  destruct (truthy_Q tl); [|apply yields_ret; lia].
  destruct (truthy_Q te); [|apply yields_ret; lia].
  cbn [andb]. cbv zeta. unfold Qdiv_py.
  rewrite (truthy_Q_nonzero ta Hta).
  eapply yields_bind with (P := λ _, True).
  { exists (Qabs (ta - (tl + te)) / ta)%Q. split; [reflexivity | exact I]. }
  intros ratio _. destruct (Qgtb ratio _); repeat pass_step; lia.
Qed.

Lemma validate_income_ge stmt silent score :
  yields (validate_income stmt silent score) (λ s, score - 20 ≤ s ≤ score).
Proof.
  unfold validate_income.
  destruct (income_statement stmt) as [inc|]; [|apply yields_ret; lia].
  destruct (revenue inc) as [r|]; [|apply yields_ret; lia].
  destruct (_ && _); repeat pass_step; lia.
Qed.

(** [_validate_financial_statement] never raises; it gives 0 exactly to a
    statement without any of its three documents and at least 50 to any
    other. *)
Theorem _validate_financial_statement_range (stmt : FinancialStatement)
    (silent : bool) :
  ∃ s,
    res (_validate_financial_statement stmt silent) = Ok s ∧
    (s = 0 ↔ income_statement stmt = None ∧ balance_sheet stmt = None
             ∧ cash_flow_statement stmt = None) ∧
    (s ≠ 0 → 50 ≤ s ≤ 100).
Proof.
  change (yields (_validate_financial_statement stmt silent)
            (λ s, (s = 0 ↔ income_statement stmt = None
                           ∧ balance_sheet stmt = None
                           ∧ cash_flow_statement stmt = None)
                  ∧ (s ≠ 0 → 50 ≤ s ≤ 100))).
  unfold _validate_financial_statement. apply yields_try_body.
  cbv zeta.
  destruct (is_not_None (income_statement stmt)
            || is_not_None (balance_sheet stmt)
            || is_not_None (cash_flow_statement stmt)) eqn:Hany;
    cbn [negb].
  - eapply yields_bind; [apply validate_income_ge|]. intros s1 H1.
    eapply yields_bind; [apply validate_balance_le|]. intros s2 H2.
    cbn beta in H1, H2. apply yields_ret.
    split; [|intros _; lia]. split; [lia|].
    intros (Hi & Hb & Hc). rewrite Hi, Hb, Hc in Hany. discriminate.
  - repeat pass_step. split; [|congruence]. split; [|reflexivity].
    intros _.
    destruct (income_statement stmt), (balance_sheet stmt),
      (cash_flow_statement stmt); try discriminate. auto.
Qed.

(** [_validate_company_info] never raises and never deducts more than
    75. *)
Theorem _validate_company_info_range (ci : CompanyInfo) :
  ∃ s, res (_validate_company_info ci) = Ok s ∧ 25 ≤ s ≤ 100.
Proof.
  change (yields (_validate_company_info ci) (λ s, 25 ≤ s ≤ 100)).
  unfold _validate_company_info. apply yields_try_body.
  cbv zeta.
  eapply yields_bind with (P := λ s, 70 ≤ s ≤ 100).
  { destruct (negb _); repeat pass_step; lia. }
  intros s1 H1.
  eapply yields_bind with (P := λ s, 50 ≤ s ≤ 100).
  { destruct (market_cap ci) as [mc|]; [destruct (_ && _)|];
      repeat pass_step; lia. }
  intros s2 H2.
  eapply yields_bind with (P := λ s, 35 ≤ s ≤ 100).
  { destruct (trailing_pe ci) as [pe|]; [destruct (_ && _)|];
      repeat pass_step; lia. }
  intros s3 H3.
  eapply yields_bind with (P := λ s, 25 ≤ s ≤ 100).
  { destruct (beta ci) as [b|]; [destruct (_ && _)|];
      repeat pass_step; lia. }
  intros s4 H4. apply yields_ret. lia.
Qed.

(** *** Consistency *)

Definition at_least_50 (q : Q) : Prop := (50 <= q ∧ q <= 100)%Q.

Lemma Qsum_between (lo hi : Q) (l : list Q) :
  Forall (λ x, (lo <= x ∧ x <= hi)%Q) l →
  (lo * inject_Z (len l) <= Qsum l ∧ Qsum l <= hi * inject_Z (len l))%Q.
Proof.
  induction 1 as [|x l [Hx0 Hx1] _ [IH0 IH1]].
  - change (inject_Z (len (@nil Q))) with 0%Q. cbn. lra.
  - unfold len in *. cbn [Qsum fold_right length].
    fold (Qsum l). rewrite Nat2Z.inj_succ, <- Z.add_1_r, inject_Z_plus.
    change (inject_Z 1) with 1%Q. split; lra.
Qed.

Lemma mean_between (lo hi : Q) (l : list Q) :
  l ≠ [] → Forall (λ x, (lo <= x ∧ x <= hi)%Q) l →
  (lo <= mean l ∧ mean l <= hi)%Q.
Proof.
  intros Hne Hl. destruct (Qsum_between lo hi l Hl) as [H0 H1].
  assert (Hn : (0 < inject_Z (len l))%Q).
  { change 0%Q with (inject_Z 0). rewrite <- Zlt_Qlt. unfold len.
    destruct l; [congruence|]. cbn [length]. lia. }
  unfold mean. split.
  - apply Qle_shift_div_l; [exact Hn|]. lra.
  - apply Qle_shift_div_r; [exact Hn|]. lra.
Qed.

Ltac one_check_50 :=
  constructor; [split; cbn; lra | constructor].

(** [_assess_consistency] never raises and never gives less than 50: every
    check it averages is 50 or more, and the symbol check is always
    there. *)
Theorem _assess_consistency_at_least_50 (sd : StockData) :
  ∃ q, res (_assess_consistency sd) = Ok q ∧ at_least_50 q.
Proof.
  change (yields (_assess_consistency sd) at_least_50).
  unfold _assess_consistency. apply yields_try_body.
  eapply yields_bind
    with (P := λ c, c ≠ [] ∧ Forall at_least_50 c).
  { unfold consistency_symbols. cbv zeta.
    destruct (_ =? _)%nat; repeat pass_step;
      (split; [discriminate | one_check_50]). }
  intros c1 [N1 H1].
  eapply yields_bind with (P := Forall at_least_50).
  { unfold consistency_dates. cbv zeta.
    repeat match goal with |- context [if ?b then _ else _] => destruct b end;
      repeat pass_step; try one_check_50; constructor. }
  intros c2 H2.
  eapply yields_bind with (P := Forall at_least_50).
  { unfold consistency_statement_intervals. cbv zeta.
    repeat match goal with |- context [if ?b then _ else _] => destruct b end;
      repeat pass_step; try one_check_50; constructor. }
  intros c3 H3.
  eapply yields_bind with (P := Forall at_least_50).
  { unfold consistency_outliers. cbv zeta.
    repeat match goal with |- context [if ?b then _ else _] => destruct b end;
      repeat pass_step; try one_check_50; constructor. }
  intros c4 H4. apply yields_ret. cbv zeta.
  destruct c1 as [|x c1]; [congruence|]. cbn [app truthy_list].
  apply (mean_between 50 100); [discriminate|].
  change (x :: c1 ++ c2 ++ c3 ++ c4) with ((x :: c1) ++ c2 ++ c3 ++ c4).
  repeat (apply Forall_app; split); assumption.
Qed.

(** *** Freshness of a record with a time zone *)

Lemma yields_out {A} (m : W A) (P : A → Prop) :
  yields m P → ∃ a, m = {| res := Ok a; out := out m |} ∧ P a.
Proof. intros (a & Ha & HP). exists a. destruct m. cbn in *. subst. auto. Qed.

(** When [last_updated] carries a time zone, subtracting it from
    [datetime.now()] raises: the freshness pass gives 0, keeps the issues of
    the three steps that ran before, and ends the list with the failure. *)
Theorem _assess_freshness_aware_timestamp (clk : Clock) (sd : StockData) :
  aware (last_updated sd) = true →
  _assess_freshness clk sd
  = {| res := Ok 0%Q;
       out := out (freshness_current_price clk sd)
              ++ out (freshness_historical clk sd)
              ++ out (freshness_statements clk sd)
              ++ [Freshness_assessment_failed TypeError] |}.
Proof.
  intros Haw. unfold _assess_freshness.
  destruct (freshness_current_price_in_range clk sd) as (s1 & H1 & _).
  destruct (freshness_historical_in_range clk sd) as (s2 & H2 & _).
  destruct (freshness_statements_in_range clk sd) as (s3 & H3 & _).
  rewrite (bind_Ok_eq _ _ _ H1), (bind_Ok_eq _ _ _ H2), (bind_Ok_eq _ _ _ H3).
  unfold freshness_overall, datetime_sub. cbn [now aware]. rewrite Haw.
  cbn. rewrite !app_nil_r, <- !app_assoc. reflexivity.
Qed.

(** The property on a record whose timestamp carries a time zone. *)
Lemma _assess_freshness_aware_timestamp_witness :
  res (_assess_freshness noon
         {| symbol := "AAPL"; company_info := None; current_price := None;
            historical_prices := []; financial_statements := [];
            data_quality := None;
            last_updated := {| micros := 0; aware := true |} |})
  = Ok 0%Q.
Proof.
  rewrite _assess_freshness_aware_timestamp; reflexivity.
Defined.

(** *** The issues of a report *)

(** The report lists the issues of the four passes in the order
    completeness, freshness, accuracy, consistency, each pass in the order
    it found them. *)
Theorem assess_stock_data_quality_issues (clk : Clock) (sd : StockData)
    (data_source : DataSource) :
  ∃ m,
    assess_stock_data_quality clk sd data_source = Ok m ∧
    issues m
    = out (_assess_completeness clk sd) ++ out (_assess_freshness clk sd)
      ++ out (_assess_accuracy sd) ++ out (_assess_consistency sd).
Proof.
  destruct (_assess_completeness_in_range clk sd) as (c & Hc & Rc).
  destruct (_assess_freshness_in_range clk sd) as (f & Hf & Rf).
  destruct (_assess_accuracy_in_range sd) as (a & Ha & Ra).
  destruct (_assess_consistency_in_range sd) as (k & Hk & Rk).
  assert (Rq : in_range (overall_quality c f a k)).
  { unfold overall_quality, weight_completeness, weight_freshness,
      weight_accuracy, weight_consistency.
    destruct Rc, Rf, Ra, Rk. split; lra. }
  assert (Hp : assess_passes clk sd
               = {| res := Ok (c, f, a, k);
                    out := out (_assess_completeness clk sd)
                           ++ out (_assess_freshness clk sd)
                           ++ out (_assess_accuracy sd)
                           ++ out (_assess_consistency sd) |}).
  { unfold assess_passes.
    rewrite (bind_Ok_eq _ _ _ Hc), (bind_Ok_eq _ _ _ Hf),
      (bind_Ok_eq _ _ _ Ha), (bind_Ok_eq _ _ _ Hk).
    cbn [res out]. rewrite !app_nil_r. reflexivity. }
  eexists. unfold assess_stock_data_quality. rewrite Hp. cbn [res out].
  unfold DataQualityMetrics_new.
  rewrite !validate_score_range_ok by (apply round2_in_range; assumption).
  split; reflexivity.
Qed.

(** *** Grades, levels and recommendations *)

(** Two scores get the same quality level exactly when they get the same
    letter grade. *)
Theorem quality_level_follows_grade (x y : Q) :
  _get_quality_level x = _get_quality_level y
  ↔ get_quality_grade x = get_quality_grade y.
Proof.
  unfold _get_quality_level, get_quality_grade, threshold_excellent,
    threshold_good, threshold_fair, threshold_poor.
  destruct (Qgeb x 90), (Qgeb x 75), (Qgeb x 60), (Qgeb x 40),
    (Qgeb y 90), (Qgeb y 75), (Qgeb y 60), (Qgeb y 40);
    split; intros H; first [reflexivity | discriminate H].
Qed.

(** The grade and the level of a generated report are those of its overall
    score, and its issue count is the length of its issue list. *)
Theorem generate_quality_report_consistent (m : DataQualityMetrics) :
  let r := generate_quality_report m in
  overall_grade r = get_quality_grade (overall_score r) ∧
  quality_level r = _get_quality_level (overall_score r) ∧
  issues_count r = len (qr_issues r) ∧
  (overall_grade r = "F"%string ↔ (overall_score r < 40)%Q).
Proof.
  cbv zeta. cbn [generate_quality_report overall_grade overall_score
                   quality_level issues_count qr_issues].
  repeat split; try reflexivity.
  - unfold get_quality_grade, threshold_excellent, threshold_good,
      threshold_fair, threshold_poor.
    destruct (Qgeb (quality_score m) 90), (Qgeb (quality_score m) 75),
      (Qgeb (quality_score m) 60), (Qgeb (quality_score m) 40) eqn:E;
      try discriminate.
    intros _. apply Qgeb_lt. exact E.
  - intros H. apply Qgeb_lt in H.
    unfold get_quality_grade, threshold_excellent, threshold_good,
      threshold_fair, threshold_poor.
    assert (H90 : Qgeb (quality_score m) 90 = false).
    { apply Qgeb_lt. apply Qgeb_lt in H. lra. }
    assert (H75 : Qgeb (quality_score m) 75 = false).
    { apply Qgeb_lt. apply Qgeb_lt in H. lra. }
    assert (H60 : Qgeb (quality_score m) 60 = false).
    { apply Qgeb_lt. apply Qgeb_lt in H. lra. }
    rewrite H90, H75, H60, H. reflexivity.
Qed.

(** No recommendation is made exactly when completeness and accuracy are at
    least 80, freshness at least 70, the overall score at least 60 and there
    are at most five issues; there are never more than five
    recommendations. *)
Theorem _generate_recommendations_empty_iff (m : DataQualityMetrics) :
  (_generate_recommendations m = []
   ↔ (80 <= completeness_score m)%Q ∧ (70 <= freshness_score m)%Q
     ∧ (80 <= accuracy_score m)%Q ∧ len (issues m) ≤ 5
     ∧ (60 <= quality_score m)%Q) ∧
  (length (_generate_recommendations m) ≤ 5)%nat.
Proof.
  unfold _generate_recommendations. cbv zeta.
  destruct (Qltb (completeness_score m) 80) eqn:E1,
    (Qltb (freshness_score m) 70) eqn:E2,
    (Qltb (accuracy_score m) 80) eqn:E3,
    (5 <? len (issues m)) eqn:E4,
    (Qltb (quality_score m) 60) eqn:E5;
    rewrite ?Qltb_lt, ?Qltb_ge, ?Z.ltb_lt, ?Z.ltb_ge in *;
    (split; [|cbn; lia]);
    (split; [try discriminate; intros _; repeat split; assumption
            |try reflexivity; intros (H1 & H2 & H3 & H4 & H5);
             exfalso; first [lia | lra]]).
Qed.

End DataQualityMore.

(** ** Further properties of the orchestrator *)

Module DataServiceMore.

Import DataService DataServiceFacts OrchestratorSpec Fixtures ServiceFixtures.
Local Open Scope Z_scope.

(** *** What a lookup leaves unchanged *)

(** Two states of the service with the same configuration, the same budget
    limits and the same count of provider errors. *)
Record same_setup (svc svc' : DataService) : Prop := {
  same_enable_caching : enable_caching svc' = enable_caching svc;
  same_enable_quality :
    enable_quality_assessment svc' = enable_quality_assessment svc;
  same_quality_service : quality_service svc' = quality_service svc;
  same_priority : data_source_priority svc' = data_source_priority svc;
  same_limits :
    ∀ s, requests_limit <$> (rate_limits svc' !! s)
         = requests_limit <$> (rate_limits svc !! s);
  same_api_errors : m_api_errors (metrics svc') = m_api_errors (metrics svc)
}.

Lemma same_setup_refl svc : same_setup svc svc.
Proof. split; reflexivity. Qed.

Lemma same_setup_trans a b c :
  same_setup a b → same_setup b c → same_setup a c.
Proof.
  intros [] []. split; first [congruence | intros s; etransitivity; eauto].
Qed.

(** Replacing a budget by one with the same limit. *)
Lemma same_setup_insert svc source rl rl' :
  rate_limits svc !! source = Some rl →
  requests_limit rl' = requests_limit rl →
  same_setup svc (set_rate_limits svc (<[ source := rl' ]> (rate_limits svc))).
Proof.
  intros Hrl Hlim. split; try reflexivity. intros s. cbn [rate_limits
    set_rate_limits].
  destruct (decide (source = s)) as [<-|Hne].
  - rewrite lookup_insert_eq, Hrl. cbn. congruence.
  - rewrite lookup_insert_ne by exact Hne. reflexivity.
Qed.

Lemma _check_rate_limit_same_setup clk source svc :
  same_setup svc (snd (_check_rate_limit clk source svc)).
Proof.
  unfold _check_rate_limit, _check_rate_limit_body.
  destruct (rate_limits svc !! source) as [rl|] eqn:Hrl;
    [|apply same_setup_refl].
  destruct (datetime_gt (now clk) (reset_time rl)) as [[]|e];
    cbn [snd]; try apply same_setup_refl;
    eapply same_setup_insert; eauto.
Qed.

Lemma _update_rate_limit_same_setup source svc :
  same_setup svc (_update_rate_limit source svc).
Proof.
  unfold _update_rate_limit.
  destruct (rate_limits svc !! source) as [rl|] eqn:Hrl;
    [|apply same_setup_refl].
  eapply same_setup_insert; eauto.
Qed.

(** The fetch of a source never raises: both provider wrappers swallow
    every exception. *)
Lemma fetch_from_never_raises prov symbol source svc :
  ∃ r, fst (fetch_from prov symbol source svc) = Ok r.
Proof.
  destruct source; cbn [fetch_from]; [| |eexists; reflexivity].
  - unfold _get_data_from_yahoo.
    destruct (yahoo_get_stock_data prov symbol); eexists; reflexivity.
  - unfold _get_data_from_alpha_vantage.
    destruct (alpha_get_comprehensive_data prov symbol); eexists; reflexivity.
Qed.

Lemma fetch_from_same_setup prov symbol source svc :
  same_setup svc (snd (fetch_from prov symbol source svc)).
Proof.
  destruct source; cbn [fetch_from]; [| |apply same_setup_refl].
  - unfold _get_data_from_yahoo.
    destruct (yahoo_get_stock_data prov symbol); cbn [snd];
      apply _update_rate_limit_same_setup.
  - unfold _get_data_from_alpha_vantage.
    destruct (alpha_get_comprehensive_data prov symbol); cbn [snd];
      apply _update_rate_limit_same_setup.
Qed.

Lemma try_sources_same_setup prov clk symbol sources svc :
  same_setup svc (snd (try_sources prov clk symbol sources svc)).
Proof.
  revert svc. induction sources as [|source rest IH]; intros svc.
  - apply same_setup_refl.
  - cbn [try_sources].
    pose proof (_check_rate_limit_same_setup clk source svc) as Hc.
    destruct (_check_rate_limit clk source svc) as [allowed svc1].
    cbn [snd] in Hc. destruct allowed; cbn [negb].
    + pose proof (fetch_from_same_setup prov symbol source svc1) as Hf.
      destruct (fetch_from_never_raises prov symbol source svc1) as [r Hr].
      destruct (fetch_from prov symbol source svc1) as [r' svc2].
      cbn [fst snd] in Hf, Hr. subst r'.
      destruct r as [d|]; cbn [snd].
      * eapply same_setup_trans; eassumption.
      * eapply same_setup_trans; [eassumption|].
        eapply same_setup_trans; [eassumption | apply IH].
    + eapply same_setup_trans; [eassumption | apply IH].
Qed.

Lemma set_metrics_same_setup svc m :
  m_api_errors m = m_api_errors (metrics svc) →
  same_setup svc (set_metrics svc m).
Proof. intros H. split; try reflexivity. exact H. Qed.

Lemma set_cache_service_same_setup svc c :
  same_setup svc (set_cache_service svc c).
Proof. split; reflexivity. Qed.

Lemma cache_lookup_same_setup clk key force_refresh svc :
  same_setup svc (snd (cache_lookup clk key force_refresh svc)).
Proof.
  unfold cache_lookup. destruct (cache_service svc) as [c|];
    [|apply same_setup_refl].
  destruct (negb force_refresh); [|apply same_setup_refl].
  destruct (cache_get clk key c); cbn [snd];
    apply set_metrics_same_setup; reflexivity.
Qed.

Lemma attach_quality_same_setup clk d s svc :
  same_setup svc (snd (attach_quality clk d s svc)).
Proof.
  unfold attach_quality. destruct (_ && _); [|apply same_setup_refl].
  destruct (DataQualityService.assess_stock_data_quality clk d s);
    cbn [snd]; [|apply same_setup_refl].
  apply set_metrics_same_setup. reflexivity.
Qed.

Lemma cache_result_same_setup clk key d svc :
  same_setup svc (cache_result clk key d svc).
Proof.
  unfold cache_result. destruct (cache_service svc);
    [apply set_cache_service_same_setup | apply same_setup_refl].
Qed.

(** A lookup, whatever it returns, leaves the configuration of the service,
    the limit of every budget (and with it the set of sources that have one)
    and the [api_errors] counter as they were: no provider failure is ever
    counted as an API error, since both fetch wrappers swallow every
    exception. *)
Theorem get_stock_data_same_setup (prov : Providers) (clk : Clock)
    (symbol : string) (force_refresh : bool)
    (preferred_source : option DataSource) (svc : DataService) :
  same_setup svc
    (snd (get_stock_data prov clk symbol force_refresh preferred_source svc)).
Proof.
  unfold get_stock_data.
  pose proof (cache_lookup_same_setup clk (upper symbol) force_refresh svc)
    as Hl.
  destruct (cache_lookup clk (upper symbol) force_refresh svc) as [hit svc0].
  cbn [snd] in Hl. destruct hit as [d|]; [exact Hl|].
  match goal with |- context [try_sources ?p ?c ?k ?l ?s] =>
    pose proof (try_sources_same_setup p c k l s) as Ht;
    destruct (try_sources p c k l s) as [found svc1] end.
  cbn [snd] in Ht. destruct found as [[d s]|]; cbn [snd].
  2:{ eapply same_setup_trans; eassumption. }
  pose proof (attach_quality_same_setup clk d s svc1) as Ha.
  destruct (attach_quality clk d s svc1) as [d' svc2]. cbn [snd] in *.
  eapply same_setup_trans; [exact Hl|].
  eapply same_setup_trans; [exact Ht|].
  eapply same_setup_trans; [exact Ha|].
  eapply same_setup_trans; [apply cache_result_same_setup|].
  apply set_metrics_same_setup. reflexivity.
Qed.

(** *** Budgets and failed fetches *)

(** A provider that has nothing for the symbol: it returns [None] or
    raises. *)
Definition gives_nothing (r : result (option StockData)) : Prop :=
  r = Ok None ∨ ∃ e, r = Raise e.

Lemma cache_lookup_rate_limits clk key force_refresh svc :
  rate_limits (snd (cache_lookup clk key force_refresh svc)) = rate_limits svc.
Proof.
  unfold cache_lookup. destruct (cache_service svc) as [c|]; [|reflexivity].
  destruct (negb force_refresh); [|reflexivity].
  destruct (cache_get clk key c); reflexivity.
Qed.

Lemma cache_lookup_priority clk key force_refresh svc :
  data_source_priority (snd (cache_lookup clk key force_refresh svc))
  = data_source_priority svc.
Proof. apply (same_priority _ _ (cache_lookup_same_setup _ _ _ _)). Qed.

Lemma _update_rate_limit_metrics source svc :
  metrics (_update_rate_limit source svc) = metrics svc.
Proof.
  unfold _update_rate_limit. destruct (rate_limits svc !! source); reflexivity.
Qed.

(** A lookup that misses the cache while both budgets are open and neither
    provider has anything for the symbol returns [None] and has spent one
    request of each budget: a request is counted when it is attempted, not
    when it succeeds. *)
Theorem failed_lookup_spends_both_budgets (prov : Providers) (clk : Clock)
    (symbol : string) (force_refresh : bool) (svc : DataService)
    (ry ra : APIRateLimit) :
  fst (cache_lookup clk (upper symbol) force_refresh svc) = None →
  data_source_priority svc = [YAHOO_FINANCE; ALPHA_VANTAGE] →
  rate_limits svc !! YAHOO_FINANCE = Some ry →
  rate_limits svc !! ALPHA_VANTAGE = Some ra →
  aware (reset_time ry) = false → aware (reset_time ra) = false →
  now_micros clk ≤ micros (reset_time ry) →
  now_micros clk ≤ micros (reset_time ra) →
  requests_made ry < requests_limit ry →
  requests_made ra < requests_limit ra →
  gives_nothing (yahoo_get_stock_data prov (upper symbol)) →
  gives_nothing (alpha_get_comprehensive_data prov (upper symbol)) →
  ∃ svc',
    get_stock_data prov clk symbol force_refresh None svc = (None, svc') ∧
    rate_limits svc' !! YAHOO_FINANCE = Some (made_more ry 1) ∧
    rate_limits svc' !! ALPHA_VANTAGE = Some (made_more ra 1) ∧
    m_requests_made (metrics svc')
    = m_requests_made
        (metrics (snd (cache_lookup clk (upper symbol) force_refresh svc))).
Proof.
  intros Hmiss Hprio Hy Ha Hay Haa Hty Hta Hmy Hma Hny Hna.
  set (svc0 := snd (cache_lookup clk (upper symbol) force_refresh svc)).
  assert (Hrl0 : rate_limits svc0 = rate_limits svc)
    by apply cache_lookup_rate_limits.
  assert (Hy0 : rate_limits svc0 !! YAHOO_FINANCE = Some ry) by congruence.
  assert (Ha0 : rate_limits svc0 !! ALPHA_VANTAGE = Some ra) by congruence.
  (* Yahoo: allowed, counted, nothing *)
  pose proof (_check_rate_limit_open clk YAHOO_FINANCE svc0 ry Hy0 Hay Hty)
    as Cy.
  assert (Ey : is_limit_exceeded ry = false)
    by (unfold is_limit_exceeded; apply Z.leb_gt; lia).
  rewrite Ey in Cy. cbn [negb] in Cy.
  set (svc1 := _update_rate_limit YAHOO_FINANCE svc0).
  assert (Fy : fetch_from prov (upper symbol) YAHOO_FINANCE svc0
               = (Ok None, svc1)).
  { cbn [fetch_from]. unfold _get_data_from_yahoo. fold svc1.
    destruct Hny as [->|[e ->]]; reflexivity. }
  assert (Hy1 : rate_limits svc1 !! YAHOO_FINANCE = Some (made_more ry 1)).
  { apply (_update_rate_limit_iter YAHOO_FINANCE svc0 ry 1 Hy0). }
  assert (Ha1 : rate_limits svc1 !! ALPHA_VANTAGE = Some ra).
  { unfold svc1, _update_rate_limit. rewrite Hy0.
    rewrite rate_limits_set_rate_limits, lookup_insert_ne by discriminate.
    exact Ha0. }
  (* Alpha Vantage: allowed, counted, nothing *)
  pose proof (_check_rate_limit_open clk ALPHA_VANTAGE svc1 ra Ha1 Haa Hta)
    as Ca.
  assert (Ea : is_limit_exceeded ra = false)
    by (unfold is_limit_exceeded; apply Z.leb_gt; lia).
  rewrite Ea in Ca. cbn [negb] in Ca.
  set (svc2 := _update_rate_limit ALPHA_VANTAGE svc1).
  assert (Fa : fetch_from prov (upper symbol) ALPHA_VANTAGE svc1
               = (Ok None, svc2)).
  { cbn [fetch_from]. unfold _get_data_from_alpha_vantage. fold svc2.
    destruct Hna as [->|[e ->]]; reflexivity. }
  assert (Ha2 : rate_limits svc2 !! ALPHA_VANTAGE = Some (made_more ra 1)).
  { apply (_update_rate_limit_iter ALPHA_VANTAGE svc1 ra 1 Ha1). }
  assert (Hy2 : rate_limits svc2 !! YAHOO_FINANCE = Some (made_more ry 1)).
  { unfold svc2, _update_rate_limit. rewrite Ha1.
    rewrite rate_limits_set_rate_limits, lookup_insert_ne by discriminate.
    exact Hy1. }
  exists svc2.
  assert (Hloop : try_sources prov clk (upper symbol)
                    [YAHOO_FINANCE; ALPHA_VANTAGE] svc0 = (None, svc2)).
  { cbn [try_sources]. rewrite Cy. cbn [negb]. rewrite Fy, Ca. cbn [negb].
    rewrite Fa. reflexivity. }
  pose proof (get_stock_data_after_miss prov clk symbol force_refresh None
                svc None svc2 Hmiss) as Hg.
  cbn match in Hg. rewrite Hprio in Hg. specialize (Hg Hloop).
  split; [exact Hg|]. split; [exact Hy2|]. split; [exact Ha2|].
  unfold svc2, svc1. rewrite !_update_rate_limit_metrics. reflexivity.
Qed.

(** An unknown symbol looked up on the freshly started service: both
    providers are asked and each budget has one request less. *)
Lemma failed_lookup_spends_both_budgets_witness :
  ∃ svc',
    get_stock_data yahoo_two_symbols noon "BADSYMBOL" false None fresh_service
    = (None, svc') ∧
    requests_made <$> (rate_limits svc' !! YAHOO_FINANCE) = Some 1 ∧
    requests_made <$> (rate_limits svc' !! ALPHA_VANTAGE) = Some 1.
Proof.
  destruct (failed_lookup_spends_both_budgets yahoo_two_symbols noon
              "BADSYMBOL" false fresh_service
              {| api_name := "yahoo_finance"; endpoint := "general";
                 requests_made := 0; requests_limit := 2000;
                 reset_time := datetime_add (now noon) (timedelta_hours 1) |}
              {| api_name := "alpha_vantage"; endpoint := "general";
                 requests_made := 0; requests_limit := 500;
                 reset_time := datetime_add (now noon) (timedelta_days 1) |})
    as (svc' & Hg & Hy & Ha & _);
    try reflexivity; try (vm_compute; discriminate).
  - left. reflexivity.
  - right. eexists. reflexivity.
  - exists svc'. rewrite Hy, Ha. repeat split. exact Hg.
Defined.

Lemma _check_rate_limit_after_lookup clk key force_refresh svc :
  rate_limits svc !! MANUAL = None →
  _check_rate_limit clk MANUAL
    (snd (cache_lookup clk key force_refresh svc))
  = (true, snd (cache_lookup clk key force_refresh svc)).
Proof.
  intros Hm. unfold _check_rate_limit, _check_rate_limit_body.
  rewrite cache_lookup_rate_limits, Hm. reflexivity.
Qed.

(** A preferred source that is neither provider and has no budget: the
    lookup asks nobody and returns [None]; only the cache counters can have
    changed. *)
Theorem unknown_preferred_source_gives_nothing (prov : Providers)
    (clk : Clock) (symbol : string) (force_refresh : bool)
    (svc : DataService) :
  rate_limits svc !! MANUAL = None →
  fst (cache_lookup clk (upper symbol) force_refresh svc) = None →
  get_stock_data prov clk symbol force_refresh (Some MANUAL) svc
  = (None, snd (cache_lookup clk (upper symbol) force_refresh svc)).
Proof.
  intros Hm Hmiss.
  pose proof (get_stock_data_after_miss prov clk symbol force_refresh
                (Some MANUAL) svc None
                (snd (cache_lookup clk (upper symbol) force_refresh svc))
                Hmiss) as Hg.
  apply Hg. cbn [try_sources].
  rewrite (_check_rate_limit_after_lookup clk (upper symbol) force_refresh
             svc Hm).
  reflexivity.
Qed.

(** A lookup that names [MANUAL] on the freshly started service. *)
Lemma unknown_preferred_source_gives_nothing_witness :
  fst (get_stock_data yahoo_two_symbols noon "AAPL" false (Some MANUAL)
         fresh_service) = None.
Proof.
  rewrite (unknown_preferred_source_gives_nothing yahoo_two_symbols noon
             "AAPL" false fresh_service); reflexivity.
Defined.

(** *** The keys of a batch *)

(** For a cap of at least 1 the keys of the returned map are exactly the
    requested symbols: as many entries as symbols when no symbol is
    requested twice. *)
Theorem batch_get_stock_data_keys (prov : Providers) (clk : Clock)
    (symbols : list string) (max_concurrent : Z) (svc : DataService) :
  0 < max_concurrent →
  ∃ m svc',
    batch_get_stock_data prov clk symbols max_concurrent svc
    = (Returns m, svc') ∧
    dom m = list_to_set symbols ∧
    (NoDup symbols → size m = length symbols).
Proof.
  intros Hpos.
  destruct (gather_returns prov clk max_concurrent symbols svc Hpos)
    as (datas & svc' & Hlen & Hg).
  exists (process_results (returned symbols datas)), svc'.
  assert (Hdom : dom (process_results (returned symbols datas))
                 = list_to_set symbols).
  { apply set_eq. intros s. rewrite elem_of_dom, elem_of_list_to_set.
    rewrite process_results_entry. unfold entry_of.
    pose proof (tasks_for_returned_nil s symbols datas Hlen) as Hnil.
    pose proof (tasks_for_returned_last s symbols datas Hlen) as Hlast.
    destruct (last (tasks_for s (returned symbols datas)))
      as [[[s' d]|e]|] eqn:El.
    - split; [|intros _; eexists; reflexivity]. intros _.
      destruct (decide (s ∈ symbols)) as [Hin|Hnin]; [exact Hin|].
      apply Hnil in Hnin. rewrite Hnin in El. discriminate.
    - contradiction.
    - apply last_None in El. apply Hnil in El.
      split; [intros [? ?]; discriminate | contradiction]. }
  split; [|split; [exact Hdom|]].
  - unfold batch_get_stock_data, Semaphore.
    assert (E : (max_concurrent <? 0) = false) by (apply Z.ltb_ge; lia).
    rewrite E, Hg. reflexivity.
  - intros Hnd. rewrite <- size_dom, Hdom. apply size_list_to_set. exact Hnd.
Qed.

(** Three distinct symbols with a cap of 2: three entries. *)
Lemma batch_get_stock_data_keys_witness :
  ∃ m svc',
    batch_get_stock_data yahoo_two_symbols noon
      ["AAPL"; "BADSYMBOL"; "MSFT"] 2 fresh_service = (Returns m, svc')
    ∧ size m = 3%nat.
Proof.
  destruct (batch_get_stock_data_keys yahoo_two_symbols noon
              ["AAPL"; "BADSYMBOL"; "MSFT"] 2 fresh_service)
    as (m & svc' & Hb & _ & Hsize).
  - reflexivity.
  - exists m, svc'. split; [exact Hb|]. apply Hsize.
    apply (bool_decide_unpack (NoDup ["AAPL"; "BADSYMBOL"; "MSFT"]%string)).
    vm_compute. exact I.
Defined.

(** *** The budget of a source *)

(** No request remains exactly when the limit is reached; while it is not
    reached, the requests made and those remaining add up to the limit. *)
Theorem requests_remaining_exceeded (rl : APIRateLimit) :
  0 ≤ requests_remaining rl ∧
  (requests_remaining rl = 0 ↔ is_limit_exceeded rl = true) ∧
  (is_limit_exceeded rl = false →
   requests_made rl + requests_remaining rl = requests_limit rl).
Proof.
  unfold requests_remaining, is_limit_exceeded.
  repeat split.
  - lia.
  - intros H. apply Z.leb_le. lia.
  - intros H. apply Z.leb_le in H. lia.
  - intros H. apply Z.leb_gt in H. lia.
Qed.

End DataServiceMore.

(** ** The health report *)

Module ServiceHealthFacts.

Import DataService ServiceHealth.
Local Open Scope Z_scope.

(** The overall status is healthy exactly when every health check answered
    [True] and both providers have a budget to report (the cache check
    counts only when the service has a cache); otherwise it is degraded. *)
Theorem get_service_health_overall (probes : Probes) (svc : DataService) :
  let h := get_service_health probes svc in
  (overall_status h = "healthy"%string
   ↔ yahoo_health_check probes = Ok true
     ∧ is_Some (rate_limits svc !! YAHOO_FINANCE)
     ∧ alpha_health_check probes = Ok true
     ∧ is_Some (rate_limits svc !! ALPHA_VANTAGE)
     ∧ (cache_service svc = None ∨ cache_health_check probes = Ok true)) ∧
  (overall_status h = "healthy"%string
   ∨ overall_status h = "degraded"%string).
Proof.
  cbv zeta. unfold get_service_health. cbn [overall_status].
  destruct (yahoo_health_check probes) as [[]|ey],
    (rate_limits svc !! YAHOO_FINANCE) as [ry|],
    (alpha_health_check probes) as [[]|ea],
    (rate_limits svc !! ALPHA_VANTAGE) as [ra|],
    (cache_service svc) as [c|],
    (cache_health_check probes) as [[]|ec];
    cbn; (split; [|auto]);
    (split;
     [ try discriminate; intros _;
       repeat split; eauto
     | try reflexivity;
       intros (H1 & [? H2] & H3 & [? H4] & [H5|H5]); discriminate ]).
Qed.

End ServiceHealthFacts.

(** ** Further properties of the cache service *)

Module CacheServiceMore.

Import CacheService CacheOps CacheServiceClaims.
Local Open Scope Z_scope.

(** *** Namespaces *)

Definition prefix_of (data_type : string) : string :=
  default "misc:"%string (key_prefixes default_config !! data_type).

Definition prefixes : list string :=
  ["stock:"; "company:"; "financials:"; "market:"; "search:"; "rate_limit:";
   "quality:"; "misc:"]%string.

Lemma prefix_of_known (data_type : string) : prefix_of data_type ∈ prefixes.
Proof.
  unfold prefix_of, default_config, Config_init, default_key_prefixes,
    prefixes. cbn [key_prefixes].
  repeat (rewrite lookup_insert; case_decide;
          [cbn [default]; set_solver|]).
  rewrite lookup_empty. cbn [default]. set_solver.
Qed.

(** With the prefixes of the service, two full keys coincide only when they
    have the same prefix and the same key: entries of different namespaces
    never collide, and within a namespace distinct keys stay distinct. *)
Theorem _build_key_no_collision (key1 key2 type1 type2 : string) :
  _build_key default_config key1 type1 = _build_key default_config key2 type2 →
  prefix_of type1 = prefix_of type2 ∧ key1 = key2.
Proof.
  unfold _build_key. fold (prefix_of type1). fold (prefix_of type2).
  pose proof (prefix_of_known type1) as H1.
  pose proof (prefix_of_known type2) as H2.
  revert H1 H2. generalize (prefix_of type1) (prefix_of type2).
  intros p1 p2 H1 H2 H. unfold prefixes in *.
  repeat (apply elem_of_cons in H1 as [->|H1]);
    [..|apply elem_of_nil in H1; contradiction];
    repeat (apply elem_of_cons in H2 as [->|H2]);
    try (apply elem_of_nil in H2; contradiction);
    cbn in H; simplify_eq; auto.
Qed.

(** Two data types the service does not know share the prefix [misc:]. *)
Lemma _build_key_no_collision_witness :
  prefix_of "quotes" = prefix_of "profiles" ∧ "AAPL"%string = "AAPL"%string.
Proof.
  apply (_build_key_no_collision "AAPL" "AAPL" "quotes" "profiles").
  reflexivity.
Defined.

(** *** Writing and reading back *)

Section with_libraries.
Context `{L : Libraries}.

Lemma _deserialize_serialize (cfg : Config) (v : json) :
  wf_json v = true → _deserialize (_serialize cfg v) = Ok v.
Proof.
  intros Hwf. destruct (json_dumps_total v Hwf) as [s Hs].
  unfold _serialize. rewrite Hs. cbn [mbind result_bind mret result_ret].
  unfold _deserialize.
  destruct (compression_threshold cfg <? len (str_encode s)).
  - rewrite startswith_app.
    change 11%nat with (length COMPRESSED). rewrite drop_app_length.
    rewrite decompress_compress. cbn. rewrite decode_encode. cbn.
    apply json_loads_dumps; assumption.
  - rewrite startswith_COMPRESSED_head
      by (eapply json_first_byte; eauto).
    rewrite decode_encode. cbn.
    rewrite (json_loads_dumps v s Hwf Hs). reflexivity.
Qed.

(** The time to live [set] passes to the store. *)
Definition effective_ttl (cfg : Config) (ttl : option Z) : Z :=
  match ttl with
  | Some n => if n =? 0 then default_ttl cfg else n
  | None => default_ttl cfg
  end.

Lemma exchange_reliable (w : Store) : link w = [] → exchange w = (true, w).
Proof. unfold exchange. intros ->. reflexivity. Qed.

Lemma ensure_connected_reliable (svc : Service) (w : Store) :
  link w = [] →
  ∃ svc', ensure_connected svc w = (Ok tt, svc', w)
          ∧ config svc' = config svc ∧ stats svc' = stats svc
          ∧ redis_client svc' = true.
Proof.
  intros Hl. unfold ensure_connected.
  destruct (redis_client svc) eqn:Hc.
  - exists svc. auto.
  - exists (with_client svc). unfold connect.
    rewrite (exchange_reliable w Hl). auto.
Qed.

(** On a link without connection errors and with at least one attempt
    allowed, [set] with a positive time to live stores the value and counts
    one set; a [get] of the same key and data type returns the value as long
    as the time to live has not passed and counts a hit, and returns [None]
    and counts a miss from the moment it has. *)
Theorem set_then_get (t t' : Z) (key data_type : string) (v : json)
    (ttl : option Z) (svc : Service) (w : Store) :
  wf_json v = true →
  link w = [] →
  0 < max_retries (config svc) →
  0 < effective_ttl (config svc) ttl →
  ∃ svc1 w1,
    set t key v ttl data_type svc w = (Some true, svc1, w1) ∧
    stats svc1 = incr_sets (stats svc) ∧
    (t' < t + effective_ttl (config svc) ttl →
       get t' key data_type svc1 w1
       = (Some v, with_stats svc1 (incr_hits (stats svc1)), w1)) ∧
    (t + effective_ttl (config svc) ttl ≤ t' →
       get t' key data_type svc1 w1
       = (None, with_stats svc1 (incr_misses (stats svc1)), w1)).
Proof.
  intros Hwf Hl Hmr Httl.
  destruct (ensure_connected_reliable svc w Hl)
    as (svc0 & Hc0 & Hcfg0 & Hst0 & Hcl0).
  assert (Hn : ∃ n, Z.to_nat (max_retries (config svc)) = S n).
  { exists (Z.to_nat (max_retries (config svc)) - 1)%nat. lia. }
  destruct Hn as [n Hn].
  set (full_key := _build_key (config svc) key data_type).
  set (e := effective_ttl (config svc) ttl) in *.
  set (w1 := {| db := <[ full_key := (_serialize (config svc) v, t + e) ]>
                        (db w);
                link := link w |}).
  exists (with_stats svc0 (incr_sets (stats svc0))), w1.
  assert (Hset : set t key v ttl data_type svc w
                 = (Some true, with_stats svc0 (incr_sets (stats svc0)), w1)).
  { unfold set. rewrite Hc0. cbv beta iota zeta. rewrite Hcfg0, Hn.
    cbn [set_attempts].
    rewrite (exchange_reliable w Hl).
    fold (effective_ttl (config svc) ttl). fold e. fold full_key.
    unfold redis_setex.
    assert (E : (e <=? 0) = false) by (apply Z.leb_gt; lia).
    rewrite E. reflexivity. }
  split; [exact Hset|]. split; [cbn; congruence|].
  assert (Hl1 : link w1 = []) by exact Hl.
  assert (Hget : ∀ r s',
            (match redis_get t' full_key w1 with
             | None =>
                 (Ok None,
                  with_stats (with_stats svc0 (incr_sets (stats svc0)))
                    (incr_misses
                       (stats (with_stats svc0 (incr_sets (stats svc0))))),
                  w1)
             | Some cached_data =>
                 match _deserialize cached_data with
                 | Ok data =>
                     (Ok (Some data),
                      with_stats (with_stats svc0 (incr_sets (stats svc0)))
                        (incr_hits
                           (stats
                              (with_stats svc0 (incr_sets (stats svc0))))),
                      w1)
                 | Raise e =>
                     (Raise e, with_stats svc0 (incr_sets (stats svc0)), w1)
                 end
             end) = (Ok r, s', w1) →
            get t' key data_type (with_stats svc0 (incr_sets (stats svc0))) w1
            = (r, s', w1)).
  { intros r s' H. unfold get, ensure_connected.
    cbn [redis_client with_stats]. rewrite Hcl0. cbv beta iota zeta.
    cbn [config with_stats]. rewrite Hcfg0, Hn.
    cbn [get_attempts]. rewrite (exchange_reliable w1 Hl1).
    fold full_key. cbn [stats with_stats] in H |- *. rewrite H.
    reflexivity. }
  assert (Hdb : db w1 !! full_key = Some (_serialize (config svc) v, t + e)).
  { unfold w1. cbn [db]. apply lookup_insert_eq. }
  split.
  - intros Hsoon. apply Hget. unfold redis_get. rewrite Hdb.
    apply Z.ltb_lt in Hsoon. rewrite Hsoon.
    rewrite (_deserialize_serialize (config svc) v Hwf). reflexivity.
  - intros Hlate. apply Hget. unfold redis_get. rewrite Hdb.
    apply Z.ltb_ge in Hlate. rewrite Hlate. reflexivity.
Qed.

(** *** Failures *)

(** A link on which [k] exchanges in a row are lost, each followed by a
    reconnection that goes through. *)
Fixpoint flaky (k : nat) : list bool :=
  match k with
  | O => []
  | S k => false :: true :: flaky k
  end.

Lemma with_client_connected (svc : Service) :
  redis_client svc = true → with_client svc = svc.
Proof. destruct svc. cbn. intros ->. reflexivity. Qed.

(** The seconds slept before attempts [attempt], ..., [attempt + k - 1]
    are retried. *)
Fixpoint waited (attempt k : nat) : Z :=
  match k with
  | O => 0
  | S k => 2 ^ Z.of_nat attempt + waited (S attempt) k
  end.

Lemma waited_closed (attempt k : nat) :
  waited attempt k = 2 ^ Z.of_nat attempt * (2 ^ Z.of_nat k - 1).
Proof.
  revert attempt. induction k as [|k IH]; intros attempt.
  - cbn. lia.
  - cbn [waited]. rewrite IH, !Nat2Z.inj_succ, !Z.pow_succ_r by lia. lia.
Qed.

Lemma get_attempts_first (n attempt attempt' : nat) (t : Z)
    (full_key : string) (svc : Service) (w : Store) :
  link w = [] →
  get_attempts (S n) attempt t full_key svc w
  = get_attempts 1 attempt' t full_key svc w.
Proof.
  intros Hl. cbn [get_attempts]. rewrite (exchange_reliable w Hl).
  reflexivity.
Qed.

Lemma get_attempts_flaky (full_key : string) (svc : Service) (k : nat) :
  redis_client svc = true →
  ∀ (n attempt : nat) (t : Z) (w : Store),
    (k < n)%nat → link w = flaky k →
    get_attempts n attempt t full_key svc w
    = get_attempts 1 0 (t + waited attempt k) full_key svc
        {| db := db w; link := [] |}.
Proof.
  intros Hc. induction k as [|k IH]; intros n attempt t w Hk Hl.
  - destruct n as [|n]; [lia|]. destruct w as [d l]. cbn in Hl. subst l.
    cbn [waited db]. rewrite Z.add_0_r.
    apply get_attempts_first. reflexivity.
  - destruct n as [|[|n]]; [lia | lia |].
    cbn [flaky] in Hl.
    change (get_attempts (S (S n)) attempt t full_key svc w)
      with (let '(ok, w0) := exchange w in
            if ok then
              match redis_get t full_key w0 with
              | None =>
                  (Ok None, with_stats svc (incr_misses (stats svc)), w0)
              | Some cached_data =>
                  match _deserialize cached_data with
                  | Ok data =>
                      (Ok (Some data),
                       with_stats svc (incr_hits (stats svc)), w0)
                  | Raise e => (Raise e, svc, w0)
                  end
              end
            else
              let '(r, svc0, w1) := connect svc w0 in
              match r with
              | Ok _ =>
                  get_attempts (S n) (S attempt) (t + 2 ^ Z.of_nat attempt)
                    full_key svc0 w1
              | Raise e => (Raise e, svc0, w1)
              end).
    unfold exchange at 1. rewrite Hl. cbv beta iota zeta.
    unfold connect, exchange. cbn [link db]. cbv beta iota zeta.
    rewrite (with_client_connected svc Hc).
    rewrite (IH (S n) (S attempt) (t + 2 ^ Z.of_nat attempt)
               {| db := db w; link := flaky k |});
      [|lia | reflexivity].
    cbn [waited db]. rewrite Z.add_assoc. reflexivity.
Qed.

(** Lost exchanges only delay [get]: with [k] of them, fewer than
    [max_retries], each followed by a reconnection that goes through, the
    caller gets the result and the counters of a [get] made [2^k - 1]
    seconds later, the time slept between the attempts, on a link that
    loses nothing. *)
Theorem get_survives_lost_exchanges (t : Z) (key data_type : string)
    (svc : Service) (w : Store) (k : nat) :
  redis_client svc = true →
  Z.of_nat k < max_retries (config svc) →
  link w = flaky k →
  get t key data_type svc w
  = get (t + (2 ^ Z.of_nat k - 1)) key data_type svc
      {| db := db w; link := [] |}.
Proof.
  intros Hc Hk Hl. unfold get, ensure_connected. rewrite Hc.
  cbv beta iota zeta.
  rewrite (get_attempts_flaky _ svc k Hc _ 0%nat t w) by (lia || exact Hl).
  assert (Hn : ∃ n, Z.to_nat (max_retries (config svc)) = S n).
  { exists (Z.to_nat (max_retries (config svc)) - 1)%nat. lia. }
  destruct Hn as [n ->].
  rewrite (get_attempts_first n 0 0 _ _ svc {| db := db w; link := [] |})
    by reflexivity.
  rewrite waited_closed. cbn [Z.of_nat]. rewrite Z.pow_0_r, Z.mul_1_l.
  reflexivity.
Qed.

(** [get] never hands an exception to its caller. When the next two
    exchanges with the store are lost it returns [None] and counts one
    error, whether the service was connected or not, and leaves the stored
    data alone; and it does the same when the stored bytes cannot be
    decoded. *)
Theorem get_failures (t : Z) (key data_type : string) (svc : Service)
    (w : Store) :
  0 < max_retries (config svc) →
  (∀ rest, link w = false :: false :: rest →
     ∃ w', get t key data_type svc w
           = (None, with_stats (with_client svc) (incr_errors (stats svc)),
              w')
           ∧ db w' = db w) ∧
  (link w = [] →
   ∀ cached_data e,
     redis_get t (_build_key (config svc) key data_type) w = Some cached_data →
     _deserialize cached_data = Raise e →
     get t key data_type svc w
     = (None, with_stats (with_client svc) (incr_errors (stats svc)), w)).
Proof.
  intros Hmr.
  assert (Hn : ∃ n, Z.to_nat (max_retries (config svc)) = S n).
  { exists (Z.to_nat (max_retries (config svc)) - 1)%nat. lia. }
  destruct Hn as [n Hn].
  split.
  - intros rest Hl.
    unfold get, ensure_connected.
    destruct (redis_client svc) eqn:Hc.
    + cbv beta iota zeta. rewrite Hn.
      rewrite (with_client_connected svc Hc).
      destruct n as [|n].
      * cbn [get_attempts]. unfold exchange. rewrite Hl.
        eexists. split; reflexivity.
      * cbn [get_attempts]. unfold exchange at 1. rewrite Hl.
        cbv beta iota zeta. unfold connect, exchange. cbn [link db].
        rewrite (with_client_connected svc Hc).
        eexists. split; reflexivity.
    + unfold connect, exchange. rewrite Hl.
      eexists. split; reflexivity.
  - intros Hl cached_data e Hg Hd.
    destruct (ensure_connected_reliable svc w Hl)
      as (svc0 & Hc0 & Hcfg0 & Hst0 & Hcl0).
    assert (Hsvc0 : svc0 = with_client svc).
    { destruct svc0, svc. cbn in *. subst. reflexivity. }
    unfold get. rewrite Hc0. cbv beta iota zeta. rewrite Hcfg0, Hn.
    cbn [get_attempts].
    rewrite (exchange_reliable w Hl), Hg, Hd. subst svc0. reflexivity.
Qed.

(** A service built with [max_retries] 0 or less makes no attempt at all:
    [set] stores nothing and returns [None] rather than a boolean, [get]
    returns [None], and no counter moves. *)
Theorem no_attempts_nothing_cached (t : Z) (key data_type : string)
    (v : json) (ttl : option Z) (svc : Service) (w : Store) :
  max_retries (config svc) ≤ 0 →
  link w = [] →
  set t key v ttl data_type svc w = (None, with_client svc, w) ∧
  get t key data_type svc w = (None, with_client svc, w).
Proof.
  intros Hmr Hl.
  destruct (ensure_connected_reliable svc w Hl)
    as (svc0 & Hc0 & Hcfg0 & Hst0 & Hcl0).
  assert (Hsvc0 : svc0 = with_client svc).
  { destruct svc0, svc. cbn in *. subst. reflexivity. }
  assert (Hn : Z.to_nat (max_retries (config svc)) = 0%nat) by lia.
  unfold set, get. rewrite Hc0. cbv beta iota zeta. rewrite Hcfg0, Hn.
  subst svc0. split; reflexivity.
Qed.

End with_libraries.

(** *** The hit rate *)

(** With counters that are not negative, as all are that started at 0, the
    reported hit rate lies between 0 and 100, and is 0 when nothing was
    looked up. *)
Theorem hit_rate_percent_range (s : Stats) :
  0 ≤ hits s → 0 ≤ misses s →
  in_range (hit_rate_percent s) ∧
  (hits s + misses s = 0 → (hit_rate_percent s == 0)%Q).
Proof.
  intros Hh Hm. unfold hit_rate_percent. cbv zeta. split.
  - apply round2_in_range.
    destruct (0 <? hits s + misses s) eqn:E.
    + apply Z.ltb_lt in E. apply ratio_percent_in_range; lia.
    + split; cbn; lra.
  - intros H0. rewrite H0. cbn. reflexivity.
Qed.

(** *** Instances *)

Import PlainLibrariesFacts.

Definition empty_store : Store := {| db := ∅; link := [] |}.

(** A quote cached with the default 900 seconds is read back one second
    before they are over. *)
Lemma set_then_get_witness :
  ∃ svc1 w1,
    set 0 "AAPL" PlainLibraries.small_payload None "stock_data"
      (Service_init 900 1024 3) empty_store = (Some true, svc1, w1) ∧
    get 899 "AAPL" "stock_data" svc1 w1
    = (Some PlainLibraries.small_payload,
       with_stats svc1 (incr_hits (stats svc1)), w1).
Proof.
  destruct (set_then_get 0 899 "AAPL" "stock_data"
              PlainLibraries.small_payload None (Service_init 900 1024 3)
              empty_store eq_refl eq_refl eq_refl eq_refl)
    as (svc1 & w1 & Hset & _ & Hget & _).
  exists svc1, w1. split; [exact Hset | apply Hget; reflexivity].
Defined.

(** Two lost exchanges with three attempts allowed: the read is made
    three seconds later. *)
Lemma get_survives_lost_exchanges_witness :
  get 0 "AAPL" "stock_data" (with_client (Service_init 900 1024 3))
    {| db := ∅; link := flaky 2 |}
  = get 3 "AAPL" "stock_data" (with_client (Service_init 900 1024 3))
      empty_store.
Proof.
  apply (get_survives_lost_exchanges 0 "AAPL" "stock_data"
           (with_client (Service_init 900 1024 3))
           {| db := ∅; link := flaky 2 |} 2); reflexivity.
Defined.

(** A store that has gone away, and a store holding bytes that were not
    written by [_serialize]. *)
Lemma get_failures_witness :
  (∃ w', get 0 "AAPL" "stock_data" (Service_init 900 1024 3)
           {| db := ∅; link := [false; false] |}
         = (None,
            with_stats (with_client (Service_init 900 1024 3))
              (incr_errors (stats (Service_init 900 1024 3))), w')
         ∧ db w' = ∅) ∧
  get 0 "AAPL" "stock_data" (Service_init 900 1024 3)
    {| db := <[ "stock:AAPL"%string := (["?"%byte], 100) ]> ∅; link := [] |}
  = (None,
     with_stats (with_client (Service_init 900 1024 3))
       (incr_errors (stats (Service_init 900 1024 3))),
     {| db := <[ "stock:AAPL"%string := (["?"%byte], 100) ]> ∅;
        link := [] |}).
Proof.
  split.
  - apply (proj1 (get_failures 0 "AAPL" "stock_data"
                    (Service_init 900 1024 3)
                    {| db := ∅; link := [false; false] |} eq_refl) []).
    reflexivity.
  - apply (proj2 (get_failures 0 "AAPL" "stock_data"
                    (Service_init 900 1024 3)
                    {| db := <[ "stock:AAPL"%string := (["?"%byte], 100) ]> ∅;
                       link := [] |} eq_refl)
             eq_refl ["?"%byte] UnpicklingError).
    + unfold redis_get. cbn [db].
      change (_build_key (config (Service_init 900 1024 3)) "AAPL"
                "stock_data") with "stock:AAPL"%string.
      rewrite lookup_insert_eq. reflexivity.
    + reflexivity.
Defined.

(** The service with no attempt allowed. *)
Lemma no_attempts_nothing_cached_witness :
  set 0 "AAPL" PlainLibraries.small_payload None "stock_data"
    (Service_init 900 1024 0) empty_store
  = (None, with_client (Service_init 900 1024 0), empty_store) ∧
  get 0 "AAPL" "stock_data" (Service_init 900 1024 0) empty_store
  = (None, with_client (Service_init 900 1024 0), empty_store).
Proof.
  apply (no_attempts_nothing_cached 0 "AAPL" "stock_data"
           PlainLibraries.small_payload None (Service_init 900 1024 0)
           empty_store).
  - vm_compute. discriminate.
  - reflexivity.
Defined.

(** Three hits and one miss. *)
Lemma hit_rate_percent_range_witness :
  in_range
    (hit_rate_percent
       {| hits := 3; misses := 1; sets := 0; deletes := 0; errors := 0 |}).
Proof.
  apply (hit_rate_percent_range
           {| hits := 3; misses := 1; sets := 0; deletes := 0;
              errors := 0 |}); vm_compute; discriminate.
Defined.

End CacheServiceMore.

(** ** The Alpha Vantage request loop *)

Module AlphaVantageFacts.

Import AlphaVantageClient.
Local Open Scope Z_scope.

(** The timestamps of the last day and of the last minute. *)
Definition kept (t : Z) (l : list Z) : list Z :=
  filter (λ ts, t - ts < seconds 86400) l.

Definition recent (t : Z) (l : list Z) : list Z :=
  filter (λ ts, t - seconds 60 < ts) l.

Lemma _check_rate_limits_snd (t : Z) (c : Client) :
  snd (_check_rate_limits t c)
  = set_request_timestamps c (kept t (request_timestamps c)).
Proof.
  unfold _check_rate_limits. cbv zeta.
  repeat match goal with |- context [if ?b then _ else _] => destruct b end;
    reflexivity.
Qed.

Lemma _check_rate_limits_fst (t : Z) (c : Client) :
  fst (_check_rate_limits t c) = true
  ↔ len (kept t (request_timestamps c)) < requests_per_day c
    ∧ len (recent t (kept t (request_timestamps c))) < requests_per_minute c.
Proof.
  unfold _check_rate_limits. cbv zeta.
  cbn [request_timestamps set_request_timestamps requests_per_day
         requests_per_minute].
  fold (kept t (request_timestamps c)).
  fold (recent t (kept t (request_timestamps c))).
  destruct (requests_per_day c <=? _) eqn:Eday;
    [|destruct (requests_per_minute c <=? _) eqn:Emin];
    rewrite ?Z.leb_le, ?Z.leb_gt in *; cbn [fst];
    (split; [try discriminate; intros _; split; assumption
            |try reflexivity; intros [? ?]; lia]).
Qed.

Lemma length_filter_mono {A} (P Q : A → Prop) `{∀ x, Decision (P x)}
    `{∀ x, Decision (Q x)} (l : list A) :
  (∀ x, P x → Q x) → (length (filter P l) ≤ length (filter Q l))%nat.
Proof.
  intros HPQ. induction l as [|x l IH]; [reflexivity|].
  rewrite !filter_cons.
  destruct (decide (P x)) as [HP|], (decide (Q x)) as [|HQ]; cbn; try lia.
  destruct HQ. auto.
Qed.

Lemma kept_kept (t t' : Z) (l : list Z) :
  t ≤ t' → kept t' (kept t l) = kept t' l.
Proof.
  intros Hle. unfold kept. apply list_filter_filter_l. intros x. lia.
Qed.

Lemma len_kept_mono (t t' : Z) (l : list Z) :
  t ≤ t' → len (kept t' l) ≤ len (kept t l).
Proof.
  intros Hle. unfold len, kept. apply inj_le, length_filter_mono.
  intros x. lia.
Qed.

Lemma len_recent_mono (t t' : Z) (l : list Z) :
  t ≤ t' → len (recent t' (kept t' l)) ≤ len (recent t (kept t l)).
Proof.
  intros Hle. unfold len, recent, kept. rewrite !list_filter_filter.
  apply inj_le, length_filter_mono. intros x. lia.
Qed.

(** Waiting never closes the limiter: a client that passed the check
    passes it again at any later instant, as long as it has recorded no
    request in between. *)
Theorem _check_rate_limits_stays_open (t t' : Z) (c : Client) :
  t ≤ t' →
  fst (_check_rate_limits t c) = true →
  fst (_check_rate_limits t' (snd (_check_rate_limits t c))) = true.
Proof.
  intros Hle Hopen. apply _check_rate_limits_fst in Hopen as [Hday Hmin].
  rewrite _check_rate_limits_snd. apply _check_rate_limits_fst.
  cbn [request_timestamps set_request_timestamps requests_per_day
         requests_per_minute].
  rewrite (kept_kept t t' _ Hle).
  pose proof (len_kept_mono t t' (request_timestamps c) Hle).
  pose proof (len_recent_mono t t' (request_timestamps c) Hle).
  split; lia.
Qed.

(** The limiter delays a request and never refuses it: with one attempt
    allowed and a server that answers, [_make_request] returns the answer
    and records the request, sixty seconds later than asked when the check
    failed, at once when it passed. *)
Theorem _make_request_never_refused (c : Client) (w : World)
    (data : CacheService.json) (rest : list Response) :
  0 < max_retries c →
  http w = Answer false false data :: rest →
  let delay :=
    if fst (_check_rate_limits (now w) c) then 0 else seconds 60 in
  _make_request c w
  = (Some data,
     set_request_timestamps c
       (kept (now w) (request_timestamps c) ++ [now w + delay]),
     {| now := now w + delay; http := rest |}).
Proof.
  intros Hmr Hhttp. cbv zeta. unfold _make_request.
  pose proof (_check_rate_limits_snd (now w) c) as Hsnd.
  destruct (_check_rate_limits (now w) c) as [allowed c0].
  cbn [fst snd] in *. subst c0.
  cbn [max_retries set_request_timestamps].
  assert (Hn : ∃ n, Z.to_nat (max_retries c) = S n).
  { exists (Z.to_nat (max_retries c) - 1)%nat. lia. }
  destruct Hn as [n ->]. cbn [request_attempts].
  destruct allowed; cbn [negb]; unfold session_get, sleep; cbn [http now];
    rewrite Hhttp; cbv beta iota zeta; unfold stamp;
    cbn [request_timestamps set_request_timestamps now max_retries
           requests_per_minute requests_per_day];
    rewrite ?Z.add_0_r; [destruct w; cbn in *; subst|]; reflexivity.
Qed.

Lemma request_attempts_bounded (remaining attempt : nat) (c : Client)
    (w : World) :
  ∃ used new,
    http w = used ++ http (snd (request_attempts remaining attempt c w)) ∧
    request_timestamps (snd (fst (request_attempts remaining attempt c w)))
    = request_timestamps c ++ new ∧
    (length new ≤ length used ≤ remaining)%nat.
Proof.
  revert attempt c w.
  induction remaining as [|later IH]; intros attempt c w.
  - exists [], []. cbn. rewrite app_nil_r. auto.
  - cbn [request_attempts]. unfold session_get.
    destruct (http w) as [|r rest] eqn:Hhttp.
    + destruct (IH (S attempt) c (back_off later attempt w))
        as (used & new & H1 & H2 & H3).
      exists used, new.
      assert (Hb : http (back_off later attempt w) = http w)
        by (destruct later; reflexivity).
      rewrite Hb, Hhttp in H1. split; [exact H1|]. split; [exact H2 | lia].
    + set (w1 := {| now := now w; http := rest |}).
      assert (Hb : ∀ w0, http (back_off later attempt w0) = http w0)
        by (intros w0; destruct later; reflexivity).
      destruct r as [| | |error_message note data].
      * destruct (IH (S attempt) c (back_off later attempt w1))
          as (used & new & H1 & H2 & H3).
        exists (Transport_error :: used), new. rewrite Hb in H1.
        cbn [http w1] in H1. rewrite H1 at 1.
        split; [reflexivity|]. split; [exact H2 | cbn; lia].
      * destruct (IH (S attempt) c (back_off later attempt w1))
          as (used & new & H1 & H2 & H3).
        exists (Status_error :: used), new. rewrite Hb in H1.
        cbn [http w1] in H1. rewrite H1 at 1.
        split; [reflexivity|]. split; [exact H2 | cbn; lia].
      * destruct (IH (S attempt) (stamp c w1) (back_off later attempt w1))
          as (used & new & H1 & H2 & H3).
        exists (Unreadable :: used), (now w1 :: new). rewrite Hb in H1.
        cbn [http w1] in H1. rewrite H1 at 1.
        split; [reflexivity|]. split; [|cbn; lia].
        rewrite H2. unfold stamp. cbn [request_timestamps
                                         set_request_timestamps].
        rewrite <- app_assoc. reflexivity.
      * destruct error_message; [|destruct note].
        -- exists [Answer true note data], [now w1]. cbn.
           split; [reflexivity|]. split; [reflexivity | lia].
        -- destruct (IH (S attempt) (stamp c w1) (sleep 60 w1))
             as (used & new & H1 & H2 & H3).
           exists (Answer false true data :: used), (now w1 :: new).
           cbn [http sleep w1] in H1. rewrite H1 at 1.
           split; [reflexivity|]. split; [|cbn; lia].
           rewrite H2. unfold stamp. cbn [request_timestamps
                                            set_request_timestamps].
           rewrite <- app_assoc. reflexivity.
        -- exists [Answer false false data], [now w1]. cbn.
           split; [reflexivity|]. split; [reflexivity | lia].
Qed.

(** [_make_request] sends at most [max_retries] requests, whatever the
    server answers, and records at most one timestamp for each request it
    sent, after those of the last day. *)
Theorem _make_request_bounded (c : Client) (w : World) :
  ∃ used new,
    http w = used ++ http (snd (_make_request c w)) ∧
    request_timestamps (snd (fst (_make_request c w)))
    = kept (now w) (request_timestamps c) ++ new ∧
    (length new ≤ length used ≤ Z.to_nat (max_retries c))%nat.
Proof.
  unfold _make_request.
  pose proof (_check_rate_limits_snd (now w) c) as Hsnd.
  destruct (_check_rate_limits (now w) c) as [allowed c0].
  cbn [snd] in Hsnd. subst c0. cbn [max_retries set_request_timestamps].
  match goal with |- context [request_attempts ?n ?a ?c ?w] =>
    destruct (request_attempts_bounded n a c w)
      as (used & new & H1 & H2 & H3) end.
  exists used, new.
  split; [|split; [exact H2 | exact H3]].
  rewrite <- H1. destruct allowed; reflexivity.
Qed.

(** A client that has recorded the given instants, in seconds. *)
Definition client_after (stamps : list Z) : Client :=
  set_request_timestamps (Client_init 3) (seconds <$> stamps).

(** Four requests in the first seconds: open at second 10 and still open
    at second 100. *)
Lemma _check_rate_limits_stays_open_witness :
  fst (_check_rate_limits (seconds 100)
         (snd (_check_rate_limits (seconds 10) (client_after [0; 1; 2; 3]))))
  = true.
Proof.
  apply (_check_rate_limits_stays_open (seconds 10) (seconds 100)
           (client_after [0; 1; 2; 3])).
  - vm_compute. discriminate.
  - vm_compute. reflexivity.
Defined.

(** Five requests in the first seconds, so that the check fails at second
    10: the sixth request is sent all the same, at second 70. *)
Lemma _make_request_never_refused_witness :
  fst (_check_rate_limits (seconds 10) (client_after [0; 1; 2; 3; 4]))
  = false ∧
  _make_request (client_after [0; 1; 2; 3; 4])
    {| now := seconds 10; http := [Answer false false CacheService.JNull] |}
  = (Some CacheService.JNull,
     client_after [0; 1; 2; 3; 4; 70],
     {| now := seconds 70; http := [] |}).
Proof.
  split; [vm_compute; reflexivity|].
  rewrite (_make_request_never_refused (client_after [0; 1; 2; 3; 4])
             {| now := seconds 10;
                http := [Answer false false CacheService.JNull] |}
             CacheService.JNull []);
    [vm_compute; reflexivity | vm_compute; reflexivity | reflexivity].
Defined.

End AlphaVantageFacts.

(** ** Free cash flow at the two providers *)

Module CashFlowFacts.

Import Py Models CashFlow.
Local Open Scope Q_scope.

(** From the same figures both clients build a statement with the same net
    cash flow. Their free cash flows are [o - |c|] at Alpha Vantage and
    [o + c] at Yahoo Finance for operating cash flow [o] and capital
    expenditures [c]: the first is never above the second nor above [o], and
    the two agree exactly when [c] is not positive. *)
Theorem free_cash_flow_of_providers (symbol : string) (period : date)
    (f : Figures) (o c : Decimal) :
  operating_cf f = Some o →
  capex f = Some c →
  ∃ y a fy fa,
    _create_cashflow_statement (Some f) symbol period "Annual" = Some y ∧
    alpha_vantage_statement symbol period f = a ∧
    net_cash_flow y = net_cash_flow a ∧
    free_cash_flow y = Some fy ∧ free_cash_flow a = Some fa ∧
    fa <= fy ∧ fa <= o ∧ (fa == fy ↔ c <= 0).
Proof.
  intros Ho Hc.
  exists {| cf_symbol := upper symbol; cf_period_ending := period;
            cf_period_type := "Annual";
            operating_cash_flow := operating_cf f;
            investing_cash_flow := investing_cf f;
            financing_cash_flow := financing_cf f;
            net_cash_flow := net_cf f;
            free_cash_flow := Some (o + c);
            capital_expenditures := capex f;
            depreciation := depreciation_and_amortization f |},
    (alpha_vantage_statement symbol period f), (o + c), (o - Qabs c).
  split.
  { unfold _create_cashflow_statement. rewrite Ho, Hc. reflexivity. }
  split; [reflexivity|]. split; [reflexivity|]. split; [reflexivity|].
  split.
  { unfold alpha_vantage_statement. rewrite Ho, Hc. reflexivity. }
  pose proof (Qabs_nonneg c) as Hnn.
  pose proof (Qle_Qabs (- c)) as Hle. rewrite Qabs_opp in Hle.
  split; [lra|]. split; [lra|].
  split.
  - intros E. destruct (Qlt_le_dec 0 c) as [Hpos|]; [|assumption].
    rewrite (Qabs_pos c) in E by lra. lra.
  - intros Hneg. rewrite (Qabs_neg c Hneg). lra.
Qed.

(** Capital expenditures reported as a positive 30 against an operating
    cash flow of 100: 70 at Alpha Vantage, 130 at Yahoo Finance. *)
Lemma free_cash_flow_of_providers_witness :
  ∃ y a fy fa,
    _create_cashflow_statement
      (Some {| operating_cf := Some 100; investing_cf := None;
               financing_cf := None; capex := Some 30;
               depreciation_and_amortization := None |})
      "aapl" 0%Z "Annual" = Some y ∧
    alpha_vantage_statement "aapl" 0%Z
      {| operating_cf := Some 100; investing_cf := None;
         financing_cf := None; capex := Some 30;
         depreciation_and_amortization := None |} = a ∧
    net_cash_flow y = net_cash_flow a ∧
    free_cash_flow y = Some fy ∧ free_cash_flow a = Some fa ∧
    fa <= fy ∧ fa <= 100 ∧ (fa == fy ↔ 30 <= 0).
Proof.
  apply (free_cash_flow_of_providers "aapl" 0%Z
           {| operating_cf := Some 100; investing_cf := None;
              financing_cf := None; capex := Some 30;
              depreciation_and_amortization := None |} 100 30);
    reflexivity.
Defined.

End CashFlowFacts.

(** ** The merged search results *)

Module SymbolSearchFacts.

Import SymbolSearch.

(** The results the service holds before and while it adds those of Alpha
    Vantage: each was built by the Yahoo Finance client or is in the
    standard format. *)
Inductive listed : Result → Prop :=
  | listed_yahoo symbol name sector industry :
      listed (yahoo_result symbol name sector industry)
  | listed_standard result : listed (standard_format result).

Lemma listed_currency (r : Result) :
  listed r → r !! "currency"%string = None.
Proof. intros [? ? ? ?|?]; reflexivity. Qed.

Lemma alpha_vantage_result_currency (m : Result) :
  alpha_vantage_result m !! "currency"%string = Some (get m "8. currency").
Proof. reflexivity. Qed.

Lemma not_in_listed (m : Result) (results : list Result) :
  Forall listed results → not_in (alpha_vantage_result m) results = true.
Proof.
  intros Hall. unfold not_in. apply bool_decide_eq_true. intros Hin.
  rewrite Forall_forall in Hall. apply Hall, listed_currency in Hin.
  rewrite alpha_vantage_result_currency in Hin. discriminate.
Qed.

(** The duplicate test of [search_symbols] never holds: every result of
    Alpha Vantage is appended, in the standard format and in the order
    received, also when the same symbol is already listed or comes
    twice. *)
Theorem extend_with_appends_all (matches : list Result)
    (results : list Result) :
  Forall listed results →
  extend_with (alpha_vantage_result <$> matches) results
  = results ++ (standard_format <$> (alpha_vantage_result <$> matches)).
Proof.
  revert results. induction matches as [|m matches IH]; intros results Hall.
  - cbn. rewrite app_nil_r. reflexivity.
  - cbn [fmap list_fmap extend_with].
    rewrite (not_in_listed m results Hall).
    change (list_fmap _ _ alpha_vantage_result matches)
      with (alpha_vantage_result <$> matches).
    rewrite IH.
    + rewrite <- app_assoc. reflexivity.
    + apply Forall_app. split; [exact Hall|].
      constructor; [constructor | constructor].
Qed.

(** A match for IBM as Alpha Vantage reports it. *)
Definition ibm_match : Result :=
  <[ "1. symbol"%string := "IBM"%string ]>
    (<[ "2. name"%string := "International Business Machines"%string ]> ∅).

(** IBM found by Yahoo Finance and twice by Alpha Vantage: three
    results. *)
Lemma extend_with_appends_all_witness :
  extend_with (alpha_vantage_result <$> [ibm_match; ibm_match])
    [yahoo_result "IBM" "International Business Machines Corporation"
       "Technology" "Information Technology Services"]
  = [yahoo_result "IBM" "International Business Machines Corporation"
       "Technology" "Information Technology Services";
     standard_format (alpha_vantage_result ibm_match);
     standard_format (alpha_vantage_result ibm_match)].
Proof.
  apply (extend_with_appends_all [ibm_match; ibm_match]
           [yahoo_result "IBM" "International Business Machines Corporation"
              "Technology" "Information Technology Services"]).
  repeat constructor.
Defined.

End SymbolSearchFacts.
